(** * ChainWhisper: encryption service, session manager, ledger contracts
      and conversation replay, embedded from the JavaScript and Solidity
      sources.

    Conventions of the embedding.
    - A JavaScript function that can throw returns [result A]; [Throw msg]
      carries the [message] of the thrown [Error].  A [try { } catch { }]
      is a [match] on the result.
    - JavaScript strings are [string]s (sequences of code units); binary
      buffers ([Buffer], [Uint8Array]) are [list byte].
    - Numbers that hold block heights and ledger timestamps are [Z].
    - Functions of libraries the repository calls but does not contain
      (libsodium, the secp256k1 group behind [ethers] and node's [crypto],
      [JSON]) are operations of type classes; the facts the proofs rely on
      are the fields of the accompanying law classes. *)

From Stdlib Require Import ZArith List String Ascii Lia Bool Arith.
From Stdlib Require Import Strings.Byte.
From Stdlib Require Import Floats.PrimFloat.
From Stdlib Require Import DecimalString.
From Stdlib Require Import Sorting.Sorted Sorting.Permutation.
Import ListNotations.

Set Warnings "-register-all".
Local Open Scope string_scope.
Local Open Scope Z_scope.

(** ** Thrown errors *)

Inductive result (A : Type) : Type :=
| Ok (a : A)
| Throw (message : string).
Arguments Ok {A} a.
Arguments Throw {A} message.

Definition bind {A B : Type} (r : result A) (k : A -> result B) : result B :=
  match r with
  | Ok a => k a
  | Throw e => Throw e
  end.

Notation "x <- r ;; k" := (bind r (fun x => k))
  (at level 61, r at next level, right associativity).

Definition is_ok {A : Type} (r : result A) : bool :=
  match r with Ok _ => true | Throw _ => false end.

(** ** Strings *)

(** [s.slice(n)] for [0 <= n]. *)
Fixpoint slice (s : string) (n : nat) {struct n} : string :=
  match n with
  | O => s
  | S n' =>
      match s with
      | EmptyString => EmptyString
      | String _ r => slice r n'
      end
  end.

(** [s.startsWith(p)]. *)
Fixpoint startsWith (s p : string) {struct p} : bool :=
  match p with
  | EmptyString => true
  | String c p' =>
      match s with
      | EmptyString => false
      | String d s' => Ascii.eqb c d && startsWith s' p'
      end
  end.

Definition lower_ascii (c : ascii) : ascii :=
  let n := nat_of_ascii c in
  if (Nat.leb 65 n && Nat.leb n 90)%bool then ascii_of_nat (n + 32) else c.

(** [s.toLowerCase()] on the ASCII range.  Outside it only U+212A and
    U+0130 lower-case to or onto ASCII letters ([k] and [i]); neither letter
    occurs in a hexadecimal address, so comparisons against the lower-cased
    table keys below are not affected. *)
Fixpoint toLowerCase (s : string) : string :=
  match s with
  | EmptyString => EmptyString
  | String c r => String (lower_ascii c) (toLowerCase r)
  end.

(** Template-literal rendering of a non-negative integer. *)
Definition decimal (n : nat) : string := NilZero.string_of_uint (Nat.to_uint n).

(** [hay.includes(needle)]. *)
Fixpoint includes (hay needle : string) : bool :=
  (startsWith hay needle ||
   match hay with
   | EmptyString => false
   | String _ r => includes r needle
   end)%bool.

(** ** Hexadecimal text and buffers *)

Definition hex_val (c : ascii) : option N :=
  let n := N_of_ascii c in
  if (48 <=? n)%N && (n <=? 57)%N then Some (n - 48)%N
  else if (97 <=? n)%N && (n <=? 102)%N then Some (n - 87)%N
  else if (65 <=? n)%N && (n <=? 70)%N then Some (n - 55)%N
  else None.

Definition is_hex_digit (c : ascii) : bool :=
  match hex_val c with Some _ => true | None => false end.

Fixpoint all_hex (s : string) : bool :=
  match s with
  | EmptyString => true
  | String c r => is_hex_digit c && all_hex r
  end.

Definition byte_of_N (n : N) : byte :=
  match Byte.of_N n with Some b => b | None => x00 end.

(** [Buffer.from(s, 'hex')]: decodes pairs of digits and stops at the first
    pair that is not hexadecimal; a trailing single digit is dropped. *)
Fixpoint Buffer_from_hex (s : string) : list byte :=
  match s with
  | String c1 (String c2 r) =>
      match hex_val c1, hex_val c2 with
      | Some h, Some l => byte_of_N (16 * h + l) :: Buffer_from_hex r
      | _, _ => []
      end
  | _ => []
  end.

Definition hex_digit (n : N) : ascii :=
  if (n <? 10)%N then ascii_of_N (48 + n) else ascii_of_N (87 + n).

(** Lower-case hexadecimal rendering of a buffer, without prefix (the body
    of what [ethers] returns for key material). *)
Fixpoint hexlify (l : list byte) : string :=
  match l with
  | [] => EmptyString
  | b :: r =>
      String (hex_digit (Byte.to_N b / 16))
        (String (hex_digit (Byte.to_N b mod 16)) (hexlify r))
  end.

(** Big-endian value of a buffer. *)
Definition be_to_Z (l : list byte) : Z :=
  fold_left (fun acc b => acc * 256 + Z.of_N (Byte.to_N b)) l 0.

(** ** The secp256k1 group, as [ethers] and node's [crypto] expose it *)

(** Order of the secp256k1 group. *)
Definition curve_order : Z :=
  0xFFFFFFFFFFFFFFFFFFFFFFFFFFFFFFFEBAAEDCE6AF48A03BBFD25E8CD0364141.

Definition valid_scalar (d : Z) : bool := (0 <? d) && (d <? curve_order).

Class Secp256k1 : Type := {
  point : Type;
  (** [mulG d] is the public point of the private scalar [d]. *)
  mulG : Z -> point;
  (** [mul d P] is the Diffie-Hellman point of [d] and [P]. *)
  mul : Z -> point -> point;
  (** Uncompressed encoding: [0x04], then both coordinates. *)
  encode_point : point -> list byte;
  decode_point : list byte -> option point;
  (** The x coordinate, which [computeSecret] returns. *)
  x_coord : point -> list byte;
}.

Class Secp256k1Laws `{Secp256k1} : Prop := {
  dh_commutes : forall a b,
    valid_scalar a = true -> valid_scalar b = true ->
    mul a (mulG b) = mul b (mulG a);
  encode_public_shape : forall a,
    valid_scalar a = true ->
    exists body, encode_point (mulG a) = x04 :: body /\ List.length body = 64%nat;
  decode_encode_public : forall a,
    valid_scalar a = true ->
    decode_point (encode_point (mulG a)) = Some (mulG a);
}.

Class Sha256 : Type := {
  sha256 : list byte -> list byte;
}.

Class Sha256Laws `{Sha256} : Prop := {
  sha256_length : forall x, List.length (sha256 x) = 32%nat;
}.

(** ** libsodium *)

Class Sodium : Type := {
  from_string : string -> list byte;
  (** Throws on bytes that are not UTF-8. *)
  to_string : list byte -> result string;
  to_base64 : list byte -> string;
  (** Throws on text that is not base64. *)
  from_base64 : string -> result (list byte);
  (** [crypto_aead_xchacha20poly1305_ietf_encrypt(m, null, null, nonce, key)];
      throws on a nonce or key of the wrong length. *)
  aead_encrypt : list byte -> list byte -> list byte -> result (list byte);
  (** [crypto_aead_xchacha20poly1305_ietf_decrypt(null, c, null, nonce, key)];
      throws when the tag does not verify. *)
  aead_decrypt : list byte -> list byte -> list byte -> result (list byte);
}.

(** [crypto_aead_xchacha20poly1305_ietf_NPUBBYTES] and the key length. *)
Definition NPUBBYTES : nat := 24.
Definition KEYBYTES : nat := 32.

Class SodiumLaws `{Sodium} : Prop := {
  to_string_from_string : forall s, to_string (from_string s) = Ok s;
  from_base64_to_base64 : forall b, from_base64 (to_base64 b) = Ok b;
  to_base64_nonempty : forall b, b <> [] -> to_base64 b <> EmptyString;
  aead_encrypt_defined : forall m nonce key,
    List.length nonce = NPUBBYTES -> List.length key = KEYBYTES ->
    exists c, aead_encrypt m nonce key = Ok c;
  aead_decrypt_encrypt : forall m nonce key c,
    aead_encrypt m nonce key = Ok c ->
    aead_decrypt c nonce key = Ok m /\ c <> [];
  (** Idealised authentication: a ciphertext sealed under one key does not
      verify under another. *)
  aead_key_binding : forall m nonce key key' c,
    aead_encrypt m nonce key = Ok c -> key' <> key ->
    exists e, aead_decrypt c nonce key' = Throw e;
}.

(** ** JavaScript values and JSON *)

Inductive jsval : Type :=
| JUndefined
| JNull
| JBool (b : bool)
| JNumber (x : float)
| JString (s : string)
| JArray (items : list jsval)
| JObject (fields : list (string * jsval)).

Class Json : Type := {
  (** Throws a [SyntaxError] on text that is not JSON. *)
  JSON_parse : string -> result jsval;
  JSON_stringify : jsval -> string;
}.

Fixpoint assoc {A : Type} (k : string) (l : list (string * A)) : option A :=
  match l with
  | [] => None
  | (k', v) :: r => if String.eqb k k' then Some v else assoc k r
  end.

(** [v[k]] for a property name [k] that no prototype defines: reading a
    property of [null] or [undefined] throws, a primitive or an array has no
    such property. *)
Definition js_get (v : jsval) (k : string) : result jsval :=
  match v with
  | JUndefined => Throw "Cannot read properties of undefined"
  | JNull => Throw "Cannot read properties of null"
  | JObject fields =>
      Ok (match assoc k fields with Some x => x | None => JUndefined end)
  | _ => Ok JUndefined
  end.

(** [!!v]. *)
Definition truthy (v : jsval) : bool :=
  match v with
  | JUndefined | JNull => false
  | JBool b => b
  | JNumber x => negb (PrimFloat.is_zero x || PrimFloat.is_nan x)
  | JString s => negb (String.eqb s EmptyString)
  | JArray _ | JObject _ => true
  end.

(** [v === s] for a string [s]. *)
Definition strict_eq_string (v : jsval) (s : string) : bool :=
  match v with
  | JString t => String.eqb t s
  | _ => false
  end.

(** An object literal whose properties are all strings. *)
Definition flat_object (fields : list (string * string)) : jsval :=
  JObject (map (fun kv => (fst kv, JString (snd kv))) fields).

Definition is_letter (c : ascii) : bool :=
  let n := nat_of_ascii c in
  ((Nat.leb 65 n && Nat.leb n 90) || (Nat.leb 97 n && Nat.leb n 122))%bool.

Definition starts_with_letter (k : string) : bool :=
  match k with
  | String c _ => is_letter c
  | EmptyString => false
  end.

Class JsonLaws `{Json} : Prop := {
  (** [JSON.parse(JSON.stringify(o))] rebuilds an object of string
      properties, in insertion order when no key is an array index. *)
  JSON_parse_stringify : forall fields,
    NoDup (map fst fields) ->
    forallb starts_with_letter (map fst fields) = true ->
    JSON_parse (JSON_stringify (flat_object fields)) = Ok (flat_object fields);
}.

(** ** services/encryption.js *)

Module EncryptionService.
Section Service.
Context `{Secp256k1} `{Sha256} `{Sodium} `{Json}.

(** [new ethers.Wallet(key).signingKey.publicKey]: [key] is ['0x'] followed
    by 64 hexadecimal digits of a scalar of the group; the result is ['0x']
    followed by the hexadecimal uncompressed point. *)
Definition Wallet_publicKey (key : string) : result string :=
  let digits := slice key 2 in
  if startsWith key "0x" && Nat.eqb (String.length digits) 64 && all_hex digits then
    let d := be_to_Z (Buffer_from_hex digits) in
    if valid_scalar d then Ok ("0x" ++ hexlify (encode_point (mulG d)))
    else Throw "invalid private key"
  else Throw "invalid private key".

(** [ecdh.setPrivateKey(buffer)] of [crypto.createECDH('secp256k1')]; the
    handle is the scalar. *)
Definition ECDH_setPrivateKey (buffer : list byte) : result Z :=
  let d := be_to_Z buffer in
  if valid_scalar d then Ok d
  else Throw "Private key is not valid for specified curve.".

(** [ecdh.computeSecret(publicKeyBuffer)]. *)
Definition ECDH_computeSecret (d : Z) (publicKeyBuffer : list byte) : result (list byte) :=
  match decode_point publicKeyBuffer with
  | Some P => Ok (x_coord (mul d P))
  | None => Throw "Public key is not valid for specified curve"
  end.

Definition strip0x (s : string) : string :=
  if startsWith s "0x" then slice s 2 else s.

Definition getPublicKeyFromPrivate (privateKeyHex : string) : result string :=
  let cleanPrivateKey := strip0x privateKeyHex in
  publicKey <- Wallet_publicKey ("0x" ++ cleanPrivateKey) ;;
  Ok (slice publicKey 4).

Definition generateSharedSecret (privateKeyHex publicKeyHex : string)
  : result (list byte) :=
  let cleanPrivateKey := strip0x privateKeyHex in
  let cleanPublicKey := strip0x publicKeyHex in
  ecdh <- ECDH_setPrivateKey (Buffer_from_hex cleanPrivateKey) ;;
  publicKeyBuffer <-
    (if Nat.eqb (String.length cleanPublicKey) 128 then
       Ok (Buffer_from_hex ("04" ++ cleanPublicKey))
     else if Nat.eqb (String.length cleanPublicKey) 130
             && startsWith cleanPublicKey "04" then
       Ok (Buffer_from_hex cleanPublicKey)
     else
       Throw ("Invalid public key format. Length: "
              ++ decimal (String.length cleanPublicKey))) ;;
  sharedSecret <- ECDH_computeSecret ecdh publicKeyBuffer ;;
  let derivedKey := sha256 sharedSecret in
  Ok derivedKey.

Definition testingKeys : list (string * string) :=
  [ ("0x4B3462da947df564eA5d7bd23f5515fbEB093d55",
     "d02a0bf9cf918bf11ded83e126a3dcb143c85fce4f9d5bf607a90b56633c8aac");
    ("0xd6ED9d6A26636df02D6A2a51A448cAC55795e016",
     "e536d3033baab4a34254cc29c5a7a09c78161f54b21fe673cc15cec91a9496f0") ].

(** [Object.entries(testingKeys).find(([addr]) => ...)?.[1]]. *)
Fixpoint find_key (entries : list (string * string)) (normalizedAddress : string)
  : option string :=
  match entries with
  | [] => None
  | (addr, key) :: r =>
      if String.eqb (toLowerCase addr) normalizedAddress then Some key
      else find_key r normalizedAddress
  end.

Definition getRecipientPrivateKeyForTesting (recipientAddress : string)
  : result string :=
  let normalizedAddress := toLowerCase recipientAddress in
  match find_key testingKeys normalizedAddress with
  | Some key =>
      if String.eqb key EmptyString then
        Throw ("Testing private key not found for address: " ++ recipientAddress)
      else Ok key
  | None =>
      Throw ("Testing private key not found for address: " ++ recipientAddress)
  end.

Definition ALGORITHM : string := "XChaCha20-Poly1305".

(** The object that [encryptForRecipient] serialises. *)
Definition envelope (ciphertext nonce : string) : jsval :=
  flat_object [ ("ciphertext", ciphertext);
                ("nonce", nonce);
                ("algorithm", ALGORITHM);
                ("keyDerivation", "ECDH-secp256k1");
                ("version", "3.0") ].

(** [nonce] is the value that [randombytes_buf(NPUBBYTES)] returned. *)
Definition encryptForRecipient (message senderPrivateKey recipientAddress : string)
  (nonce : list byte) : result string :=
  recipientPrivateKey <- getRecipientPrivateKeyForTesting recipientAddress ;;
  recipientPublicKey <- getPublicKeyFromPrivate recipientPrivateKey ;;
  sharedSecret <- generateSharedSecret senderPrivateKey recipientPublicKey ;;
  let key := sharedSecret in
  let messageBytes := from_string message in
  ciphertext <- aead_encrypt messageBytes nonce key ;;
  let encryptionResult :=
    JSON_stringify (envelope (to_base64 ciphertext) (to_base64 nonce)) in
  Ok encryptionResult.

Definition CORRUPTED (encryptedData : string) : string :=
  "[Corrupted message - " ++ decimal (String.length encryptedData) ++ " chars]".
Definition LEGACY : string :=
  "[Legacy message format - please resend with current version]".
Definition UNDECRYPTABLE : string := "[Message could not be decrypted]".

(** [sodium.from_base64(v, ORIGINAL)] applied to a JavaScript value:
    anything but a string is an unsupported input type. *)
Definition sodium_from_base64 (v : jsval) : result (list byte) :=
  match v with
  | JString s => from_base64 s
  | _ => Throw "unsupported input type for input"
  end.

(** The inner [try] of [decryptFromSender]: parse and check the fields. *)
Definition parse_payload (encryptedData : string) : result jsval :=
  encryptionPayload <- JSON_parse encryptedData ;;
  ciphertext <- js_get encryptionPayload "ciphertext" ;;
  nonce <- js_get encryptionPayload "nonce" ;;
  if negb (truthy ciphertext) || negb (truthy nonce) then
    Throw "Invalid encryption payload"
  else Ok encryptionPayload.

(** What follows the algorithm check, up to the [return] of the plaintext. *)
Definition open_payload (encryptionPayload : jsval)
  (recipientPrivateKey senderAddress : string) : result string :=
  senderPrivateKey <- getRecipientPrivateKeyForTesting senderAddress ;;
  senderPublicKey <- getPublicKeyFromPrivate senderPrivateKey ;;
  sharedSecret <- generateSharedSecret recipientPrivateKey senderPublicKey ;;
  let key := sharedSecret in
  nonceField <- js_get encryptionPayload "nonce" ;;
  nonce <- sodium_from_base64 nonceField ;;
  ciphertextField <- js_get encryptionPayload "ciphertext" ;;
  ciphertext <- sodium_from_base64 ciphertextField ;;
  decryptedBytes <- aead_decrypt ciphertext nonce key ;;
  decryptedMessage <- to_string decryptedBytes ;;
  if String.eqb decryptedMessage EmptyString then
    Throw "Decryption resulted in empty message"
  else Ok decryptedMessage.

Definition decryptFromSender (encryptedData recipientPrivateKey senderAddress : string)
  : string :=
  match parse_payload encryptedData with
  | Throw _ =>
      if Nat.ltb (String.length encryptedData) 100 then CORRUPTED encryptedData
      else LEGACY
  | Ok encryptionPayload =>
      match js_get encryptionPayload "algorithm" with
      | Throw _ => UNDECRYPTABLE
      | Ok algorithm =>
          if negb (strict_eq_string algorithm ALGORITHM) then LEGACY
          else
            match open_payload encryptionPayload recipientPrivateKey senderAddress with
            | Ok decryptedMessage => decryptedMessage
            | Throw _ => UNDECRYPTABLE
            end
      end
  end.

(** A private key as the wallet and the table hold it: 64 hexadecimal
    digits, with or without ['0x'], of a scalar of the group. *)
Definition valid_private_key (privateKeyHex : string) : bool :=
  let clean := strip0x privateKeyHex in
  Nat.eqb (String.length clean) 64 && all_hex clean
  && valid_scalar (be_to_Z (Buffer_from_hex clean)).

Definition scalar_of (privateKeyHex : string) : Z :=
  be_to_Z (Buffer_from_hex (strip0x privateKeyHex)).

(** An identity (address, private key) is one of the table's when the
    address matches an entry up to letter case and the key is that entry's,
    up to the ['0x'] prefix. *)
Definition table_identity (address privateKeyHex : string) : Prop :=
  exists addr key,
    In (addr, key) testingKeys /\
    toLowerCase address = toLowerCase addr /\
    strip0x privateKeyHex = key.

(** The strings that [decryptFromSender] returns in place of a plaintext. *)
Definition is_sentinel (encryptedData text : string) : Prop :=
  text = CORRUPTED encryptedData \/ text = LEGACY \/ text = UNDECRYPTABLE.

(** Whether the table has a key for the address. *)
Definition in_table (address : string) : bool :=
  match find_key testingKeys (toLowerCase address) with
  | Some _ => true
  | None => false
  end.

(** The key that both [encryptForRecipient] and [decryptFromSender] derive
    from the caller's private key and the peer's address. *)
Definition derived_key (localPrivateKey peerAddress : string) : result (list byte) :=
  peerPrivateKey <- getRecipientPrivateKeyForTesting peerAddress ;;
  peerPublicKey <- getPublicKeyFromPrivate peerPrivateKey ;;
  generateSharedSecret localPrivateKey peerPublicKey.

End Service.
End EncryptionService.

(** ** contracts/ChatFactory.sol

    Contract storage is a record; a Solidity [mapping] is a total function
    with default zero; a call that reverts is a [Throw] with the revert
    reason and leaves storage unchanged.  [uint256] arithmetic of Solidity
    0.8 is checked. *)

Module Ledger.

Definition address : Type := Z.
Definition bytes32 : Type := Z.
Definition ZeroAddress : address := 0.

Definition UINT256_MAX : Z := 2 ^ 256 - 1.

Definition checked_add (a b : Z) : result Z :=
  if a + b <=? UINT256_MAX then Ok (a + b) else Throw "panic: arithmetic overflow".

Definition checked_sub (a b : Z) : result Z :=
  if b <=? a then Ok (a - b) else Throw "panic: arithmetic underflow".

(** [block.timestamp] and [block.prevrandao] of the executing block. *)
Record Block : Type := {
  timestamp : Z;
  prevrandao : Z;
}.

(** *** contract ChatSession *)

Record ChatSession : Type := {
  participant1 : address;
  participant2 : address;
  messageCount : Z;
  sessionActive : bool;
  createdAt : Z;
  lastActivity : Z;
  sessionExpiry : Z;
}.

Definition SESSION_DURATION : Z := 3600.

Record MessageSent : Type := {
  ev_from : address;
  ev_cid : string;
  ev_timestamp : Z;
  ev_expiry : Z;
  ev_messageIndex : Z;
  ev_isMedia : bool;
  ev_messageType : string;
}.

Definition ChatSession_constructor (blk : Block) (_participant1 _participant2 : address)
  : result ChatSession :=
  if negb (negb (_participant1 =? 0) && negb (_participant2 =? 0)) then
    Throw "Invalid participants"
  else if _participant1 =? _participant2 then Throw "Participants must differ"
  else
    expiry <- checked_add (timestamp blk) SESSION_DURATION ;;
    Ok {| participant1 := _participant1;
          participant2 := _participant2;
          messageCount := 0;
          sessionActive := true;
          createdAt := timestamp blk;
          lastActivity := timestamp blk;
          sessionExpiry := expiry |}.

Definition onlyParticipants (s : ChatSession) (sender : address) : result unit :=
  if (sender =? participant1 s) || (sender =? participant2 s) then Ok tt
  else Throw "Unauthorized: not a participant".

Definition sessionMustBeActive (s : ChatSession) (blk : Block) : result unit :=
  if negb (sessionActive s) then Throw "Session closed"
  else if negb (timestamp blk <? sessionExpiry s) then Throw "Session expired"
  else Ok tt.

Definition sendMessage (s : ChatSession) (blk : Block) (sender : address)
  (cid : string) (expiry : Z) (isMedia : bool) (messageType : string)
  : result (ChatSession * MessageSent) :=
  _ <- onlyParticipants s sender ;;
  _ <- sessionMustBeActive s blk ;;
  if Nat.eqb (String.length cid) 0 then Throw "CID required"
  else if Nat.eqb (String.length messageType) 0 then Throw "Message type required"
  else if (0 <? expiry) && negb (timestamp blk <? expiry) then Throw "Invalid expiry"
  else
    next <- checked_add (messageCount s) 1 ;;
    Ok ({| participant1 := participant1 s;
           participant2 := participant2 s;
           messageCount := next;
           sessionActive := sessionActive s;
           createdAt := createdAt s;
           lastActivity := timestamp blk;
           sessionExpiry := sessionExpiry s |},
        {| ev_from := sender;
           ev_cid := cid;
           ev_timestamp := timestamp blk;
           ev_expiry := expiry;
           ev_messageIndex := messageCount s;
           ev_isMedia := isMedia;
           ev_messageType := messageType |}).

Definition set_active (s : ChatSession) (active : bool) : ChatSession :=
  {| participant1 := participant1 s;
     participant2 := participant2 s;
     messageCount := messageCount s;
     sessionActive := active;
     createdAt := createdAt s;
     lastActivity := lastActivity s;
     sessionExpiry := sessionExpiry s |}.

Definition closeSession (s : ChatSession) (sender : address) : result ChatSession :=
  _ <- onlyParticipants s sender ;;
  Ok (set_active s false).

Definition isSessionExpired (s : ChatSession) (blk : Block) : bool :=
  sessionExpiry s <=? timestamp blk.

Definition forceExpireSession (s : ChatSession) (blk : Block) : result ChatSession :=
  if negb (sessionExpiry s <=? timestamp blk) then Throw "Session not yet expired"
  else if negb (sessionActive s) then Throw "Session already closed"
  else Ok (set_active s false).

(** *** contract ChatFactory *)

(** The two address computations of the chain that the factory relies on:
    [keccak256(abi.encodePacked(sender, participant, timestamp, prevrandao,
    totalSessions))] and the address that [new ChatSession{salt: id}(sender,
    participant)] deploys to. *)
Class Evm : Type := {
  session_id : address -> address -> Z -> Z -> Z -> bytes32;
  create2_address : bytes32 -> address -> address -> address;
}.

Record Factory : Type := {
  sessionContracts : bytes32 -> address;
  userSessions : address -> list bytes32;
  participantPairToSession : address -> address -> bytes32;
  totalSessions : Z;
  activeSessions : Z;
}.

Definition MAX_SESSIONS_PER_USER : Z := 100.

(** The factory's storage and the [ChatSession] contracts deployed so far. *)
Record Chain : Type := {
  factory : Factory;
  deployed : address -> option ChatSession;
}.

Definition genesis : Chain :=
  {| factory := {| sessionContracts := fun _ => 0;
                   userSessions := fun _ => [];
                   participantPairToSession := fun _ _ => 0;
                   totalSessions := 0;
                   activeSessions := 0 |};
     deployed := fun _ => None |}.

Definition upd {A : Type} (m : Z -> A) (k : Z) (v : A) : Z -> A :=
  fun x => if x =? k then v else m x.

Definition upd2 {A : Type} (m : Z -> Z -> A) (k1 k2 : Z) (v : A) : Z -> Z -> A :=
  fun x y => if (x =? k1) && (y =? k2) then v else m x y.

(** An external call to a [ChatSession] at [a]: reverts when no such
    contract is deployed there. *)
Definition session_at (c : Chain) (a : address) : result ChatSession :=
  match deployed c a with
  | Some s => Ok s
  | None => Throw "call to an address without code"
  end.

(** A [closeSession()] transaction sent by [sender] to the session at [a]. *)
Definition closeSessionAt (c : Chain) (a sender : address) : result Chain :=
  s <- session_at c a ;;
  s' <- closeSession s sender ;;
  Ok {| factory := factory c; deployed := upd (deployed c) a (Some s') |}.

Section Factory.
Context `{Evm}.

(** The check on the pair's previous session; returns the updated
    [activeSessions] counter. *)
Definition check_existing (c : Chain) (blk : Block) (sender participant : address)
  : result Z :=
  let f := factory c in
  let existingSessionId := participantPairToSession f sender participant in
  if negb (existingSessionId =? 0) then
    let existingContract := sessionContracts f existingSessionId in
    if negb (existingContract =? 0) then
      existing <- session_at c existingContract ;;
      let isExpired := isSessionExpired existing blk in
      let isActive := sessionActive existing in
      if isActive && negb isExpired then Throw "Active session exists"
      else if isExpired && isActive then checked_sub (activeSessions f) 1
      else Ok (activeSessions f)
    else Ok (activeSessions f)
  else Ok (activeSessions f).

Definition createChatSession (c : Chain) (blk : Block) (sender participant : address)
  : result (address * bytes32 * Chain) :=
  let f := factory c in
  if participant =? 0 then Throw "Invalid participant"
  else if participant =? sender then Throw "Cannot session with yourself"
  else if negb (Z.of_nat (List.length (userSessions f sender)) <? MAX_SESSIONS_PER_USER)
  then Throw "Maximum sessions reached"
  else
    let sessionId :=
      session_id sender participant (timestamp blk) (prevrandao blk) (totalSessions f) in
    if negb (sessionContracts f sessionId =? 0) then Throw "Session collision"
    else
      active <- check_existing c blk sender participant ;;
      (* new ChatSession{salt: sessionId}(msg.sender, participant) *)
      let sessionContract := create2_address sessionId sender participant in
      match deployed c sessionContract with
      | Some _ => Throw "contract creation failed: address in use"
      | None =>
          newSession <- ChatSession_constructor blk sender participant ;;
          let userSessions1 :=
            upd (userSessions f) sender (userSessions f sender ++ [sessionId])%list in
          let userSessions2 :=
            upd userSessions1 participant (userSessions1 participant ++ [sessionId])%list in
          let pair1 := upd2 (participantPairToSession f) sender participant sessionId in
          let pair2 := upd2 pair1 participant sender sessionId in
          total <- checked_add (totalSessions f) 1 ;;
          active' <- checked_add active 1 ;;
          Ok (sessionContract, sessionId,
              {| factory := {| sessionContracts := upd (sessionContracts f) sessionId sessionContract;
                               userSessions := userSessions2;
                               participantPairToSession := pair2;
                               totalSessions := total;
                               activeSessions := active' |};
                 deployed := upd (deployed c) sessionContract (Some newSession) |})
      end.

Definition getSessionBetween (c : Chain) (blk : Block) (user1 user2 : address)
  : result (bytes32 * address * bool) :=
  let f := factory c in
  let sessionId := participantPairToSession f user1 user2 in
  let contractAddr := sessionContracts f sessionId in
  if negb (contractAddr =? 0) then
    session <- session_at c contractAddr ;;
    let manuallyActive := sessionActive session in
    let notExpired := negb (isSessionExpired session blk) in
    let isActive := manuallyActive && notExpired in
    Ok (sessionId, contractAddr, isActive)
  else Ok (sessionId, contractAddr, false).

End Factory.
End Ledger.

(** ** contracts/ChatFactory.sol: the remaining functions, and histories *)

Module LedgerHistory.
Import Ledger.

(** *** contract ChatSession: views *)

Definition getRemainingTime (s : ChatSession) (blk : Block) : result Z :=
  if sessionExpiry s <=? timestamp blk then Ok 0
  else checked_sub (sessionExpiry s) (timestamp blk).

(** The tuple of [getSessionInfo()]. *)
Record SessionView : Type := {
  view_p1 : address;
  view_p2 : address;
  view_messages : Z;
  view_active : bool;
  view_created : Z;
  view_lastMsg : Z;
  view_expiry : Z;
  view_remaining : Z;
}.

Definition getSessionInfo (s : ChatSession) (blk : Block) : result SessionView :=
  timeLeft <-
    (if timestamp blk <? sessionExpiry s
     then checked_sub (sessionExpiry s) (timestamp blk) else Ok 0) ;;
  Ok {| view_p1 := participant1 s;
        view_p2 := participant2 s;
        view_messages := messageCount s;
        view_active := sessionActive s && (timestamp blk <? sessionExpiry s);
        view_created := createdAt s;
        view_lastMsg := lastActivity s;
        view_expiry := sessionExpiry s;
        view_remaining := timeLeft |}.

(** *** Transactions addressed to a deployed session *)

Definition sendMessageAt (c : Chain) (blk : Block) (a sender : address)
  (cid : string) (expiry : Z) (isMedia : bool) (messageType : string)
  : result (Chain * MessageSent) :=
  s <- session_at c a ;;
  sent <- sendMessage s blk sender cid expiry isMedia messageType ;;
  Ok ({| factory := factory c; deployed := upd (deployed c) a (Some (fst sent)) |},
      snd sent).

Definition forceExpireSessionAt (c : Chain) (blk : Block) (a : address) : result Chain :=
  s <- session_at c a ;;
  s' <- forceExpireSession s blk ;;
  Ok {| factory := factory c; deployed := upd (deployed c) a (Some s') |}.

(** *** contract ChatFactory: views and maintenance *)

Definition getSessionContract (c : Chain) (sessionId : bytes32) : address :=
  sessionContracts (factory c) sessionId.

Definition getUserSessions (c : Chain) (user : address) : list bytes32 :=
  userSessions (factory c) user.

Definition getFactoryStats (c : Chain) : Z * Z :=
  (totalSessions (factory c), activeSessions (factory c)).

Definition estimateSessionCreationGas : Z := 350000.

Definition set_activeSessions (f : Factory) (n : Z) : Factory :=
  {| sessionContracts := sessionContracts f;
     userSessions := userSessions f;
     participantPairToSession := participantPairToSession f;
     totalSessions := totalSessions f;
     activeSessions := n |}.

(** [cleanupExpiredSessions(sessionIds)]: the loop over the identifiers;
    a revert in any round reverts the whole call. *)
Fixpoint cleanupExpiredSessions (c : Chain) (blk : Block) (sessionIds : list bytes32)
  : result Chain :=
  match sessionIds with
  | [] => Ok c
  | sessionId :: rest =>
      let sessionAddr := sessionContracts (factory c) sessionId in
      if negb (sessionAddr =? 0) then
        session <- session_at c sessionAddr ;;
        if isSessionExpired session blk && sessionActive session then
          session' <- forceExpireSession session blk ;;
          active <- checked_sub (activeSessions (factory c)) 1 ;;
          cleanupExpiredSessions
            {| factory := set_activeSessions (factory c) active;
               deployed := upd (deployed c) sessionAddr (Some session') |}
            blk rest
        else cleanupExpiredSessions c blk rest
      else cleanupExpiredSessions c blk rest
  end.

(** The condition of both loops of [getActiveUserSessions]. *)
Definition counts_as_active (c : Chain) (blk : Block) (sessionId : bytes32) : result bool :=
  let sessionAddr := sessionContracts (factory c) sessionId in
  if negb (sessionAddr =? 0) then
    session <- session_at c sessionAddr ;;
    Ok (sessionActive session && negb (isSessionExpired session blk))
  else Ok false.

(** The first loop: [activeCount]. *)
Fixpoint count_active (c : Chain) (blk : Block) (allSessions : list bytes32)
  (activeCount : nat) : result nat :=
  match allSessions with
  | [] => Ok activeCount
  | sessionId :: rest =>
      active <- counts_as_active c blk sessionId ;;
      count_active c blk rest (if active then S activeCount else activeCount)
  end.

(** [array[index] = value] on a memory array: out of bounds panics. *)
Fixpoint array_set (array : list bytes32) (index : nat) (value : bytes32)
  : result (list bytes32) :=
  match array, index with
  | [], _ => Throw "panic: array index out of bounds"
  | _ :: r, O => Ok (value :: r)
  | x :: r, S i => r' <- array_set r i value ;; Ok (x :: r')
  end.

(** The second loop: fills [activeSessions_] from [index]. *)
Fixpoint fill_active (c : Chain) (blk : Block) (allSessions : list bytes32)
  (activeSessions_ : list bytes32) (index : nat) : result (list bytes32) :=
  match allSessions with
  | [] => Ok activeSessions_
  | sessionId :: rest =>
      active <- counts_as_active c blk sessionId ;;
      if active then
        array <- array_set activeSessions_ index sessionId ;;
        fill_active c blk rest array (S index)
      else fill_active c blk rest activeSessions_ index
  end.

Definition getActiveUserSessions (c : Chain) (blk : Block) (user : address)
  : result (list bytes32) :=
  let allSessions := userSessions (factory c) user in
  activeCount <- count_active c blk allSessions 0 ;;
  fill_active c blk allSessions (repeat 0 activeCount) 0.

(** *** Histories *)

Section Histories.
Context `{Evm}.

(** One accepted transaction, with the [MessageSent] event it emits, if
    any, tagged with the emitting session. *)
Inductive step : Chain -> list (address * MessageSent) -> Chain -> Prop :=
| step_create c blk sender participant a id c' :
    createChatSession c blk sender participant = Ok (a, id, c') -> step c [] c'
| step_send c blk a sender cid expiry isMedia messageType c' ev :
    sendMessageAt c blk a sender cid expiry isMedia messageType = Ok (c', ev) ->
    step c [(a, ev)] c'
| step_close c a sender c' :
    closeSessionAt c a sender = Ok c' -> step c [] c'
| step_force c blk a c' :
    forceExpireSessionAt c blk a = Ok c' -> step c [] c'
| step_cleanup c blk sessionIds c' :
    cleanupExpiredSessions c blk sessionIds = Ok c' -> step c [] c'.

(** A sequence of accepted transactions and the events it emits, in order. *)
Inductive evolves : Chain -> list (address * MessageSent) -> Chain -> Prop :=
| evolves_refl c : evolves c [] c
| evolves_step c log c' emitted c'' :
    evolves c log c' -> step c' emitted c'' -> evolves c (log ++ emitted)%list c''.

Definition reachable (c : Chain) : Prop := exists log, evolves genesis log c.

End Histories.

(** What every deployed session satisfies. *)
Definition session_wf (s : ChatSession) : Prop :=
  sessionExpiry s = createdAt s + SESSION_DURATION /\
  participant1 s <> 0 /\ participant2 s <> 0 /\
  participant1 s <> participant2 s /\
  0 <= messageCount s.

(** What the factory's storage satisfies on every reachable chain. *)
Definition chain_wf (c : Chain) : Prop :=
  (forall a b, participantPairToSession (factory c) a b
               = participantPairToSession (factory c) b a) /\
  (forall id, sessionContracts (factory c) id <> 0 ->
              exists s, deployed c (sessionContracts (factory c) id) = Some s) /\
  (forall a s, deployed c a = Some s -> session_wf s).

(** What a later state of a session keeps of an earlier one. *)
Definition session_continues (s s' : ChatSession) : Prop :=
  participant1 s' = participant1 s /\
  participant2 s' = participant2 s /\
  createdAt s' = createdAt s /\
  sessionExpiry s' = sessionExpiry s /\
  messageCount s <= messageCount s' /\
  (sessionActive s = false -> sessionActive s' = false).

(** The events of the session at [a] in a log. *)
Definition events_of (a : address) (log : list (address * MessageSent))
  : list MessageSent :=
  map snd (filter (fun entry => fst entry =? a) log).

(** [start; start + 1; ...], [n] numbers. *)
Fixpoint count_from (start : Z) (n : nat) : list Z :=
  match n with
  | O => []
  | S n' => start :: count_from (start + 1) n'
  end.

(** What the log of a history records about the session at [a]. *)
Definition log_matches (c : Chain) (log : list (address * MessageSent)) (a : address)
  : Prop :=
  match deployed c a with
  | Some s =>
      map ev_messageIndex (events_of a log)
      = count_from 0 (List.length (events_of a log)) /\
      messageCount s = Z.of_nat (List.length (events_of a log)) /\
      Forall (fun ev =>
                (ev_from ev = participant1 s \/ ev_from ev = participant2 s) /\
                ev_timestamp ev < sessionExpiry s)
             (events_of a log)
  | None => events_of a log = []
  end.

(** Whether the session recorded for an identifier is active in a block,
    as [getActiveUserSessions] decides it. *)
Definition is_active (c : Chain) (blk : Block) (sessionId : bytes32) : bool :=
  match counts_as_active c blk sessionId with
  | Ok active => active
  | Throw _ => false
  end.

End LedgerHistory.

(** ** contracts/ChatContract.sol *)

Module ChatContract.
Import Ledger.

(** [keccak256(abi.encodePacked(user1, user2))]. *)
Class Keccak : Type := {
  pair_hash : address -> address -> bytes32;
}.

Record MessageData : Type := {
  msg_from : address;
  msg_to : address;
  msg_cid : string;
  msg_timestamp : Z;
  msg_expiry : Z;
  msg_isMedia : bool;
  msg_messageType : string;
  msg_conversationHash : bytes32;
}.

(** The value of a mapping slot that was never written. *)
Definition no_message : MessageData :=
  {| msg_from := 0; msg_to := 0; msg_cid := EmptyString; msg_timestamp := 0;
     msg_expiry := 0; msg_isMedia := false; msg_messageType := EmptyString;
     msg_conversationHash := 0 |}.

(** [struct MessageStats], two [uint128]. *)
Record MessageStats : Type := {
  totalMessages : Z;
  activeConversations : Z;
}.

Definition UINT128_MAX : Z := 2 ^ 128 - 1.

Record Storage : Type := {
  messageCounter : Z;
  messages : Z -> MessageData;
  userMessages : address -> list Z;
  conversationMessages : bytes32 -> list Z;
  stats : MessageStats;
}.

(** Storage at deployment. *)
Definition deployment : Storage :=
  {| messageCounter := 0;
     messages := fun _ => no_message;
     userMessages := fun _ => [];
     conversationMessages := fun _ => [];
     stats := {| totalMessages := 0; activeConversations := 0 |} |}.

Record MessageSentEvent : Type := {
  sent_from : address;
  sent_to : address;
  sent_cid : string;
  sent_timestamp : Z;
  sent_expiry : Z;
  sent_messageId : Z;
  sent_conversationHash : bytes32;
}.

Record MessageReaction : Type := {
  reaction_messageId : Z;
  reaction_reactor : address;
  reaction_text : string;
  reaction_timestamp : Z;
}.

(** [365 days] *)
Definition YEAR : Z := 365 * 86400.

Section Contract.
Context `{Keccak}.

Definition generateConversationHash (user1 user2 : address) : bytes32 :=
  if user1 >? user2 then pair_hash user2 user1 else pair_hash user1 user2.

Definition sendMessage (st : Storage) (blk : Block) (sender to : address)
  (cid : string) (expiry : Z) (isMedia : bool) (messageType : string)
  : result (Z * Storage * MessageSentEvent) :=
  if to =? 0 then Throw "Invalid recipient"
  else if to =? sender then Throw "Cannot message yourself"
  else if Nat.eqb (String.length cid) 0 then Throw "CID required"
  else if Nat.eqb (String.length messageType) 0 then Throw "Message type required"
  else
    _ <- (if 0 <? expiry then
            if negb (timestamp blk <? expiry) then Throw "Expiry must be in future"
            else
              limit <- checked_add (timestamp blk) YEAR ;;
              if negb (expiry <=? limit) then Throw "Expiry too far" else Ok tt
          else Ok tt) ;;
    let messageId := messageCounter st in
    counter <- checked_add (messageCounter st) 1 ;;
    let conversationHash := generateConversationHash sender to in
    let messageData :=
      {| msg_from := sender; msg_to := to; msg_cid := cid;
         msg_timestamp := timestamp blk; msg_expiry := expiry; msg_isMedia := isMedia;
         msg_messageType := messageType; msg_conversationHash := conversationHash |} in
    let userMessages1 :=
      upd (userMessages st) sender (userMessages st sender ++ [messageId])%list in
    let userMessages2 := upd userMessages1 to (userMessages1 to ++ [messageId])%list in
    total <-
      (if totalMessages (stats st) + 1 <=? UINT128_MAX
       then Ok (totalMessages (stats st) + 1)
       else Throw "panic: arithmetic overflow") ;;
    Ok (messageId,
        {| messageCounter := counter;
           messages := upd (messages st) messageId messageData;
           userMessages := userMessages2;
           conversationMessages :=
             upd (conversationMessages st) conversationHash
               (conversationMessages st conversationHash ++ [messageId])%list;
           stats := {| totalMessages := total;
                       activeConversations := activeConversations (stats st) |} |},
        {| sent_from := sender; sent_to := to; sent_cid := cid;
           sent_timestamp := timestamp blk; sent_expiry := expiry;
           sent_messageId := messageId; sent_conversationHash := conversationHash |}).

Definition addReaction (st : Storage) (blk : Block) (sender : address) (messageId : Z)
  (reaction : string) : result MessageReaction :=
  if negb (messageId <? messageCounter st) then Throw "Message not found"
  else if Nat.eqb (String.length reaction) 0 then Throw "Reaction required"
  else
    let message := messages st messageId in
    if negb ((msg_from message =? sender) || (msg_to message =? sender)) then
      Throw "Not authorized to react"
    else
      Ok {| reaction_messageId := messageId; reaction_reactor := sender;
            reaction_text := reaction; reaction_timestamp := timestamp blk |}.

Definition getConversationHash (sender otherUser : address) : bytes32 :=
  generateConversationHash sender otherUser.

End Contract.

Definition getConversationMessages (st : Storage) (conversationHash : bytes32) : list Z :=
  conversationMessages st conversationHash.

Definition getUserMessages (st : Storage) (user : address) : list Z :=
  userMessages st user.

Definition getMessage (st : Storage) (messageId : Z) : result MessageData :=
  if negb (messageId <? messageCounter st) then Throw "Message not found"
  else Ok (messages st messageId).

Definition isExpired (st : Storage) (blk : Block) (messageId : Z) : result bool :=
  if negb (messageId <? messageCounter st) then Throw "Message not found"
  else
    let message := messages st messageId in
    if msg_expiry message =? 0 then Ok false
    else Ok (timestamp blk >? msg_expiry message).

(** The second component is named [totalUsers] and is [messageCounter]. *)
Definition getStats (st : Storage) : Z * Z :=
  (totalMessages (stats st), messageCounter st).

(** [array[index]] on a memory array: out of bounds panics. *)
Definition array_get (array : list Z) (index : nat) : result Z :=
  match nth_error array index with
  | Some v => Ok v
  | None => Throw "panic: array index out of bounds"
  end.

(** The loop of [getRecentMessages], from round [i], with [rounds] rounds
    left; the index [totalMessages - 1 - i] is computed in checked
    arithmetic. *)
Fixpoint copy_recent (allMessages : list Z) (totalMessages : nat) (rounds i : nat)
  (recentIds : list Z) : result (list Z) :=
  match rounds with
  | O => Ok recentIds
  | S rounds' =>
      if Nat.ltb totalMessages 1 then Throw "panic: arithmetic underflow"
      else if Nat.ltb (totalMessages - 1) i then Throw "panic: arithmetic underflow"
      else
        value <- array_get allMessages (totalMessages - 1 - i) ;;
        recentIds' <- LedgerHistory.array_set recentIds i value ;;
        copy_recent allMessages totalMessages rounds' (S i) recentIds'
  end.

Definition getRecentMessages (st : Storage) (user : address) : result (list Z) :=
  let allMessages := userMessages st user in
  let totalMessages := List.length allMessages in
  if Nat.eqb totalMessages 0 then Ok []
  else
    let returnCount := if Nat.ltb 50 totalMessages then 50%nat else totalMessages in
    copy_recent allMessages totalMessages returnCount 0 (repeat 0 returnCount).

(** *** Histories *)

Section Histories.
Context `{Keccak}.

(** One accepted [sendMessage] transaction, whose [expiry] is a [uint256];
    [addReaction] and the views leave storage unchanged. *)
Inductive step : Storage -> Storage -> Prop :=
| step_send st blk sender to cid expiry isMedia messageType id st' ev :
    0 <= expiry ->
    sendMessage st blk sender to cid expiry isMedia messageType = Ok (id, st', ev) ->
    step st st'.

Inductive evolves : Storage -> Storage -> Prop :=
| evolves_refl st : evolves st st
| evolves_step st st' st'' : evolves st st' -> step st' st'' -> evolves st st''.

Definition reachable (st : Storage) : Prop := evolves deployment st.

(** The identifiers [0 .. n-1] that satisfy [keep], ascending. *)
Definition ids_where (keep : Z -> bool) (n : Z) : list Z :=
  filter keep (LedgerHistory.count_from 0 (Z.to_nat n)).

(** What every stored message satisfies. *)
Definition message_wf (m : MessageData) : Prop :=
  msg_to m <> 0 /\ msg_to m <> msg_from m /\
  msg_cid m <> EmptyString /\ msg_messageType m <> EmptyString /\
  msg_conversationHash m = generateConversationHash (msg_from m) (msg_to m) /\
  0 <= msg_expiry m /\
  (msg_expiry m = 0 \/
   msg_timestamp m < msg_expiry m <= msg_timestamp m + YEAR).

Definition storage_wf (st : Storage) : Prop :=
  0 <= messageCounter st /\
  totalMessages (stats st) = messageCounter st /\
  (forall id, 0 <= id < messageCounter st -> message_wf (messages st id)) /\
  (forall user,
     userMessages st user
     = ids_where (fun id => (msg_from (messages st id) =? user)
                            || (msg_to (messages st id) =? user))
         (messageCounter st)) /\
  (forall h,
     conversationMessages st h
     = ids_where (fun id => msg_conversationHash (messages st id) =? h)
         (messageCounter st)).

End Histories.
End ChatContract.

(** ** services/privacyManager.js *)

Module PrivacyManager.

Definition STANDARD : string := "standard".
Definition SESSION : string := "session".

Definition determinePrivacyMode (isSession : bool) : string :=
  if isSession then SESSION else STANDARD.

(** [isMessageExpired(timestamp, expiry)]; [now] is
    [Math.floor(Date.now() / 1000)]. *)
Definition isMessageExpired (now timestamp expiry : Z) : bool :=
  if expiry =? 0 then false else now >? expiry.

End PrivacyManager.

(** ** services/sessionManager.js: sessions

    The manager talks to the ledger through a provider.  Each awaited
    provider call either reaches the ledger or rejects; which calls are
    answered during one invocation is part of its environment, next to the
    local clock and the block that views and the transaction execute in. *)

Module SessionManager.
Import Ledger.

Inductive RpcCall : Type :=
| CallGetSessionBetween
| CallCreatedAt
| CallEstimateGas
| CallSendTransaction.

Record Env : Type := {
  (** [Math.floor(Date.now() / 1000)] *)
  now : Z;
  block : Block;
  answered : RpcCall -> bool;
}.

Definition rpc {A : Type} (env : Env) (call : RpcCall) (r : result A) : result A :=
  if answered env call then r else Throw "could not reach the network".

(** An entry of the [activeSessions] map. *)
Record CachedSession : Type := {
  cached_contractAddress : address;
  cached_participant1 : address;
  cached_participant2 : address;
  cached_created : bool;
}.

(** What the manager acts on: the chain and its own [activeSessions] map,
    keyed by the participant. *)
Record World : Type := {
  chain : Chain;
  cache : list (address * CachedSession);
}.

(** [Map.prototype.set]. *)
Fixpoint map_set (m : list (address * CachedSession)) (k : address) (v : CachedSession)
  : list (address * CachedSession) :=
  match m with
  | [] => [(k, v)]
  | (k', v') :: r => if k' =? k then (k, v) :: r else (k', v') :: map_set r k v
  end.

(** [Map.prototype.get]. *)
Fixpoint map_get (m : list (address * CachedSession)) (k : address)
  : option CachedSession :=
  match m with
  | [] => None
  | (k', v) :: r => if k' =? k then Some v else map_get r k
  end.

Record SessionInfo : Type := {
  contractAddress : address;
  existed : bool;
}.

Definition ONE_HOUR : Z := 60 * 60.

Section Manager.
Context `{Evm}.
(** [this.wallet.address] *)
Variable wallet : address.

Definition createSession (env : Env) (w : World) (participant : address)
  : result SessionInfo * World :=
  (* estimateGas simulates the call on the current state *)
  match rpc env CallEstimateGas (createChatSession (chain w) (block env) wallet participant) with
  | Throw e => (Throw e, w)
  | Ok _ =>
      (* the transaction is sent and mined: tx.wait() *)
      match rpc env CallSendTransaction
              (createChatSession (chain w) (block env) wallet participant) with
      | Throw e => (Throw e, w)
      | Ok (_, _, chain') =>
          let w1 := {| chain := chain'; cache := cache w |} in
          match rpc env CallGetSessionBetween
                  (getSessionBetween chain' (block env) wallet participant) with
          | Throw e => (Throw e, w1)
          | Ok (_, contractAddr, _) =>
              if contractAddr =? ZeroAddress then
                (Throw "Session contract not found after creation", w1)
              else
                (Ok {| contractAddress := contractAddr; existed := false |},
                 {| chain := chain';
                    cache := map_set (cache w) participant
                               {| cached_contractAddress := contractAddr;
                                  cached_participant1 := wallet;
                                  cached_participant2 := participant;
                                  cached_created := true |} |})
          end
      end
  end.

(** The [return] for an existing session, after the age check. *)
Definition reuse (w : World) (normalizedParticipant contractAddr : address)
  : result SessionInfo * World :=
  (Ok {| contractAddress := contractAddr; existed := true |},
   {| chain := chain w;
      cache := map_set (cache w) normalizedParticipant
                 {| cached_contractAddress := contractAddr;
                    cached_participant1 := wallet;
                    cached_participant2 := normalizedParticipant;
                    cached_created := false |} |}).

Definition getOrCreateSession (env : Env) (w : World) (participant : address)
  : result SessionInfo * World :=
  let normalizedParticipant := participant in
  match rpc env CallGetSessionBetween
          (getSessionBetween (chain w) (block env) wallet normalizedParticipant) with
  | Throw e => (Throw e, w)
  | Ok (_, contractAddr, _) =>
      if negb (contractAddr =? ZeroAddress) then
        (* inner try *)
        match rpc env CallCreatedAt
                (s <- session_at (chain w) contractAddr ;; Ok (createdAt s)) with
        | Ok sessionCreatedAt =>
            let sessionAge := now env - sessionCreatedAt in
            if sessionAge >? ONE_HOUR then
              (* [return await this.createSession(...)] inside the [try]:
                 a rejection is caught by the inner [catch] as well *)
              match createSession env w normalizedParticipant with
              | (Ok info, w') => (Ok info, w')
              | (Throw _, w') => reuse w' normalizedParticipant contractAddr
              end
            else reuse w normalizedParticipant contractAddr
        | Throw _ => reuse w normalizedParticipant contractAddr
        end
      else createSession env w normalizedParticipant
  end.

(** The channel the ledger records for the pair (wallet, peer). *)
Definition current_channel (c : Chain) (peer : address) : address :=
  sessionContracts (factory c) (participantPairToSession (factory c) wallet peer).

(** [channel] is the pair's current channel, deployed, created at [created]. *)
Definition is_current (c : Chain) (peer channel : address) (created : Z) : Prop :=
  channel <> ZeroAddress /\
  current_channel c peer = channel /\
  exists s, deployed c channel = Some s /\ createdAt s = created.

Definition all_answered (env : Env) : Prop := forall call, answered env call = true.

(** The conditions under which the factory accepts a new session of the
    wallet with [peer] in block [blk], when the pair's current channel is
    the session [old]. *)
Definition accepts_renewal (c : Chain) (blk : Block) (peer : address) (old : ChatSession)
  : Prop :=
  let f := factory c in
  let id := session_id wallet peer (timestamp blk) (prevrandao blk) (totalSessions f) in
  let target := create2_address id wallet peer in
  wallet <> 0 /\ peer <> 0 /\ peer <> wallet /\
  Z.of_nat (List.length (userSessions f wallet)) < MAX_SESSIONS_PER_USER /\
  sessionContracts f id = 0 /\
  (sessionExpiry old <= timestamp blk \/ sessionActive old = false) /\
  (sessionActive old = true -> 1 <= activeSessions f) /\
  activeSessions f + 1 <= UINT256_MAX /\
  totalSessions f + 1 <= UINT256_MAX /\
  timestamp blk + SESSION_DURATION <= UINT256_MAX /\
  deployed c target = None /\ target <> 0.

End Manager.
End SessionManager.

(** ** Messages, as both readers build them *)

Module Conversation.

(** The object pushed by [getConversationMessages] (source ['main']) and by
    the session scan (source ['session']); properties that only one of them
    sets are optional. *)
Record Message : Type := {
  messageId : string;
  from : string;
  to : option string;
  cid : string;
  timestamp : Z;
  expiry : Z;
  isMedia : bool;
  messageType : string;
  source : string;
  sessionAddress : option string;
  blockNumber : option Z;
  transactionHash : option string;
  conversationHash : option string;
}.

(** [n.toString()] for an integer. *)
Definition Z_toString (n : Z) : string := NilZero.string_of_int (Z.to_int n).

(** [Array.prototype.sort(compare)]: the sort is stable, and for a
    comparator that orders by a key the result of a stable sort is unique;
    it is written here as insertion from the right. *)
Section ArraySort.
Context {A : Type}.
Variable compare : A -> A -> Z.

Fixpoint insert_sorted (x : A) (l : list A) : list A :=
  match l with
  | [] => [x]
  | y :: r => if compare x y <=? 0 then x :: y :: r else y :: insert_sorted x r
  end.

Definition Array_sort (l : list A) : list A := fold_right insert_sorted [] l.

End ArraySort.

(** [(a, b) => a.timestamp - b.timestamp] *)
Definition by_timestamp (a b : Message) : Z := timestamp a - timestamp b.

(** Ascending order of creation time, and the messages of one creation
    time. *)
Definition earlier (a b : Message) : Prop := timestamp a <= timestamp b.
Definition at_timestamp (t : Z) (m : Message) : bool := timestamp m =? t.

(** [for (let i = start; i <= stop; i += step) s = body(i, s)], for
    [0 < step]; the recursion is on a bound of the number of rounds. *)
Fixpoint for_loop {S : Type} (rounds : nat) (i stop step : Z) (body : Z -> S -> S) (s : S)
  : S :=
  match rounds with
  | O => s
  | Datatypes.S rounds' =>
      if i <=? stop then for_loop rounds' (i + step) stop step body (body i s) else s
  end.

Definition for_range {S : Type} (start stop step : Z) (body : Z -> S -> S) (s : S) : S :=
  for_loop (Z.to_nat ((stop - start) / step + 1)) start stop step body s.

End Conversation.

(** ** services/sessionManager.js: reading a session's messages *)

Module SessionMessages.
Import Conversation.

(** A [MessageSent] log as the provider returns it. *)
Record EventLog : Type := {
  args_from : string;
  args_cid : string;
  args_timestamp : Z;
  args_expiry : Z;
  args_messageIndex : Z;
  args_isMedia : bool;
  args_messageType : string;
  log_blockNumber : Z;
  log_transactionHash : string;
}.

(** The provider behind [sessionContract]: the current height and the
    [MessageSent] logs of a block range, either of which may reject. *)
Class Provider : Type := {
  getBlockNumber : result Z;
  queryFilter : string -> Z -> Z -> result (list EventLog);
}.

Definition maxBlocksToScan : Z := 10000.
Definition chunkSize : Z := 500.

(** The object pushed for one event. *)
Definition session_message (sessionAddress : string) (event : EventLog) : Message :=
  {| messageId := Z_toString (args_messageIndex event);
     from := args_from event;
     to := None;
     cid := args_cid event;
     timestamp := args_timestamp event;
     expiry := args_expiry event;
     isMedia := args_isMedia event;
     messageType := args_messageType event;
     source := "session";
     Conversation.sessionAddress := Some sessionAddress;
     blockNumber := Some (log_blockNumber event);
     transactionHash := Some (log_transactionHash event);
     conversationHash := None |}.

Definition push_events (sessionAddress : string) (messages : list Message)
  (events : list EventLog) : list Message :=
  (messages ++ map (session_message sessionAddress) events)%list.

Section Scan.
Context `{Provider}.

(** [await sessionContract.queryFilter(filter, smallBlock, smallToBlock)]
    inside the [catch (rangeError)] block.  [filter] is declared with
    [const] inside the [try] block, so it is not in scope in the [catch]
    block and no outer scope binds that name: evaluating the argument throws
    a [ReferenceError] before the provider is called. *)
Definition retry_query (sessionAddress : string) (smallBlock smallToBlock : Z)
  : result (list EventLog) :=
  Throw "filter is not defined".

(** The inner loop over 100-block ranges of a rejected chunk. *)
Definition retry_chunk (sessionAddress : string) (block toBlock : Z)
  (messages : list Message) : list Message :=
  for_range block toBlock 100
    (fun smallBlock messages =>
       let smallToBlock := Z.min (smallBlock + 99) toBlock in
       match retry_query sessionAddress smallBlock smallToBlock with
       | Ok smallEvents => push_events sessionAddress messages smallEvents
       | Throw _ => messages
       end)
    messages.

(** One round of the outer loop. *)
Definition scan_chunk (sessionAddress : string) (currentBlock block : Z)
  (messages : list Message) : list Message :=
  let toBlock := Z.min (block + chunkSize - 1) currentBlock in
  match queryFilter sessionAddress block toBlock with
  | Ok events => push_events sessionAddress messages events
  | Throw message =>
      if includes message "too large" || includes message "range" then
        retry_chunk sessionAddress block toBlock messages
      else messages
  end.

Definition getSessionMessagesWithLimit (sessionAddress : string) (fromBlock : Z)
  : list Message :=
  match getBlockNumber with
  | Throw _ => []
  | Ok currentBlock =>
      let safeStartBlock := Z.max (currentBlock - maxBlocksToScan) fromBlock in
      let messages :=
        for_range safeStartBlock currentBlock chunkSize
          (scan_chunk sessionAddress currentBlock) [] in
      Array_sort by_timestamp messages
  end.

(** The scan that the specification describes: a rejected chunk is queried
    again in 100-block ranges, whose events are collected. *)
Definition retry_chunk_spec (sessionAddress : string) (block toBlock : Z)
  (messages : list Message) : list Message :=
  for_range block toBlock 100
    (fun smallBlock messages =>
       let smallToBlock := Z.min (smallBlock + 99) toBlock in
       match queryFilter sessionAddress smallBlock smallToBlock with
       | Ok smallEvents => push_events sessionAddress messages smallEvents
       | Throw _ => messages
       end)
    messages.

Definition scan_chunk_spec (sessionAddress : string) (currentBlock block : Z)
  (messages : list Message) : list Message :=
  let toBlock := Z.min (block + chunkSize - 1) currentBlock in
  match queryFilter sessionAddress block toBlock with
  | Ok events => push_events sessionAddress messages events
  | Throw message =>
      if includes message "too large" || includes message "range" then
        retry_chunk_spec sessionAddress block toBlock messages
      else messages
  end.

Definition scan_spec (sessionAddress : string) (fromBlock : Z) : list Message :=
  match getBlockNumber with
  | Throw _ => []
  | Ok currentBlock =>
      let safeStartBlock := Z.max (currentBlock - maxBlocksToScan) fromBlock in
      Array_sort by_timestamp
        (for_range safeStartBlock currentBlock chunkSize
           (scan_chunk_spec sessionAddress currentBlock) [])
  end.

End Scan.
End SessionMessages.

(** ** The block window of the session scan *)

Module ScanWindow.
Import Conversation SessionMessages.

(** Whether a log was emitted in a block of the range. *)
Definition in_blocks (fromBlock toBlock : Z) (event : EventLog) : bool :=
  (fromBlock <=? log_blockNumber event) && (log_blockNumber event <=? toBlock).

(** A provider at height [height] that holds the logs [logs] of every
    session and answers the queries that span at most [limit] blocks. *)
Definition archive (height limit : Z) (logs : list EventLog) : Provider :=
  {| getBlockNumber := Ok height;
     queryFilter := fun _ fromBlock toBlock =>
       if toBlock - fromBlock + 1 >? limit then
         Throw "query exceeds max block range: too large"
       else Ok (filter (in_blocks fromBlock toBlock) logs) |}.

End ScanWindow.

(** ** services/blockchain.js: reading the main contract's messages *)

Module MainMessages.
Import Conversation.

(** The tuple that [chatContract.getMessage(id)] returns. *)
Record MessageData : Type := {
  data_from : string;
  data_to : string;
  data_cid : string;
  data_timestamp : Z;
  data_expiry : Z;
  data_isMedia : bool;
  data_messageType : string;
  data_conversationHash : string;
}.

(** The read-only calls on the main contract. *)
Class ChatReader : Type := {
  generateConversationHash : string -> string -> result string;
  getConversationMessageIds : string -> result (list Z);
  getMessage : Z -> result MessageData;
}.

(** The object pushed for one record. *)
Definition main_message (messageId : Z) (messageData : MessageData) : Message :=
  {| messageId := Z_toString messageId;
     from := data_from messageData;
     to := Some (data_to messageData);
     cid := data_cid messageData;
     timestamp := data_timestamp messageData;
     expiry := data_expiry messageData;
     isMedia := data_isMedia messageData;
     messageType := data_messageType messageData;
     source := "main";
     sessionAddress := None;
     blockNumber := None;
     transactionHash := None;
     conversationHash := Some (data_conversationHash messageData) |}.

Section Reader.
Context `{ChatReader}.

(** The loop over the identifiers: a record that cannot be fetched is
    logged and skipped. *)
Fixpoint fetch_messages (messageIds : list Z) (messages : list Message) : list Message :=
  match messageIds with
  | [] => messages
  | messageId :: rest =>
      match getMessage messageId with
      | Ok messageData =>
          fetch_messages rest (messages ++ [main_message messageId messageData])%list
      | Throw _ => fetch_messages rest messages
      end
  end.

Definition getConversationMessages (walletAddress otherAddress : string)
  : result (list Message) :=
  conversationHash <- generateConversationHash walletAddress otherAddress ;;
  messageIds <- getConversationMessageIds conversationHash ;;
  Ok (fetch_messages messageIds []).

End Reader.
End MainMessages.

(** ** The replay command *)

Module Replay.
Import Conversation SessionMessages MainMessages.

(** [factory.getSessionBetween(wallet, participant).contractAddr], as text. *)
Class SessionLookup : Type := {
  lookupSession : string -> string -> result string;
}.

Definition ZeroAddressText : string := "0x0000000000000000000000000000000000000000".

(** What the replay loop prints.  Dates stand for
    [new Date(seconds * 1000).toLocaleString()] of the given seconds. *)
Inductive Line : Type :=
(** [No messages found in this conversation] *)
| NoMessages
(** [[i] [EXPIRED] Message from <date>] *)
| ExpiredHeader (position : nat) (date : Z)
(** [[Content hidden - message has expired]] *)
| ContentHidden
(** [[i] <channel icon> <You|Them> (<date>):] *)
| MessageHeader (position : nat) (sessionIcon : bool) (senderLabel : string) (date : Z)
(** the decrypted content or a sentinel *)
| Content (text : string)
(** [Expires: <date> (<h>h <m>m left)] *)
| Expires (date hours minutes : Z).

(** The state of the replay loop: the printed lines, the calls of
    [decryptFromSender] as (envelope, sender) pairs, and the counters. *)
Record Output : Type := {
  lines : list Line;
  decryptions : list (string * string);
  displayedCount : nat;
  failedCount : nat;
}.

Definition start : Output :=
  {| lines := []; decryptions := []; displayedCount := 0; failedCount := 0 |}.

(** [message.expiry && message.expiry > 0 && currentTime > message.expiry] *)
Definition isExpired (currentTime : Z) (message : Message) : bool :=
  negb (expiry message =? 0) && (expiry message >? 0) && (currentTime >? expiry message).

Section Command.
Context `{Secp256k1} `{Sha256} `{Sodium} `{Json}.
Context `{Provider} `{ChatReader} `{SessionLookup}.
(** [walletInfo.address] and [walletService.getWallet().privateKey] *)
Variable walletAddress privateKey : string.

(** [sessionManager.getMessages(participant)] with the default
    [fromBlock = 0]; [cache] is the manager's [activeSessions] map, from
    participant to contract address. *)
Definition getMessages (cache : list (string * string)) (participant : string)
  : result (list Message) :=
  let normalizedParticipant := toLowerCase participant in
  match assoc normalizedParticipant cache with
  | None =>
      existing <- lookupSession walletAddress normalizedParticipant ;;
      if String.eqb existing ZeroAddressText then Ok []
      else Ok (getSessionMessagesWithLimit existing 0)
  | Some contractAddress => Ok (getSessionMessagesWithLimit contractAddress 0)
  end.

(** [[...standardMessages, ...sessionMessages]], then the sort. *)
Definition merge (standardMessages sessionMessages : list Message) : list Message :=
  Array_sort by_timestamp (standardMessages ++ sessionMessages)%list.

(** Both fetches with their [catch] blocks, and the merge.  The command
    builds a new session manager, whose map is empty. *)
Definition allMessages (replay : string) : list Message :=
  let standardMessages :=
    match getConversationMessages walletAddress replay with
    | Ok messages => messages
    | Throw _ => []
    end in
  let sessionMessages :=
    match getMessages [] replay with
    | Ok messages => messages
    | Throw _ => []
    end in
  merge standardMessages sessionMessages.

(** The body of the loop for the message at [index]. *)
Definition show_message (currentTime : Z) (index : nat) (message : Message) (out : Output)
  : Output :=
  if isExpired currentTime message then
    {| lines := (lines out ++ [ExpiredHeader (index + 1) (timestamp message); ContentHidden])%list;
       decryptions := decryptions out;
       displayedCount := displayedCount out;
       failedCount := failedCount out |}
  else
    let decryptedContent :=
      EncryptionService.decryptFromSender (cid message) privateKey (from message) in
    let isFromMe := String.eqb (toLowerCase (from message)) (toLowerCase walletAddress) in
    let senderLabel := if isFromMe then "You" else "Them" in
    let sourceIcon := String.eqb (source message) "session" in
    let expiryLines :=
      if expiry message >? 0 then
        let timeLeft := expiry message - currentTime in
        if timeLeft >? 0 then
          [Expires (expiry message) (timeLeft / 3600) ((timeLeft mod 3600) / 60)]
        else []
      else [] in
    {| lines := (lines out
                 ++ [MessageHeader (index + 1) sourceIcon senderLabel (timestamp message);
                     Content decryptedContent]
                 ++ expiryLines)%list;
       decryptions := (decryptions out ++ [(cid message, from message)])%list;
       displayedCount := displayedCount out + 1;
       failedCount := failedCount out |}.

(** [for (const [index, message] of allMessages.entries())] *)
Fixpoint show_from (currentTime : Z) (index : nat) (messages : list Message) (out : Output)
  : Output :=
  match messages with
  | [] => out
  | message :: rest =>
      show_from currentTime (index + 1) rest (show_message currentTime index message out)
  end.

Definition handleReplayCommand (replay : string) (currentTime : Z) : Output :=
  match allMessages replay with
  | [] => {| lines := [NoMessages]; decryptions := [];
             displayedCount := 0; failedCount := 0 |}
  | messages => show_from currentTime 0 messages start
  end.

End Command.
End Replay.

(** ** What a listing shows, line by line *)

Module ReplayListing.
Import Conversation MainMessages Replay.

(** The position that a header line prints, [[i]]. *)
Definition header_position (line : Line) : list nat :=
  match line with
  | ExpiredHeader position _ => [position]
  | MessageHeader position _ _ _ => [position]
  | _ => []
  end.

(** The positions printed by a listing, in order. *)
Definition positions (printed : list Line) : list nat := flat_map header_position printed.

(** Whether the replay loop takes a message for current. *)
Definition current (currentTime : Z) (message : Message) : bool :=
  negb (isExpired currentTime message).

(** What one identifier contributes to the list of
    [getConversationMessages]. *)
Definition fetched `{ChatReader} (messageId : Z) : list Message :=
  match getMessage messageId with
  | Ok messageData => [main_message messageId messageData]
  | Throw _ => []
  end.

End ReplayListing.

(** ** services/blockchain.js: sending

    The provider's calls are awaited one after the other; the order in which
    the service makes them is recorded next to the result. *)

Module BlockchainService.
Import Conversation.

(** A thrown value as the handlers inspect it: [error.code] and
    [error.message]. *)
Record JsError : Type := {
  code : option string;
  message : string;
}.

(** [new Error(message)] *)
Definition Error (message : string) : JsError := {| code := None; message := message |}.

Inductive outcome (A : Type) : Type :=
| Done (a : A)
| Failed (e : JsError).
Arguments Done {A} a.
Arguments Failed {A} e.

(** The two transactions that the service sends. *)
Inductive Call : Type :=
(** [sessionContract.sendMessage(cid, expiry, isMedia, messageType)] *)
| SessionSendMessage (sessionAddress cid : string) (expiry : Z) (isMedia : bool)
    (messageType : string)
(** [chatContract.sendMessage(to, cid, expiry, isMedia, messageType)] *)
| ChatSendMessage (to cid : string) (expiry : Z) (isMedia : bool) (messageType : string).

(** A log of a receipt as [interface.parseLog] reads it. *)
Record ParsedLog : Type := {
  parsed_name : string;
  parsed_messageId : Z;
}.

Record TransactionReceipt : Type := {
  receipt_hash : string;
  receipt_gasUsed : Z;
  receipt_status : Z;
  receipt_blockNumber : Z;
  (** [None] for a log that [parseLog] does not read *)
  receipt_logs : list (option ParsedLog);
}.

Class Rpc : Type := {
  (** [contract.sendMessage.estimateGas(...)]: rejects when the call would
      revert *)
  estimateGas : Call -> outcome Z;
  (** [provider.getBalance(wallet.address)] *)
  getBalance : outcome Z;
  (** [provider.getFeeData()], its [gasPrice], which may be [null] *)
  getFeeData : outcome (option Z);
  (** the call with [{ gasLimit }]; returns [tx.hash] *)
  sendTransaction : Call -> Z -> outcome string;
  (** [tx.wait()] *)
  wait : string -> outcome TransactionReceipt;
  (** [ethers.formatEther] *)
  formatEther : Z -> string;
}.

Inductive Interaction : Type :=
| EstimateGas (call : Call)
| GetBalance
| GetFeeData
| SendTransaction (call : Call) (gasLimit : Z)
| Wait (hash : string)
| DisplayFundingInstructions (requiredGas : Z) (currentBalance : string).

(** A computation with the interactions it made. *)
Definition Run (A : Type) : Type := outcome A * list Interaction.

Definition ret {A : Type} (a : A) : Run A := (Done a, []).
Definition throw {A : Type} (e : JsError) : Run A := (Failed e, []).
Definition perform {A : Type} (i : Interaction) (answer : outcome A) : Run A :=
  (answer, [i]).

Definition and_then {A B : Type} (r : Run A) (k : A -> Run B) : Run B :=
  match r with
  | (Done a, done) => let (o, more) := k a in (o, (done ++ more)%list)
  | (Failed e, done) => (Failed e, done)
  end.

(** [try { r } catch (error) { handler(error) }] *)
Definition try_catch {A : Type} (r : Run A) (handler : JsError -> Run A) : Run A :=
  match r with
  | (Done a, done) => (Done a, done)
  | (Failed e, done) => let (o, more) := handler e in (o, (done ++ more)%list)
  end.

Notation "x <~ r ;; k" := (and_then r (fun x => k))
  (at level 61, r at next level, right associativity).

(** [estimatedGas * 120n / 100n] on BigInt. *)
Definition with_margin (estimatedGas : Z) : Z := Z.quot (estimatedGas * 120) 100.

Record SendReceipt : Type := {
  transactionHash : string;
  gasUsed : string;
  sent_messageId : option string;
  sent_sessionAddress : option string;
  sent_blockNumber : Z;
}.

Section Service.
Context `{Rpc}.

Definition checkSufficientBalance (estimatedGas : Z) : Run bool :=
  balance <~ perform GetBalance getBalance ;;
  let balanceEth := formatEther balance in
  let requiredGas := with_margin estimatedGas in
  gasPrice <~ perform GetFeeData getFeeData ;;
  totalCost <~
    match gasPrice with
    | Some price => ret (requiredGas * price)
    | None => throw (Error "Cannot mix BigInt and other types, use explicit conversions")
    end ;;
  if balance <? totalCost then
    _ <~ perform (DisplayFundingInstructions requiredGas balanceEth) (Done tt) ;;
    throw (Error ("Insufficient funds. Need " ++ formatEther totalCost ++ " ETH, have "
                  ++ balanceEth ++ " ETH"))
  else ret true.

(** The [catch] block of both send functions; [shownGas] is the gas figure
    that it passes to the funding instructions. *)
Definition send_failed {A : Type} (shownGas : Z) (error : JsError) : Run A :=
  let insufficient :=
    match code error with
    | Some c => String.eqb c "INSUFFICIENT_FUNDS"
    | None => false
    end || includes (message error) "insufficient funds" in
  if insufficient then
    balance <~ perform GetBalance getBalance ;;
    _ <~ perform (DisplayFundingInstructions shownGas (formatEther balance)) (Done tt) ;;
    throw error
  else throw error.

(** [receipt.logs.find(...)] for the [MessageSent] log, then its
    [messageId.toString()]. *)
Definition find_messageId (logs : list (option ParsedLog)) : option string :=
  match find (fun log =>
                match log with
                | Some parsed => String.eqb (parsed_name parsed) "MessageSent"
                | None => false
                end) logs with
  | Some (Some parsed) => Some (Z_toString (parsed_messageId parsed))
  | _ => None
  end.

Definition sendMessageWithMedia (to encryptedContent : string) (expiry : Z)
  (messageType : string) : Run SendReceipt :=
  let call := ChatSendMessage to encryptedContent expiry false messageType in
  try_catch
    (gasEstimate <~ perform (EstimateGas call) (estimateGas call) ;;
     _ <~ checkSufficientBalance gasEstimate ;;
     tx <~ perform (SendTransaction call (with_margin gasEstimate))
             (sendTransaction call (with_margin gasEstimate)) ;;
     receipt <~ perform (Wait tx) (wait tx) ;;
     if receipt_status receipt =? 0 then throw (Error "Transaction failed")
     else
       ret {| transactionHash := receipt_hash receipt;
              gasUsed := Z_toString (receipt_gasUsed receipt);
              sent_messageId := find_messageId (receipt_logs receipt);
              sent_sessionAddress := None;
              sent_blockNumber := receipt_blockNumber receipt |})
    (send_failed 400000).

Definition sendSessionMessage (sessionAddress encryptedContent : string) (expiry : Z)
  (isMedia : bool) (messageType : string) : Run SendReceipt :=
  let call := SessionSendMessage sessionAddress encryptedContent expiry isMedia messageType in
  try_catch
    (gasEstimate <~ perform (EstimateGas call) (estimateGas call) ;;
     _ <~ checkSufficientBalance gasEstimate ;;
     tx <~ perform (SendTransaction call (with_margin gasEstimate))
             (sendTransaction call (with_margin gasEstimate)) ;;
     receipt <~ perform (Wait tx) (wait tx) ;;
     if receipt_status receipt =? 0 then throw (Error "Session transaction failed")
     else
       ret {| transactionHash := receipt_hash receipt;
              gasUsed := Z_toString (receipt_gasUsed receipt);
              sent_messageId := None;
              sent_sessionAddress := Some sessionAddress;
              sent_blockNumber := receipt_blockNumber receipt |})
    (send_failed 50000).

End Service.
End BlockchainService.

(** ** utils/logger.js *)

Module Logger.

Definition logLevels : list (string * Z) :=
  [("debug", 0); ("info", 1); ("warn", 2); ("error", 3)].

(** [this.logLevels[name]] as an operand of [>=]: the number of an own
    property; any other name gives [undefined] or an inherited function or
    object, which convert to [NaN]. *)
Definition level_number (name : string) : option Z := assoc name logLevels.

(** [shouldLog(level)]: a comparison with [NaN] is false. *)
Definition shouldLog (logLevel level : string) : bool :=
  match level_number level, level_number logLevel with
  | Some number, Some threshold => number >=? threshold
  | _, _ => false
  end.

(** [this.logLevels.hasOwnProperty(level)] *)
Definition hasOwnLevel (level : string) : bool :=
  match level_number level with
  | Some _ => true
  | None => false
  end.

(** The logger: its level and the entries it wrote, as (level, message). *)
Record State : Type := {
  logLevel : string;
  written : list (string * string);
}.

(** [new Logger(logLevel)] *)
Definition constructor (logLevel : string) : State :=
  {| logLevel := logLevel; written := [] |}.

(** The body shared by [debug], [info], [warn] and [error]. *)
Definition log (level message : string) (st : State) : State :=
  if negb (shouldLog (logLevel st) level) then st
  else {| logLevel := logLevel st; written := (written st ++ [(level, message)])%list |}.

Definition debug : string -> State -> State := log "debug".
Definition info : string -> State -> State := log "info".
Definition warn : string -> State -> State := log "warn".
Definition error : string -> State -> State := log "error".

Definition setLogLevel (level : string) (st : State) : State :=
  if hasOwnLevel level then
    info ("Log level changed to " ++ level)
      {| logLevel := level; written := written st |}
  else
    warn ("Invalid log level: " ++ level ++ ". Available: debug, info, warn, error") st.

Definition getLogLevel (st : State) : string := logLevel st.

Inductive Call : Type :=
| CallDebug (message : string)
| CallInfo (message : string)
| CallWarn (message : string)
| CallError (message : string)
| CallSetLogLevel (level : string).

Definition call (c : Call) (st : State) : State :=
  match c with
  | CallDebug message => debug message st
  | CallInfo message => info message st
  | CallWarn message => warn message st
  | CallError message => error message st
  | CallSetLogLevel level => setLogLevel level st
  end.

(** The logger after a sequence of calls. *)
Definition after (calls : list Call) (st : State) : State :=
  fold_left (fun st c => call c st) calls st.

(** Whether a call sets the level to one of the four. *)
Definition sets_level (c : Call) : bool :=
  match c with
  | CallSetLogLevel level => hasOwnLevel level
  | _ => false
  end.

End Logger.

(** ** The command line and the send command *)

Module Commands.

(** The parsed arguments that the dispatch looks at. *)
Record Argv : Type := {
  arg_to : option string;
  arg_message : option string;
  arg_session : bool;
  arg_expiry : Z;
  arg_replay : option string;
  arg_list_wallets : bool;
  arg_delete_wallet : option string;
}.

(** Truthiness of an optional string argument. *)
Definition given (a : option string) : bool :=
  match a with
  | Some s => negb (String.eqb s EmptyString)
  | None => false
  end.

Definition count_true (l : list bool) : nat := List.length (filter (fun b => b) l).

(** The [.check] callback of the argument parser. *)
Definition check (argv : Argv) : result unit :=
  let hasMessageCommand := given (arg_to argv) && given (arg_message argv) in
  let hasReplayCommand := given (arg_replay argv) in
  let hasWalletCommand := arg_list_wallets argv || given (arg_delete_wallet argv) in
  let commandCount := count_true [hasMessageCommand; hasReplayCommand; hasWalletCommand] in
  if Nat.eqb commandCount 0 then
    Throw "Please specify a command. Use --help for available options."
  else if Nat.ltb 1 commandCount then
    Throw "Please specify only one command at a time."
  else if hasMessageCommand then
    if negb (given (arg_message argv)) then
      Throw "--message is required when using --to"
    else if arg_expiry argv <? 0 then
      Throw "Expiry time must be 0 or greater (seconds)"
    else Ok tt
  else Ok tt.

Inductive Handler : Type :=
| HandleSend
| HandleReplay
| HandleListWallets
| HandleDeleteWallet
| NoHandler.

(** The dispatch of [main]. *)
Definition main (argv : Argv) : Handler :=
  if given (arg_to argv) && given (arg_message argv) then HandleSend
  else if given (arg_replay argv) then HandleReplay
  else if arg_list_wallets argv then HandleListWallets
  else if given (arg_delete_wallet argv) then HandleDeleteWallet
  else NoHandler.

(** What [sendCommand] does to the outside, in order. *)
Inductive Interaction : Type :=
| WalletConnect
| Encryption (message recipient : string)
| IpfsUpload (content : string)
| LedgerSessionSend (recipient cid : string) (expiry : Z)
| LedgerSend (recipient cid : string) (expiry : Z).

Record Receipt : Type := {
  receipt_transactionHash : string;
  receipt_messageId : option string;
}.

Record SendResult : Type := {
  success : bool;
  sent_transactionHash : string;
  sent_messageId : option string;
  recipient : string;
  mode : string;
}.

(** The collaborators of [sendCommand]. *)
Class SendServices : Type := {
  connect : result unit;
  servicePrivateKey : string;
  uploadEncryptedContent : string -> result string;
  sendSessionMessage : string -> string -> Z -> result Receipt;
  sendMessage : string -> string -> bool -> Z -> result Receipt;
}.

Section Send.
Context `{Secp256k1} `{Sha256} `{Sodium} `{Json} `{SendServices}.

(** [sendCommand(options, blockchainService)]; the second component lists
    the interactions performed before it returned or threw.  [nonce] is the
    value drawn inside [encryptForRecipient]. *)
Definition sendCommand (to message : option string) (expiry : Z) (session : bool)
  (nonce : list byte) : result SendResult * list Interaction :=
  if negb (given to) || negb (given message) then
    (Throw "Recipient address and message are required", [])
  else
    let to' := match to with Some s => s | None => EmptyString end in
    let message' := match message with Some s => s | None => EmptyString end in
    match connect with
    | Throw e => (Throw e, [WalletConnect])
    | Ok _ =>
        match EncryptionService.encryptForRecipient message' servicePrivateKey to' nonce with
        | Throw e => (Throw e, [WalletConnect; Encryption message' to'])
        | Ok encryptedMessage =>
            match uploadEncryptedContent encryptedMessage with
            | Throw e =>
                (Throw e, [WalletConnect; Encryption message' to'; IpfsUpload encryptedMessage])
            | Ok cid =>
                let sent :=
                  if session then sendSessionMessage to' cid expiry
                  else sendMessage to' cid false expiry in
                let trace :=
                  [WalletConnect; Encryption message' to'; IpfsUpload encryptedMessage;
                   if session then LedgerSessionSend to' cid expiry
                   else LedgerSend to' cid expiry] in
                match sent with
                | Throw e => (Throw e, trace)
                | Ok result =>
                    (Ok {| success := true;
                           sent_transactionHash := receipt_transactionHash result;
                           sent_messageId := receipt_messageId result;
                           recipient := to';
                           mode := if session then "session" else "standard" |},
                     trace)
                end
            end
        end
    end.

End Send.
End Commands.

(** ** A model of the library interfaces

    The additive group of integers modulo the group order, a transparent
    sealing scheme and a printer and reader of flat JSON objects.  They
    show that the law classes above are consistent and let the embedded
    functions run on concrete inputs. *)

Module Model.

(** Big-endian rendering of [z] on [len] bytes. *)
Fixpoint Z_to_be (len : nat) (z : Z) : list byte :=
  match len with
  | O => []
  | S n => (Z_to_be n (z / 256) ++ [byte_of_N (Z.to_N (z mod 256))])%list
  end.

Definition zeros (n : nat) : list byte := repeat x00 n.

#[export] Instance additive_group : Secp256k1 := {|
  point := Z;
  mulG := fun d => d mod curve_order;
  mul := fun d P => (d * P) mod curve_order;
  encode_point := fun P => (x04 :: Z_to_be 32 P ++ zeros 32)%list;
  decode_point := fun l =>
    match l with
    | b :: r =>
        if Byte.eqb b x04 && Nat.eqb (List.length r) 64
        then Some (be_to_Z (firstn 32 r)) else None
    | [] => None
    end;
  x_coord := fun P => Z_to_be 32 P;
|}.

#[export] Instance padding_hash : Sha256 := {|
  sha256 := fun x => firstn 32 (x ++ zeros 32)%list;
|}.

Fixpoint bytes_eqb (a b : list byte) : bool :=
  match a, b with
  | [], [] => true
  | x :: a', y :: b' => Byte.eqb x y && bytes_eqb a' b'
  | _, _ => false
  end.

#[export] Instance transparent_sodium : Sodium := {|
  from_string := list_byte_of_string;
  to_string := fun b => Ok (string_of_list_byte b);
  to_base64 := hexlify;
  from_base64 := fun s =>
    if all_hex s && Nat.even (String.length s) then Ok (Buffer_from_hex s)
    else Throw "invalid input";
  aead_encrypt := fun m nonce key =>
    if Nat.eqb (List.length nonce) NPUBBYTES && Nat.eqb (List.length key) KEYBYTES
    then Ok (key ++ m)%list else Throw "invalid nonce or key length";
  aead_decrypt := fun c nonce key =>
    if Nat.eqb (List.length nonce) NPUBBYTES && Nat.eqb (List.length key) KEYBYTES
       && bytes_eqb (firstn KEYBYTES c) key
    then Ok (skipn KEYBYTES c)
    else Throw "ciphertext cannot be decrypted using that key";
|}.

Definition dquote : ascii := "034"%char.
Definition backslash : ascii := "092"%char.

(** A string literal: quotes and backslashes are escaped. *)
Fixpoint escape (s : string) : string :=
  match s with
  | EmptyString => EmptyString
  | String c r =>
      if Ascii.eqb c dquote || Ascii.eqb c backslash
      then String backslash (String c (escape r))
      else String c (escape r)
  end.

Definition quote (s : string) : string :=
  String dquote (escape s ++ String dquote EmptyString).

Definition print_value (v : jsval) : string :=
  match v with
  | JString s => quote s
  | JBool true => "true"
  | JBool false => "false"
  | _ => "null"
  end.

Fixpoint print_fields (fields : list (string * jsval)) : string :=
  match fields with
  | [] => "}"
  | [(k, v)] => quote k ++ ":" ++ print_value v ++ "}"
  | (k, v) :: r => quote k ++ ":" ++ print_value v ++ "," ++ print_fields r
  end.

Definition print (v : jsval) : string :=
  match v with
  | JObject fields => String "{" (print_fields fields)
  | _ => print_value v
  end.

(** Reads a string literal after its opening quote; returns the text and
    what follows the closing quote. *)
Fixpoint read_string (s : string) : option (string * string) :=
  match s with
  | EmptyString => None
  | String c r =>
      if Ascii.eqb c dquote then Some (EmptyString, r)
      else if Ascii.eqb c backslash then
        match r with
        | EmptyString => None
        | String d r' =>
            match read_string r' with
            | Some (text, rest) => Some (String d text, rest)
            | None => None
            end
        end
      else
        match read_string r with
        | Some (text, rest) => Some (String c text, rest)
        | None => None
        end
  end.

(** Reads [key:literal] pairs separated by commas up to the closing brace. *)
Fixpoint read_fields (fuel : nat) (s : string) : option (list (string * string)) :=
  match fuel with
  | O => None
  | S fuel' =>
      match s with
      | String q r =>
          if Ascii.eqb q dquote then
            match read_string r with
            | Some (k, String colon (String q' r2)) =>
                if Ascii.eqb colon ":" && Ascii.eqb q' dquote then
                  match read_string r2 with
                  | Some (v, String sep r3) =>
                      if Ascii.eqb sep "}" then
                        match r3 with
                        | EmptyString => Some [(k, v)]
                        | _ => None
                        end
                      else if Ascii.eqb sep "," then
                        match read_fields fuel' r3 with
                        | Some fields => Some ((k, v) :: fields)
                        | None => None
                        end
                      else None
                  | _ => None
                  end
                else None
            | _ => None
            end
          else None
      | EmptyString => None
      end
  end.

Definition read (s : string) : result jsval :=
  match s with
  | String open r =>
      if Ascii.eqb open "{" then
        if String.eqb r "}" then Ok (JObject [])
        else
          match read_fields (String.length r) r with
          | Some fields => Ok (flat_object fields)
          | None => Throw "Unexpected token in JSON"
          end
      else Throw "Unexpected token in JSON"
  | EmptyString => Throw "Unexpected end of JSON input"
  end.

Definition string_field (kv : string * string) : string * jsval :=
  (fst kv, JString (snd kv)).

#[export] Instance flat_json : Json := {|
  JSON_parse := read;
  JSON_stringify := print;
|}.

(** Session identifiers count up and deployment addresses follow them. *)
#[export] Instance counting_evm : Ledger.Evm := {|
  Ledger.session_id := fun _ _ _ _ total => total + 1;
  Ledger.create2_address := fun salt _ _ => 1000 + salt;
|}.

End Model.

(** ** Concrete parties *)

Module Parties.

(** The two identities of the testing-key table; the second key is written
    the way a wallet holds it. *)
Definition address1 : string := "0x4B3462da947df564eA5d7bd23f5515fbEB093d55".
Definition key1 : string :=
  "d02a0bf9cf918bf11ded83e126a3dcb143c85fce4f9d5bf607a90b56633c8aac".
Definition address2 : string := "0xd6ED9d6A26636df02D6A2a51A448cAC55795e016".
Definition key2 : string :=
  "0xe536d3033baab4a34254cc29c5a7a09c78161f54b21fe673cc15cec91a9496f0".

(** A keypair outside the table: the private key 1 and its address. *)
Definition outsider_address : string := "0x7E5F4552091A69125d5DfCb7b8C2659029395Bdf".
Definition outsider_key : string :=
  "0x0000000000000000000000000000000000000000000000000000000000000001".

(** A value of [randombytes_buf(24)]. *)
Definition nonce0 : list byte := repeat x2a 24.

End Parties.

(** ** Concrete session histories *)

Module Scenario.
Import Ledger SessionManager Model.

Definition alice : address := 1.
Definition bob : address := 2.

(** A call at local time [t], mined and viewed in a block of the same
    time, with every provider call answered. *)
Definition at_time (t : Z) : Env :=
  {| now := t;
     block := {| timestamp := t; prevrandao := 7 |};
     answered := fun _ => true |}.

(** The same, with the read of [createdAt] rejected. *)
Definition at_time_unreadable (t : Z) : Env :=
  {| now := t;
     block := {| timestamp := t; prevrandao := 7 |};
     answered := fun call =>
       match call with CallCreatedAt => false | _ => true end |}.

Definition fresh : World := {| chain := genesis; cache := [] |}.

(** Alice opens a session with Bob at time 1000. *)
Definition opened : World := snd (getOrCreateSession alice (at_time 1000) fresh bob).

(** Bob closes that session. *)
Definition closed : World :=
  {| chain := match closeSessionAt (chain opened) 1001 bob with
              | Ok c => c
              | Throw _ => chain opened
              end;
     cache := cache opened |}.

(** Alice then opens sessions with 99 further peers in the same block. *)
Definition crowded : World :=
  fold_left (fun w peer => snd (getOrCreateSession alice (at_time 1000) w peer))
    (map Z.of_nat (seq 3 99)) opened.

End Scenario.

(** ** Concrete ledger contents for the readers *)

Module Listing.
Import Conversation SessionMessages MainMessages Replay Model.

(** Main-contract records and session events, by their creation times. *)
Definition record_at (t : Z) : MessageData :=
  {| data_from := "0x4B3462da947df564eA5d7bd23f5515fbEB093d55";
     data_to := "0xd6ED9d6A26636df02D6A2a51A448cAC55795e016";
     data_cid := "envelope";
     data_timestamp := t;
     data_expiry := 0;
     data_isMedia := false;
     data_messageType := "text";
     data_conversationHash := "0xc0" |}.

Definition event_at (t : Z) : EventLog :=
  {| args_from := "0xd6ED9d6A26636df02D6A2a51A448cAC55795e016";
     args_cid := "envelope";
     args_timestamp := t;
     args_expiry := 0;
     args_messageIndex := t;
     args_isMedia := false;
     args_messageType := "text";
     log_blockNumber := 100 + t;
     log_transactionHash := "0xabc" |}.


(** A provider that rejects queries over more than 300 blocks, at height
    1200, for a session with one message in block 42 and one in block 1100. *)
Definition early_event : EventLog :=
  {| args_from := "0xd6ED9d6A26636df02D6A2a51A448cAC55795e016";
     args_cid := "first envelope";
     args_timestamp := 1700000000;
     args_expiry := 0;
     args_messageIndex := 0;
     args_isMedia := false;
     args_messageType := "text";
     log_blockNumber := 42;
     log_transactionHash := "0x01" |}.

Definition late_event : EventLog :=
  {| args_from := "0x4B3462da947df564eA5d7bd23f5515fbEB093d55";
     args_cid := "second envelope";
     args_timestamp := 1700003000;
     args_expiry := 0;
     args_messageIndex := 1;
     args_isMedia := false;
     args_messageType := "text";
     log_blockNumber := 1100;
     log_transactionHash := "0x02" |}.

Definition in_range (fromBlock toBlock : Z) (e : EventLog) : bool :=
  (fromBlock <=? log_blockNumber e) && (log_blockNumber e <=? toBlock).

#[export] Instance limited_provider : Provider := {|
  getBlockNumber := Ok 1200;
  queryFilter := fun _ fromBlock toBlock =>
    if toBlock - fromBlock + 1 >? 300 then Throw "query exceeds max block range: too large"
    else Ok (filter (in_range fromBlock toBlock) [early_event; late_event]);
|}.

(** The envelope of the text hello from the first to the second identity. *)
Definition sealed_hello : string :=
  match EncryptionService.encryptForRecipient "hello" Parties.key1 Parties.address2
          Parties.nonce0 with
  | Ok env => env
  | Throw _ => EmptyString
  end.

(** Two messages that expired at 900, one of each channel and sender. *)
Definition expired_main : Message :=
  main_message 7
    {| data_from := "0x4B3462da947df564eA5d7bd23f5515fbEB093d55";
       data_to := "0xd6ED9d6A26636df02D6A2a51A448cAC55795e016";
       data_cid := "envelope";
       data_timestamp := 800;
       data_expiry := 900;
       data_isMedia := false;
       data_messageType := "text";
       data_conversationHash := "0xc0" |}.

Definition expired_session : Message :=
  session_message "0x5e55"
    {| args_from := "0xd6ED9d6A26636df02D6A2a51A448cAC55795e016";
       args_cid := "envelope";
       args_timestamp := 800;
       args_expiry := 900;
       args_messageIndex := 7;
       args_isMedia := false;
       args_messageType := "text";
       log_blockNumber := 42;
       log_transactionHash := "0x01" |}.

(** Collaborators of the send command that accept everything. *)
#[export] Instance willing_services : Commands.SendServices := {|
  Commands.connect := Ok tt;
  Commands.servicePrivateKey := Parties.key1;
  Commands.uploadEncryptedContent := fun content => Ok ("QmChainWhisper" ++ content);
  Commands.sendSessionMessage := fun _ _ _ =>
    Ok {| Commands.receipt_transactionHash := "0xaa"; Commands.receipt_messageId := None |};
  Commands.sendMessage := fun _ _ _ _ =>
    Ok {| Commands.receipt_transactionHash := "0xbb";
          Commands.receipt_messageId := Some "0" |};
|}.

End Listing.

(** ** Concrete histories of the session factory *)

Module Timeline.
Import Ledger LedgerHistory Model.

Definition alice : address := Scenario.alice.
Definition bob : address := Scenario.bob.

Definition at_block (t : Z) : Block := {| timestamp := t; prevrandao := 7 |}.

(** The chain after a transaction; a reverted transaction leaves it as it
    was. *)
Definition created (c : Chain) (t : Z) (sender participant : address) : Chain :=
  match createChatSession c (at_block t) sender participant with
  | Ok (_, _, c') => c'
  | Throw _ => c
  end.

Definition posted (c : Chain) (t : Z) (a sender : address) (cid : string) : Chain :=
  match sendMessageAt c (at_block t) a sender cid 0 false "text" with
  | Ok (c', _) => c'
  | Throw _ => c
  end.

Definition closed_by (c : Chain) (a sender : address) : Chain :=
  match closeSessionAt c a sender with
  | Ok c' => c'
  | Throw _ => c
  end.

Definition cleaned (c : Chain) (t : Z) (sessionIds : list bytes32) : Chain :=
  match cleanupExpiredSessions c (at_block t) sessionIds with
  | Ok c' => c'
  | Throw _ => c
  end.

(** The [MessageSent] event of a text message without expiry. *)
Definition text_event (sender : address) (cid : string) (t index : Z) : MessageSent :=
  {| ev_from := sender; ev_cid := cid; ev_timestamp := t; ev_expiry := 0;
     ev_messageIndex := index; ev_isMedia := false; ev_messageType := "text" |}.

(** Alice opens a session with Bob at time 1000 (identifier 1, deployed at
    1001); they exchange two messages; Bob closes the session. *)
Definition opened : Chain := created genesis 1000 alice bob.
Definition greeted : Chain := posted opened 1010 1001 alice "hello".
Definition answered : Chain := posted greeted 1020 1001 bob "hi".
Definition shut : Chain := closed_by answered 1001 bob.

Definition talk : list (address * MessageSent) :=
  [ (1001, text_event alice "hello" 1010 0); (1001, text_event bob "hi" 1020 1) ].

(** Instead, the first session runs out and Alice opens a second one at
    time 5000 (identifier 2, deployed at 1002); the first session is then
    cleaned up. *)
Definition renewed : Chain := created opened 5000 alice bob.
Definition swept : Chain := cleaned renewed 5000 [1].

Definition first_session : ChatSession :=
  {| participant1 := alice; participant2 := bob; messageCount := 0;
     sessionActive := true; createdAt := 1000; lastActivity := 1000;
     sessionExpiry := 4600 |}.

Definition second_session : ChatSession :=
  {| participant1 := alice; participant2 := bob; messageCount := 0;
     sessionActive := true; createdAt := 5000; lastActivity := 5000;
     sessionExpiry := 8600 |}.


(** Alice has opened sessions with 100 peers; Bob then closes his. *)
Definition crowded : Chain := SessionManager.chain Scenario.crowded.
Definition crowded_later : Chain := closed_by crowded 1001 bob.

End Timeline.

(** ** Concrete histories of the main contract *)

Module Mailbox.
Import Ledger ChatContract.

(** Two addresses side by side; distinct ordered pairs of 160-bit addresses
    get distinct values. *)
#[export] Instance packed_pair : Keccak := {|
  pair_hash := fun user1 user2 => user1 * 2 ^ 160 + user2;
|}.

Definition alice : address := Scenario.alice.
Definition bob : address := Scenario.bob.
Definition carol : address := 3.

(** The storage after a [sendMessage] transaction; a reverted transaction
    leaves it as it was. *)
Definition delivered (st : Storage) (t : Z) (sender to : address) (cid : string)
  (expiry : Z) : Storage :=
  match sendMessage st (Timeline.at_block t) sender to cid expiry false "text" with
  | Ok (_, st', _) => st'
  | Throw _ => st
  end.

(** Alice writes to Bob, Bob answers with a message that expires at time
    2000, Alice writes to Carol. *)
Definition first_letter : Storage := delivered deployment 1000 alice bob "hello" 0.
Definition second_letter : Storage := delivered first_letter 1010 bob alice "hi" 2000.
Definition third_letter : Storage := delivered second_letter 1020 alice carol "news" 0.

Definition hello : MessageData :=
  {| msg_from := alice; msg_to := bob; msg_cid := "hello"; msg_timestamp := 1000;
     msg_expiry := 0; msg_isMedia := false; msg_messageType := "text";
     msg_conversationHash := getConversationHash alice bob |}.

Definition hi : MessageData :=
  {| msg_from := bob; msg_to := alice; msg_cid := "hi"; msg_timestamp := 1010;
     msg_expiry := 2000; msg_isMedia := false; msg_messageType := "text";
     msg_conversationHash := getConversationHash alice bob |}.

(** Bob's answer as the reader of the command line fetches it. *)
Definition hi_fetched : Conversation.Message :=
  MainMessages.main_message 1
    {| MainMessages.data_from := Parties.address2;
       MainMessages.data_to := Parties.address1;
       MainMessages.data_cid := "hi";
       MainMessages.data_timestamp := 1010;
       MainMessages.data_expiry := 2000;
       MainMessages.data_isMedia := false;
       MainMessages.data_messageType := "text";
       MainMessages.data_conversationHash := "0xc0" |}.

End Mailbox.

(** ** Concrete providers and command lines *)

Module Desk.
Import Conversation SessionMessages MainMessages ScanWindow BlockchainService Model.

(** A session event by its block and timestamp. *)
Definition entry (blockNumber t : Z) : EventLog :=
  {| args_from := Parties.address2;
     args_cid := "envelope";
     args_timestamp := t;
     args_expiry := 0;
     args_messageIndex := t;
     args_isMedia := false;
     args_messageType := "text";
     log_blockNumber := blockNumber;
     log_transactionHash := "0xabc" |}.

(** One event before the scanned window of height 12000, two at a chunk
    border and one in the last block but one. *)
Definition shelf : list EventLog :=
  [entry 42 10; entry 2499 40; entry 2500 30; entry 11999 50].

Definition shelf_provider : Provider := archive 12000 500 shelf.

(** A reader whose record 1 cannot be fetched. *)
Definition patchy_reader : ChatReader :=
  {| generateConversationHash := fun _ _ => Ok "0xc0";
     getConversationMessageIds := fun _ => Ok [0; 1; 2];
     getMessage := fun messageId =>
       if messageId =? 1 then Throw "Message not found"
       else Ok (Listing.record_at messageId) |}.

Definition mined : TransactionReceipt :=
  {| receipt_hash := "0xaa";
     receipt_gasUsed := 48000;
     receipt_status := 1;
     receipt_blockNumber := 12001;
     receipt_logs := [None; Some {| parsed_name := "MessageSent"; parsed_messageId := 3 |}] |}.

(** A provider for a wallet with the given balance, at gas price 20; the
    estimate of a message to the session [0xc105ed] is rejected. *)
Definition teller (balance : Z) : Rpc :=
  {| estimateGas := fun call =>
       match call with
       | SessionSendMessage sessionAddress _ _ _ _ =>
           if String.eqb sessionAddress "0xc105ed" then
             Failed {| code := Some "CALL_EXCEPTION";
                       message := "execution reverted: Session closed" |}
           else Done 50000
       | ChatSendMessage _ _ _ _ _ => Done 90000
       end;
     getBalance := Done balance;
     getFeeData := Done (Some 20);
     sendTransaction := fun _ _ => Done "0xaa";
     wait := fun _ => Done mined;
     formatEther := Z_toString |}.

(** [--to <address2> --message hello --expiry 60] *)
Definition send_line : Commands.Argv :=
  {| Commands.arg_to := Some Parties.address2;
     Commands.arg_message := Some "hello";
     Commands.arg_session := false;
     Commands.arg_expiry := 60;
     Commands.arg_replay := None;
     Commands.arg_list_wallets := false;
     Commands.arg_delete_wallet := None |}.

(** The second identity's public key, 128 digits, in the first model of
    the curve. *)
Definition peer_public_key : string :=
  match EncryptionService.getPublicKeyFromPrivate Parties.key2 with
  | Ok publicKey => publicKey
  | Throw _ => EmptyString
  end.

End Desk.

(** * Proofs *)

(** ** Hexadecimal text *)

Lemma hex_byte_roundtrip (b : byte) :
  hex_val (hex_digit (Byte.to_N b / 16)) = Some (Byte.to_N b / 16)%N /\
  hex_val (hex_digit (Byte.to_N b mod 16)) = Some (Byte.to_N b mod 16)%N /\
  byte_of_N (16 * (Byte.to_N b / 16) + Byte.to_N b mod 16) = b.
Proof. destruct b; vm_compute; repeat split. Qed.

Lemma Buffer_from_hex_hexlify (l : list byte) :
  Buffer_from_hex (hexlify l) = l.
Proof.
  induction l as [|b r IH]; [reflexivity|].
  destruct (hex_byte_roundtrip b) as (Hh & Hl & Hb).
  cbn [hexlify Buffer_from_hex]. rewrite Hh, Hl, Hb, IH. reflexivity.
Qed.

Lemma length_hexlify (l : list byte) :
  String.length (hexlify l) = (2 * List.length l)%nat.
Proof. induction l as [|b r IH]; cbn [hexlify String.length List.length]; lia. Qed.

Lemma startsWith_hexlify_0x (l : list byte) :
  startsWith (hexlify l) "0x" = false.
Proof.
  destruct l as [|b r]; [reflexivity|].
  cbn [hexlify]. destruct b; reflexivity.
Qed.

Lemma startsWith_append (p s : string) : startsWith (p ++ s) p = true.
Proof.
  induction p as [|c p IH]; cbn [append startsWith].
  - reflexivity.
  - rewrite Ascii.eqb_refl. exact IH.
Qed.

Lemma slice_append (p s : string) : slice (p ++ s) (String.length p) = s.
Proof. induction p as [|c p IH]; cbn; [destruct s; reflexivity | exact IH]. Qed.

(** ** Key agreement *)

Section KeyAgreement.
Import EncryptionService.
Context `{C : Secp256k1} `{!Secp256k1Laws} `{Sh : Sha256}.

Lemma valid_private_key_inv (k : string) :
  valid_private_key k = true ->
  String.length (strip0x k) = 64%nat /\ all_hex (strip0x k) = true /\
  valid_scalar (scalar_of k) = true.
Proof.
  unfold valid_private_key, scalar_of. intros Hv.
  apply andb_prop in Hv as [Hv Hs]. apply andb_prop in Hv as [Hl Hh].
  apply Nat.eqb_eq in Hl. auto.
Qed.

Lemma strip0x_idem (k : string) :
  String.length (strip0x k) = 64%nat -> all_hex (strip0x k) = true ->
  strip0x (strip0x k) = strip0x k.
Proof.
  intros _ Hh. generalize dependent (strip0x k). intros c Hh.
  unfold strip0x.
  destruct c as [|c1 [|c2 c]]; try reflexivity.
  - cbn [startsWith]. rewrite andb_false_r. reflexivity.
  - cbn [all_hex] in Hh.
    apply andb_prop in Hh as [_ Hh]. apply andb_prop in Hh as [H2 _].
    cbn [startsWith].
    destruct (Ascii.eqb_spec "x" c2) as [<-|]; [discriminate H2|].
    rewrite andb_false_r. reflexivity.
Qed.

(** The public key text of a valid private key is the hexadecimal rendering
    of the 64 coordinate bytes of its public point. *)
Lemma getPublicKeyFromPrivate_valid (k : string) :
  valid_private_key k = true ->
  exists body,
    encode_point (mulG (scalar_of k)) = x04 :: body /\
    List.length body = 64%nat /\
    getPublicKeyFromPrivate k = Ok (hexlify body).
Proof.
  intros Hv. destruct (valid_private_key_inv k Hv) as (Hl & Hh & Hs).
  destruct (encode_public_shape _ Hs) as (body & Henc & Hbody).
  exists body. repeat split; trivial.
  unfold getPublicKeyFromPrivate, Wallet_publicKey.
  rewrite (startsWith_append "0x").
  change (slice ("0x" ++ strip0x k) 2) with (strip0x k).
  rewrite Hl, Hh. cbn [Nat.eqb andb].
  fold (scalar_of k). rewrite Hs, Henc. reflexivity.
Qed.

Lemma generateSharedSecret_valid (a b : string) (body : list byte) :
  valid_private_key a = true ->
  valid_scalar (scalar_of b) = true ->
  encode_point (mulG (scalar_of b)) = x04 :: body ->
  List.length body = 64%nat ->
  generateSharedSecret a (hexlify body)
  = Ok (sha256 (x_coord (mul (scalar_of a) (mulG (scalar_of b))))).
Proof.
  intros Ha Hb Henc Hlen. destruct (valid_private_key_inv a Ha) as (_ & _ & Hs).
  assert (Hstrip : strip0x (hexlify body) = hexlify body)
    by (unfold strip0x; rewrite startsWith_hexlify_0x; reflexivity).
  unfold generateSharedSecret, ECDH_setPrivateKey.
  fold (scalar_of a). rewrite Hs, Hstrip. cbn [bind].
  rewrite length_hexlify, Hlen. cbn [Nat.mul Nat.add Nat.eqb bind].
  unfold ECDH_computeSecret.
  change (Buffer_from_hex ("04" ++ hexlify body)) with (Buffer_from_hex (hexlify (x04 :: body))).
  rewrite Buffer_from_hex_hexlify, <- Henc, (decode_encode_public _ Hb).
  reflexivity.
Qed.

End KeyAgreement.

(** ** The envelope *)

Section Envelope.
Import EncryptionService.
Context `{C : Secp256k1} `{!Secp256k1Laws} `{Sh : Sha256} `{!Sha256Laws}
        `{Na : Sodium} `{!SodiumLaws} `{J : Json} `{!JsonLaws}.

Lemma eqb_empty_false (s : string) : s <> EmptyString -> String.eqb s EmptyString = false.
Proof. intros Hs. destruct (String.eqb_spec s EmptyString); [contradiction | reflexivity]. Qed.

Lemma JSON_parse_envelope (c n : string) :
  JSON_parse (JSON_stringify (envelope c n)) = Ok (envelope c n).
Proof.
  unfold envelope. apply JSON_parse_stringify; [|reflexivity].
  cbn [map fst]. repeat constructor; cbn [In]; intuition discriminate.
Qed.

Lemma parse_payload_envelope (c n : string) :
  c <> EmptyString -> n <> EmptyString ->
  parse_payload (JSON_stringify (envelope c n)) = Ok (envelope c n).
Proof.
  intros Hc Hn. unfold parse_payload. rewrite JSON_parse_envelope.
  cbn [bind]. change (js_get (envelope c n) "ciphertext") with (Ok (JString c)).
  change (js_get (envelope c n) "nonce") with (Ok (JString n)).
  cbn [bind truthy]. rewrite (eqb_empty_false c Hc), (eqb_empty_false n Hn).
  reflexivity.
Qed.

Lemma table_lookup (address privateKeyHex : string) :
  table_identity address privateKeyHex ->
  getRecipientPrivateKeyForTesting address = Ok (strip0x privateKeyHex) /\
  valid_private_key privateKeyHex = true /\
  valid_private_key (strip0x privateKeyHex) = true.
Proof.
  intros (addr & key & Hin & Haddr & Hkey).
  unfold getRecipientPrivateKeyForTesting, valid_private_key.
  destruct Hin as [E|[E|[]]]; injection E as Ea Ek;
    rewrite <- Ea in Haddr; rewrite <- Ek in Hkey;
    rewrite Haddr, !Hkey; repeat split; vm_compute; reflexivity.
Qed.

Lemma scalar_of_strip0x (k : string) :
  valid_private_key k = true -> scalar_of (strip0x k) = scalar_of k.
Proof.
  intros Hv. destruct (valid_private_key_inv k Hv) as (Hl & Hh & _).
  unfold scalar_of. rewrite strip0x_idem; trivial.
Qed.

(** The key derived from a valid private key and a table address. *)
Lemma derived_key_table (localKey peerAddress peerKey : string) :
  valid_private_key localKey = true ->
  table_identity peerAddress peerKey ->
  derived_key localKey peerAddress
  = Ok (sha256 (x_coord (mul (scalar_of localKey) (mulG (scalar_of peerKey))))).
Proof.
  intros Hl Hp. destruct (table_lookup _ _ Hp) as (Hlook & Hv & Hv').
  unfold derived_key. rewrite Hlook. cbn [bind].
  destruct (getPublicKeyFromPrivate_valid _ Hv') as (body & Henc & Hlen & Hpub).
  rewrite Hpub. cbn [bind].
  destruct (valid_private_key_inv _ Hv') as (_ & _ & Hs).
  rewrite (generateSharedSecret_valid localKey (strip0x peerKey) body Hl Hs Henc Hlen).
  rewrite (scalar_of_strip0x _ Hv). reflexivity.
Qed.

Lemma encryptForRecipient_derived (m priv addr : string) (nonce : list byte) :
  encryptForRecipient m priv addr nonce =
  (key <- derived_key priv addr ;;
   ciphertext <- aead_encrypt (from_string m) nonce key ;;
   Ok (JSON_stringify (envelope (to_base64 ciphertext) (to_base64 nonce)))).
Proof.
  unfold encryptForRecipient, derived_key.
  destruct (getRecipientPrivateKeyForTesting addr); [|reflexivity]. cbn [bind].
  destruct (getPublicKeyFromPrivate a); reflexivity.
Qed.

Lemma open_payload_derived (payload : jsval) (priv sender : string) :
  open_payload payload priv sender =
  (key <- derived_key priv sender ;;
   nonceField <- js_get payload "nonce" ;;
   nonce <- sodium_from_base64 nonceField ;;
   ciphertextField <- js_get payload "ciphertext" ;;
   ciphertext <- sodium_from_base64 ciphertextField ;;
   decryptedBytes <- aead_decrypt ciphertext nonce key ;;
   decryptedMessage <- to_string decryptedBytes ;;
   if String.eqb decryptedMessage EmptyString then
     Throw "Decryption resulted in empty message"
   else Ok decryptedMessage).
Proof.
  unfold open_payload, derived_key.
  destruct (getRecipientPrivateKeyForTesting sender); [|reflexivity]. cbn [bind].
  destruct (getPublicKeyFromPrivate a); reflexivity.
Qed.

Lemma nonempty_of_length {A : Type} (l : list A) (n : nat) :
  List.length l = S n -> l <> [].
Proof. destruct l; [discriminate | intros _; discriminate]. Qed.

(** Decrypting a sealed envelope under a derived key [key']. *)
Lemma decrypt_sealed (m priv sender : string) (nonce c key key' : list byte) :
  List.length nonce = NPUBBYTES ->
  aead_encrypt (from_string m) nonce key = Ok c ->
  derived_key priv sender = Ok key' ->
  decryptFromSender
    (JSON_stringify (envelope (to_base64 c) (to_base64 nonce))) priv sender
  = match aead_decrypt c nonce key' with
    | Ok bytes =>
        match to_string bytes with
        | Ok text => if String.eqb text EmptyString then UNDECRYPTABLE else text
        | Throw _ => UNDECRYPTABLE
        end
    | Throw _ => UNDECRYPTABLE
    end.
Proof.
  intros Hn Henc Hkey.
  destruct (aead_decrypt_encrypt _ _ _ _ Henc) as [_ Hc].
  assert (Hn' : nonce <> []) by (eapply nonempty_of_length; exact Hn).
  unfold decryptFromSender.
  rewrite parse_payload_envelope by (apply to_base64_nonempty; assumption).
  change (js_get (envelope (to_base64 c) (to_base64 nonce)) "algorithm")
    with (Ok (JString ALGORITHM)).
  cbn [strict_eq_string]. rewrite String.eqb_refl. cbn [negb].
  rewrite open_payload_derived, Hkey. cbn [bind].
  change (js_get (envelope (to_base64 c) (to_base64 nonce)) "nonce")
    with (Ok (JString (to_base64 nonce))).
  change (js_get (envelope (to_base64 c) (to_base64 nonce)) "ciphertext")
    with (Ok (JString (to_base64 c))).
  cbn [bind sodium_from_base64]. rewrite !from_base64_to_base64. cbn [bind].
  destruct (aead_decrypt c nonce key') as [bytes|e]; [|reflexivity]. cbn [bind].
  destruct (to_string bytes) as [text|e]; [|reflexivity]. cbn [bind].
  destruct (String.eqb text EmptyString); reflexivity.
Qed.

End Envelope.

(** ** The model satisfies the laws *)

Section ModelLaws.
Import Model.

Lemma to_N_byte_of_N (n : N) : (n < 256)%N -> Byte.to_N (byte_of_N n) = n.
Proof.
  intros Hn. unfold byte_of_N. destruct (Byte.of_N n) as [b|] eqn:E.
  - apply Byte.to_of_N. exact E.
  - apply Byte.of_N_None_iff in E. lia.
Qed.

Lemma be_to_Z_snoc (l : list byte) (b : byte) :
  be_to_Z (l ++ [b]) = be_to_Z l * 256 + Z.of_N (Byte.to_N b).
Proof. unfold be_to_Z. rewrite fold_left_app. reflexivity. Qed.

Lemma length_Z_to_be (len : nat) (z : Z) : List.length (Z_to_be len z) = len.
Proof.
  revert z. induction len as [|n IH]; intros z; [reflexivity|].
  cbn [Z_to_be]. rewrite length_app, IH. cbn. lia.
Qed.

Lemma be_to_Z_to_be (len : nat) (z : Z) :
  0 <= z < 256 ^ Z.of_nat len -> be_to_Z (Z_to_be len z) = z.
Proof.
  revert z. induction len as [|n IH]; intros z Hz.
  - cbn in *. lia.
  - cbn [Z_to_be]. rewrite be_to_Z_snoc.
    rewrite Nat2Z.inj_succ, Z.pow_succ_r in Hz by lia.
    rewrite IH by (split; [apply Z.div_pos; lia | apply Z.div_lt_upper_bound; lia]).
    rewrite to_N_byte_of_N.
    + rewrite Z2N.id by (apply Z.mod_pos_bound; lia).
      pose proof (Z.div_mod z 256). lia.
    + pose proof (Z.mod_pos_bound z 256). lia.
Qed.

Lemma curve_order_bounds : 0 < curve_order < 256 ^ 32.
Proof. vm_compute. split; reflexivity. Qed.

#[export] Instance additive_group_laws : Secp256k1Laws.
Proof.
  pose proof curve_order_bounds as Hn.
  split.
  - intros a b _ _. cbn [mul mulG additive_group].
    rewrite !Z.mul_mod_idemp_r by lia. f_equal. apply Z.mul_comm.
  - intros a _. exists (Z_to_be 32 (a mod curve_order) ++ zeros 32)%list.
    split; [reflexivity|]. rewrite length_app, length_Z_to_be. reflexivity.
  - intros a _. cbn [decode_point encode_point mulG additive_group].
    set (P := a mod curve_order).
    assert (Hlen : Nat.eqb (List.length (Z_to_be 32 P ++ zeros 32)%list) 64 = true)
      by (rewrite length_app, length_Z_to_be; reflexivity).
    assert (Hfst : firstn 32 (Z_to_be 32 P ++ zeros 32)%list = Z_to_be 32 P).
    { rewrite firstn_app, length_Z_to_be, Nat.sub_diag, firstn_O, app_nil_r.
      apply firstn_all2. rewrite length_Z_to_be. lia. }
    rewrite Hlen, Hfst.
    replace (Byte.eqb x04 x04) with true by reflexivity.
    cbn [andb]. apply f_equal.
    apply be_to_Z_to_be. pose proof (Z.mod_pos_bound a curve_order). lia.
Qed.

#[export] Instance padding_hash_laws : Sha256Laws.
Proof.
  split. intros x. cbn [sha256 padding_hash].
  rewrite length_firstn, length_app. unfold zeros. rewrite repeat_length. lia.
Qed.

Lemma all_hex_hexlify (l : list byte) : all_hex (hexlify l) = true.
Proof.
  induction l as [|b r IH]; [reflexivity|].
  destruct (hex_byte_roundtrip b) as (Hh & Hl & _).
  cbn [hexlify all_hex]. unfold is_hex_digit. rewrite Hh, Hl, IH. reflexivity.
Qed.

Lemma bytes_eqb_eq (a b : list byte) : bytes_eqb a b = true <-> a = b.
Proof.
  revert b. induction a as [|x a IH]; intros [|y b]; cbn [bytes_eqb];
    try (split; [discriminate|discriminate]); try tauto.
  rewrite andb_true_iff, IH. split.
  - intros [Hxy ->]. apply Byte.byte_dec_bl in Hxy. congruence.
  - intros E. injection E as -> ->. split; [apply Byte.byte_dec_lb|]; reflexivity.
Qed.

Lemma firstn_app_exact {A : Type} (a b : list A) (n : nat) :
  List.length a = n -> firstn n (a ++ b) = a.
Proof.
  intros <-. induction a as [|x a IH]; cbn; [reflexivity | now rewrite IH].
Qed.

Lemma skipn_app_exact {A : Type} (a b : list A) (n : nat) :
  List.length a = n -> skipn n (a ++ b) = b.
Proof. intros <-. induction a as [|x a IH]; cbn; [reflexivity | exact IH]. Qed.

#[export] Instance transparent_sodium_laws : SodiumLaws.
Proof.
  split.
  - intros s. cbn [to_string from_string transparent_sodium].
    rewrite string_of_list_byte_of_string. reflexivity.
  - intros b. cbn [from_base64 to_base64 transparent_sodium].
    rewrite all_hex_hexlify, length_hexlify, Nat.even_mul, Buffer_from_hex_hexlify.
    reflexivity.
  - intros [|b r] Hb; [contradiction|]. cbn. discriminate.
  - intros m nonce key Hn Hk. cbn [aead_encrypt transparent_sodium].
    rewrite Hn, Hk, !Nat.eqb_refl. eexists. reflexivity.
  - intros m nonce key c. cbn [aead_encrypt aead_decrypt transparent_sodium].
    destruct (Nat.eqb (List.length nonce) NPUBBYTES); [|discriminate].
    destruct (Nat.eqb (List.length key) KEYBYTES) eqn:Hk; [|discriminate].
    apply Nat.eqb_eq in Hk. cbn [andb]. intros E. injection E as <-.
    rewrite (firstn_app_exact key m KEYBYTES Hk), (skipn_app_exact key m KEYBYTES Hk).
    replace (bytes_eqb key key) with true by (symmetry; apply bytes_eqb_eq; reflexivity).
    split; [reflexivity|]. destruct key; [discriminate Hk | discriminate].
  - intros m nonce key key' c. cbn [aead_encrypt aead_decrypt transparent_sodium].
    destruct (Nat.eqb (List.length nonce) NPUBBYTES); [|discriminate].
    destruct (Nat.eqb (List.length key) KEYBYTES) eqn:Hk; [|discriminate].
    apply Nat.eqb_eq in Hk. cbn [andb]. intros E Hne. injection E as <-.
    rewrite (firstn_app_exact key m KEYBYTES Hk).
    destruct (bytes_eqb key key') eqn:Hb.
    + apply bytes_eqb_eq in Hb. congruence.
    + rewrite andb_false_r. eexists. reflexivity.
Qed.

End ModelLaws.

Section FlatJson.
Import Model.

Lemma str_app_assoc (a b c : string) : ((a ++ b) ++ c = a ++ (b ++ c))%string.
Proof. induction a as [|x a IH]; cbn [append]; [reflexivity | now rewrite IH]. Qed.

Lemma str_length_app (a b : string) :
  String.length (a ++ b) = (String.length a + String.length b)%nat.
Proof. induction a as [|x a IH]; cbn [append String.length]; [reflexivity | now rewrite IH]. Qed.

Lemma quote_append (s rest : string) :
  (quote s ++ rest)%string = String dquote (escape s ++ String dquote rest).
Proof. unfold quote. cbn [append]. rewrite str_app_assoc. reflexivity. Qed.

Lemma read_string_escape (s rest : string) :
  read_string (escape s ++ String dquote rest) = Some (s, rest).
Proof.
  induction s as [|c s IH]; cbn [escape append].
  - cbn [read_string]. rewrite Ascii.eqb_refl. reflexivity.
  - destruct (Ascii.eqb c dquote || Ascii.eqb c backslash) eqn:E; cbn [append read_string].
    + replace (Ascii.eqb backslash dquote) with false by reflexivity.
      rewrite Ascii.eqb_refl, IH. reflexivity.
    + apply orb_false_iff in E as [-> ->]. rewrite IH. reflexivity.
Qed.

Lemma length_field_prefix (k : string) (v : jsval) (tail : string) :
  (1 + String.length tail <= String.length (quote k ++ ":" ++ print_value v ++ tail))%nat.
Proof.
  rewrite quote_append.
  repeat first [rewrite str_length_app | progress cbn [String.length]]. lia.
Qed.

Lemma length_print_fields (fields : list (string * string)) :
  (List.length fields <= String.length (print_fields (map string_field fields)))%nat.
Proof.
  induction fields as [|[k v] r IH]; [cbn; lia|].
  destruct r as [|kv r].
  - cbn [map print_fields string_field fst snd List.length].
    pose proof (length_field_prefix k (JString v) "}"). lia.
  - change (print_fields (map string_field ((k, v) :: kv :: r)))
      with (quote k ++ ":" ++ print_value (JString v) ++ ","
            ++ print_fields (map string_field (kv :: r)))%string.
    pose proof (length_field_prefix k (JString v)
                  ("," ++ print_fields (map string_field (kv :: r)))) as Hp.
    cbn [append String.length List.length] in Hp, IH |- *. lia.
Qed.

Lemma read_fields_print (fields : list (string * string)) :
  fields <> [] ->
  forall fuel, (List.length fields <= fuel)%nat ->
  read_fields fuel (print_fields (map string_field fields)) = Some fields.
Proof.
  induction fields as [|[k v] r IH]; [contradiction|]. intros _ fuel Hfuel.
  destruct fuel as [|fuel]; [cbn in Hfuel; lia|].
  assert (Hstep : forall tail,
    read_fields (S fuel) (quote k ++ ":" ++ quote v ++ tail)%string =
    match tail with
    | String sep r3 =>
        if Ascii.eqb sep "}" then
          match r3 with EmptyString => Some [(k, v)] | _ => None end
        else if Ascii.eqb sep "," then
          match read_fields fuel r3 with
          | Some fs => Some ((k, v) :: fs)
          | None => None
          end
        else None
    | EmptyString => None
    end).
  { intros tail. rewrite quote_append. cbn [read_fields].
    rewrite Ascii.eqb_refl, read_string_escape. cbn [append].
    rewrite quote_append.
    replace (Ascii.eqb ":" ":") with true by reflexivity.
    rewrite Ascii.eqb_refl. cbn [andb]. rewrite read_string_escape.
    destruct tail; reflexivity. }
  destruct r as [|kv r].
  - cbn [map print_fields string_field fst snd print_value].
    rewrite Hstep. reflexivity.
  - change (print_fields (map string_field ((k, v) :: kv :: r)))
      with (quote k ++ ":" ++ quote v ++ "," ++ print_fields (map string_field (kv :: r)))%string.
    rewrite Hstep. cbn [append].
    replace (Ascii.eqb "," "}") with false by reflexivity.
    replace (Ascii.eqb "," ",") with true by reflexivity.
    rewrite IH; [reflexivity | discriminate | cbn [List.length] in *; lia].
Qed.

#[export] Instance flat_json_laws : JsonLaws.
Proof.
  split. intros fields _ _.
  cbn [JSON_parse JSON_stringify flat_json]. unfold flat_object, print, read.
  fold string_field.
  replace (Ascii.eqb "{" "{") with true by reflexivity.
  destruct fields as [|kv r]; [reflexivity|].
  assert (Hne : String.eqb (print_fields (map string_field (kv :: r))) "}" = false).
  { destruct kv as [k v].
    destruct r; cbn [map print_fields string_field fst snd print_value];
      rewrite quote_append; reflexivity. }
  rewrite Hne, read_fields_print;
    [reflexivity | discriminate | apply length_print_fields].
Qed.

End FlatJson.

(** ** Properties of the encryption service *)

Section EncryptionTheorems.
Import EncryptionService.
Context `{C : Secp256k1} `{!Secp256k1Laws} `{Sh : Sha256} `{!Sha256Laws}
        `{Na : Sodium} `{!SodiumLaws} `{J : Json} `{!JsonLaws}.

(** C4.  Shared-key derivation is commutative: for valid private keys [a]
    and [b], both public keys are derived, and [generateSharedSecret] on
    ([a], public key of [b]) and on ([b], public key of [a]) return the same
    key. *)
Theorem generateSharedSecret_commutes (a b : string) :
  valid_private_key a = true ->
  valid_private_key b = true ->
  exists pa pb key,
    getPublicKeyFromPrivate a = Ok pa /\
    getPublicKeyFromPrivate b = Ok pb /\
    generateSharedSecret a pb = Ok key /\
    generateSharedSecret b pa = Ok key.
Proof.
  intros Ha Hb.
  destruct (getPublicKeyFromPrivate_valid a Ha) as (ba & Hea & Hla & Hpa).
  destruct (getPublicKeyFromPrivate_valid b Hb) as (bb & Heb & Hlb & Hpb).
  destruct (valid_private_key_inv a Ha) as (_ & _ & Hsa).
  destruct (valid_private_key_inv b Hb) as (_ & _ & Hsb).
  exists (hexlify ba), (hexlify bb),
    (sha256 (x_coord (mul (scalar_of a) (mulG (scalar_of b))))).
  repeat split; trivial.
  - apply generateSharedSecret_valid; assumption.
  - rewrite (dh_commutes _ _ Hsa Hsb). apply generateSharedSecret_valid; assumption.
Qed.

(** C1, as amended.  For a non-empty plaintext and two identities of the
    testing-key table, the envelope that [encryptForRecipient] builds for
    the second identity's address decrypts, with the second identity's
    private key and the first identity's address, to the plaintext. *)
Theorem roundtrip_table_identities
  (m addrA privA addrB privB : string) (nonce : list byte) :
  m <> EmptyString ->
  List.length nonce = NPUBBYTES ->
  table_identity addrA privA ->
  table_identity addrB privB ->
  exists env,
    encryptForRecipient m privA addrB nonce = Ok env /\
    decryptFromSender env privB addrA = m.
Proof.
  intros Hm Hn HA HB.
  destruct (table_lookup _ _ HA) as (_ & HvA & _).
  destruct (table_lookup _ _ HB) as (_ & HvB & _).
  destruct (valid_private_key_inv _ HvA) as (_ & _ & HsA).
  destruct (valid_private_key_inv _ HvB) as (_ & _ & HsB).
  pose proof (derived_key_table privA addrB privB HvA HB) as HkA.
  pose proof (derived_key_table privB addrA privA HvB HA) as HkB.
  rewrite <- (dh_commutes _ _ HsA HsB) in HkB.
  set (key := sha256 (x_coord (mul (scalar_of privA) (mulG (scalar_of privB))))) in *.
  destruct (aead_encrypt_defined (from_string m) nonce key Hn (sha256_length _))
    as (c & Hc).
  exists (JSON_stringify (envelope (to_base64 c) (to_base64 nonce))). split.
  - rewrite encryptForRecipient_derived, HkA. cbn [bind]. rewrite Hc. reflexivity.
  - rewrite (decrypt_sealed m privB addrA nonce c key key Hn Hc HkB).
    destruct (aead_decrypt_encrypt _ _ _ _ Hc) as [-> _].
    rewrite to_string_from_string, (eqb_empty_false m Hm). reflexivity.
Qed.

Lemma mismatched_key_undecryptable
  (m senderPrivateKey recipientAddress env recipientPrivateKey senderAddress : string)
  (nonce key : list byte) :
  List.length nonce = NPUBBYTES ->
  encryptForRecipient m senderPrivateKey recipientAddress nonce = Ok env ->
  derived_key senderPrivateKey recipientAddress = Ok key ->
  derived_key recipientPrivateKey senderAddress <> Ok key ->
  decryptFromSender env recipientPrivateKey senderAddress = UNDECRYPTABLE.
Proof.
  intros Hn Henc Hk Hne.
  rewrite encryptForRecipient_derived, Hk in Henc. cbn [bind] in Henc.
  destruct (aead_encrypt (from_string m) nonce key) as [c|e] eqn:Hc; [|discriminate].
  cbn [bind] in Henc. injection Henc as <-.
  destruct (derived_key recipientPrivateKey senderAddress) as [key'|e] eqn:Hk'.
  - rewrite (decrypt_sealed m _ _ nonce c key key' Hn Hc Hk').
    assert (Hne' : key' <> key) by congruence.
    destruct (aead_key_binding _ _ _ _ _ Hc Hne') as (e & ->). reflexivity.
  - destruct (aead_decrypt_encrypt _ _ _ _ Hc) as [_ Hcn].
    unfold decryptFromSender.
    rewrite parse_payload_envelope
      by (apply to_base64_nonempty;
          first [assumption | eapply nonempty_of_length; exact Hn]).
    change (js_get (envelope (to_base64 c) (to_base64 nonce)) "algorithm")
      with (Ok (JString ALGORITHM)).
    cbn [strict_eq_string]. rewrite String.eqb_refl. cbn [negb].
    rewrite open_payload_derived, Hk'. reflexivity.
Qed.

(** C2.  [decryptFromSender] is a total function to strings, so nothing
    reaches its caller as an exception, and
    - when the text does not parse or the parsed value has no usable
      [ciphertext] or [nonce], the result is the corrupted sentinel (texts
      under 100 characters) or the legacy sentinel;
    - when the [algorithm] is not the expected tag, it is the legacy
      sentinel;
    - when a later step throws (the peer key lookup, base64 decoding, the
      authenticated decryption, decoding of the bytes) it is the
      undecryptable sentinel, so every result is a sentinel or the decrypted
      text;
    - an envelope sealed by [encryptForRecipient], opened with a private key
      and sender address that do not derive the sealing key, gives the
      undecryptable sentinel, hence no plaintext other than that very
      text. *)
Theorem decryptFromSender_sentinels
  (encryptedData recipientPrivateKey senderAddress : string) :
  let r := decryptFromSender encryptedData recipientPrivateKey senderAddress in
  (forall e, JSON_parse encryptedData = Throw e ->
     r = if Nat.ltb (String.length encryptedData) 100
         then CORRUPTED encryptedData else LEGACY) /\
  (forall payload,
     JSON_parse encryptedData = Ok payload ->
     (forall c n, js_get payload "ciphertext" = Ok c ->
                  js_get payload "nonce" = Ok n ->
                  truthy c && truthy n = false) ->
     r = if Nat.ltb (String.length encryptedData) 100
         then CORRUPTED encryptedData else LEGACY) /\
  (forall payload algorithm,
     parse_payload encryptedData = Ok payload ->
     js_get payload "algorithm" = Ok algorithm ->
     strict_eq_string algorithm ALGORITHM = false ->
     r = LEGACY) /\
  (forall payload e,
     parse_payload encryptedData = Ok payload ->
     js_get payload "algorithm" = Ok (JString ALGORITHM) ->
     open_payload payload recipientPrivateKey senderAddress = Throw e ->
     r = UNDECRYPTABLE) /\
  (is_sentinel encryptedData r \/
   exists payload,
     parse_payload encryptedData = Ok payload /\
     open_payload payload recipientPrivateKey senderAddress = Ok r) /\
  (forall m senderPrivateKey recipientAddress nonce key,
     List.length nonce = NPUBBYTES ->
     encryptForRecipient m senderPrivateKey recipientAddress nonce = Ok encryptedData ->
     derived_key senderPrivateKey recipientAddress = Ok key ->
     derived_key recipientPrivateKey senderAddress <> Ok key ->
     r = UNDECRYPTABLE /\ (m <> UNDECRYPTABLE -> r <> m)).
Proof.
  cbv zeta. split; [|split; [|split; [|split; [|split]]]].
  - intros e He. unfold decryptFromSender, parse_payload. rewrite He. reflexivity.
  - intros payload Hp Hf. unfold decryptFromSender, parse_payload. rewrite Hp.
    cbn [bind].
    destruct (js_get payload "ciphertext") as [c|e]; [|reflexivity]. cbn [bind].
    destruct (js_get payload "nonce") as [n|e]; [|reflexivity]. cbn [bind].
    specialize (Hf c n eq_refl eq_refl).
    rewrite <- negb_andb, Hf. reflexivity.
  - intros payload algorithm Hp Ha Hne. unfold decryptFromSender.
    rewrite Hp, Ha, Hne. reflexivity.
  - intros payload e Hp Ha Ho. unfold decryptFromSender.
    rewrite Hp, Ha, Ho. cbn [strict_eq_string]. rewrite String.eqb_refl. reflexivity.
  - unfold decryptFromSender, is_sentinel.
    destruct (parse_payload encryptedData) as [payload|e].
    + destruct (js_get payload "algorithm") as [algorithm|e]; [|auto].
      destruct (negb (strict_eq_string algorithm ALGORITHM)); [auto|].
      destruct (open_payload payload recipientPrivateKey senderAddress) as [text|e] eqn:Ho;
        [|auto].
      right. exists payload. auto.
    + destruct (Nat.ltb (String.length encryptedData) 100); auto.
  - intros m senderPrivateKey recipientAddress nonce key Hn Henc Hk Hne.
    pose proof (mismatched_key_undecryptable _ _ _ _ _ _ _ _ Hn Henc Hk Hne) as Hr.
    split; [exact Hr|]. intros Hm Heq. apply Hm. rewrite <- Heq. exact Hr.
Qed.

End EncryptionTheorems.

Section TableDependence.
Import EncryptionService.
Context `{C : Secp256k1} `{Sh : Sha256} `{Na : Sodium} `{J : Json}.

Lemma lookup_outside_table (address : string) :
  in_table address = false ->
  getRecipientPrivateKeyForTesting address
  = Throw ("Testing private key not found for address: " ++ address).
Proof.
  unfold in_table, getRecipientPrivateKeyForTesting.
  destruct (find_key testingKeys (toLowerCase address)); [discriminate | reflexivity].
Qed.

Lemma lookup_inside_table (address key : string) :
  getRecipientPrivateKeyForTesting address = Ok key -> in_table address = true.
Proof.
  unfold in_table, getRecipientPrivateKeyForTesting.
  destruct (find_key testingKeys (toLowerCase address)); [reflexivity | discriminate].
Qed.

Lemma in_table_addresses (address : string) :
  in_table address = true <->
  toLowerCase address = "0x4b3462da947df564ea5d7bd23f5515fbeb093d55" \/
  toLowerCase address = "0xd6ed9d6a26636df02d6a2a51a448cac55795e016".
Proof.
  unfold in_table, testingKeys. cbn [find_key].
  change (toLowerCase "0x4B3462da947df564eA5d7bd23f5515fbEB093d55")
    with "0x4b3462da947df564ea5d7bd23f5515fbeb093d55".
  change (toLowerCase "0xd6ED9d6A26636df02D6A2a51A448cAC55795e016")
    with "0xd6ed9d6a26636df02d6a2a51a448cac55795e016".
  destruct (String.eqb_spec "0x4b3462da947df564ea5d7bd23f5515fbeb093d55"
              (toLowerCase address)) as [E1|E1].
  - split; [intros _; left; symmetry; exact E1 | reflexivity].
  - destruct (String.eqb_spec "0xd6ed9d6a26636df02d6a2a51a448cac55795e016"
                (toLowerCase address)) as [E2|E2].
    + split; [intros _; right; symmetry; exact E2 | reflexivity].
    + split; [discriminate | intros [E|E]; symmetry in E; contradiction].
Qed.

(** C9.  Both directions depend on the table of testing keys, which holds
    two addresses: for a
    recipient address outside it [encryptForRecipient] throws; for a sender
    address outside it [decryptFromSender] returns the undecryptable
    sentinel on every envelope that passes the field and algorithm checks,
    whatever private key the caller holds, and a sentinel on every input; so
    an envelope is produced only for a recipient of the table and a
    plaintext is recovered only from a sender of the table. *)
Theorem peer_must_be_in_table :
  (forall address,
     in_table address = true <->
     toLowerCase address = "0x4b3462da947df564ea5d7bd23f5515fbeb093d55" \/
     toLowerCase address = "0xd6ed9d6a26636df02d6a2a51a448cac55795e016") /\
  (forall m senderPrivateKey recipientAddress nonce,
     in_table recipientAddress = false ->
     encryptForRecipient m senderPrivateKey recipientAddress nonce
     = Throw ("Testing private key not found for address: " ++ recipientAddress)) /\
  (forall encryptedData recipientPrivateKey senderAddress payload,
     in_table senderAddress = false ->
     parse_payload encryptedData = Ok payload ->
     js_get payload "algorithm" = Ok (JString ALGORITHM) ->
     decryptFromSender encryptedData recipientPrivateKey senderAddress = UNDECRYPTABLE) /\
  (forall encryptedData recipientPrivateKey senderAddress,
     in_table senderAddress = false ->
     is_sentinel encryptedData
       (decryptFromSender encryptedData recipientPrivateKey senderAddress)) /\
  (forall m senderPrivateKey recipientAddress nonce env,
     encryptForRecipient m senderPrivateKey recipientAddress nonce = Ok env ->
     in_table recipientAddress = true).
Proof.
  split; [exact in_table_addresses|].
  split; [|split; [|split]].
  - intros m priv addr nonce Hout. unfold encryptForRecipient.
    rewrite (lookup_outside_table addr Hout). reflexivity.
  - intros data priv sender payload Hout Hp Ha. unfold decryptFromSender, open_payload.
    rewrite Hp, Ha, (lookup_outside_table sender Hout).
    cbn [strict_eq_string]. rewrite String.eqb_refl. reflexivity.
  - intros data priv sender Hout. unfold decryptFromSender, open_payload, is_sentinel.
    rewrite (lookup_outside_table sender Hout). cbn [bind].
    destruct (parse_payload data) as [payload|e].
    + destruct (js_get payload "algorithm") as [algorithm|e]; [|auto].
      destruct (negb (strict_eq_string algorithm ALGORITHM)); auto.
    + destruct (Nat.ltb (String.length data) 100); auto.
  - intros m priv addr nonce env. unfold encryptForRecipient.
    destruct (getRecipientPrivateKeyForTesting addr) as [key|e] eqn:E; [|discriminate].
    intros _. exact (lookup_inside_table addr key E).
Qed.

End TableDependence.

(** ** Sessions *)

Section SessionProofs.
Import Ledger SessionManager.
Context `{E : Evm}.
Variable wallet : address.

Lemma upd_same {A : Type} (m : Z -> A) (k : Z) (v : A) : upd m k v k = v.
Proof. unfold upd. rewrite Z.eqb_refl. reflexivity. Qed.

Lemma upd_other {A : Type} (m : Z -> A) (k k' : Z) (v : A) :
  k' <> k -> upd m k v k' = m k'.
Proof. intros Hne. unfold upd. destruct (Z.eqb_spec k' k); [contradiction | reflexivity]. Qed.

Lemma neq_eqb_false (a b : Z) : a <> b -> (a =? b) = false.
Proof. intros Hne. destruct (Z.eqb_spec a b); [contradiction | reflexivity]. Qed.

(** A lookup that finds a deployed current channel. *)
Lemma getSessionBetween_current (c : Chain) (blk : Block) (peer channel : address) (t : Z) :
  is_current wallet c peer channel t ->
  exists sid active,
    getSessionBetween c blk wallet peer = Ok (sid, channel, active).
Proof.
  intros (Hnz & Hcur & s & Hdep & _). unfold getSessionBetween, current_channel in *.
  rewrite Hcur. unfold ZeroAddress in Hnz. rewrite (neq_eqb_false _ _ Hnz). cbn [negb].
  unfold session_at. rewrite Hdep. cbn [bind]. eauto.
Qed.

(** The previous-session check passes for an old session that is expired or
    closed. *)
Lemma check_existing_accepts (c : Chain) (blk : Block) (peer channel : address) (t : Z)
  (old : ChatSession) :
  is_current wallet c peer channel t ->
  deployed c channel = Some old ->
  (sessionExpiry old <= timestamp blk \/ sessionActive old = false) ->
  (sessionActive old = true -> 1 <= activeSessions (factory c)) ->
  exists active,
    check_existing c blk wallet peer = Ok active /\
    0 <= activeSessions (factory c) - active <= 1.
Proof.
  intros (Hnz & Hcur & _) Hdep Hold Hcount.
  unfold check_existing, current_channel in *.
  destruct (participantPairToSession (factory c) wallet peer =? 0);
    cbn [negb]; [exists (activeSessions (factory c)); split; [reflexivity | lia]|].
  rewrite Hcur. unfold ZeroAddress in Hnz. rewrite (neq_eqb_false _ _ Hnz). cbn [negb].
  unfold session_at. rewrite Hdep. cbn [bind]. unfold isSessionExpired.
  destruct (sessionActive old) eqn:Ha.
  - destruct Hold as [Hexp|Hcl]; [|discriminate].
    apply Z.leb_le in Hexp. rewrite Hexp. cbn [negb andb].
    unfold checked_sub. specialize (Hcount eq_refl). apply Z.leb_le in Hcount.
    rewrite Hcount. eexists. split; [reflexivity | lia].
  - cbn [andb]. rewrite andb_false_r.
    exists (activeSessions (factory c)). split; [reflexivity | lia].
Qed.

(** The factory accepts the creation and records the new session. *)
Lemma createChatSession_accepts (c : Chain) (blk : Block) (peer channel : address)
  (t : Z) (old : ChatSession) :
  is_current wallet c peer channel t ->
  deployed c channel = Some old ->
  accepts_renewal wallet c blk peer old ->
  let id := session_id wallet peer (timestamp blk) (prevrandao blk)
              (totalSessions (factory c)) in
  let target := create2_address id wallet peer in
  exists c',
    createChatSession c blk wallet peer = Ok (target, id, c') /\
    is_current wallet c' peer target (timestamp blk).
Proof.
  intros Hcur Hdep (Hw & Hp & Hpw & Hmax & Hfresh & Hold & Hcount & Hact & Htot & Hts & Hvac & Htz).
  cbv zeta.
  destruct (check_existing_accepts c blk peer channel t old Hcur Hdep Hold Hcount)
    as (active & Hchk & Hrange).
  unfold createChatSession.
  rewrite (neq_eqb_false _ _ Hp), (neq_eqb_false _ _ Hpw).
  apply Z.ltb_lt in Hmax. rewrite Hmax. cbn [negb].
  rewrite Hfresh. cbn [Z.eqb negb]. rewrite Hchk. cbn [bind]. rewrite Hvac.
  unfold ChatSession_constructor.
  rewrite (neq_eqb_false _ _ Hw), (neq_eqb_false _ _ Hp). cbn [negb andb].
  rewrite (neq_eqb_false wallet peer) by congruence.
  unfold checked_add.
  replace (timestamp blk + SESSION_DURATION <=? UINT256_MAX) with true
    by (symmetry; apply Z.leb_le; exact Hts).
  replace (totalSessions (factory c) + 1 <=? UINT256_MAX) with true
    by (symmetry; apply Z.leb_le; exact Htot).
  replace (active + 1 <=? UINT256_MAX) with true
    by (symmetry; apply Z.leb_le; lia).
  cbn [bind]. eexists. split; [reflexivity|].
  unfold is_current, current_channel. cbn [factory deployed sessionContracts participantPairToSession].
  split; [exact Htz|]. split.
  - unfold upd2. rewrite (neq_eqb_false wallet peer) by congruence.
    cbn [andb]. rewrite !Z.eqb_refl. cbn [andb]. apply upd_same.
  - rewrite upd_same. eexists. split; reflexivity.
Qed.

End SessionProofs.

Section SessionTheorems.
Import Ledger SessionManager.
Context `{E : Evm}.
Variable wallet : address.

(** What an accepted creation leaves on the chain. *)
Lemma createChatSession_inv (c c' : Chain) (blk : Block) (peer a : address) (id : bytes32) :
  createChatSession c blk wallet peer = Ok (a, id, c') ->
  deployed c a = None /\
  current_channel wallet c' peer = a /\
  exists s, deployed c' a = Some s /\ createdAt s = timestamp blk.
Proof.
  unfold createChatSession.
  destruct (peer =? 0); [discriminate|].
  destruct (Z.eqb_spec peer wallet) as [|Hpw]; [discriminate|].
  destruct (negb _); [discriminate|].
  destruct (negb _); [discriminate|].
  destruct (check_existing c blk wallet peer) as [active|e]; [|discriminate]. cbn [bind].
  destruct (deployed c (create2_address _ wallet peer)) eqn:Hvac; [discriminate|].
  unfold ChatSession_constructor.
  destruct (negb _); [discriminate|].
  destruct (wallet =? peer); [discriminate|].
  destruct (checked_add (timestamp blk) SESSION_DURATION) as [expiry|e]; [|discriminate].
  cbn [bind].
  destruct (checked_add (totalSessions (factory c)) 1) as [total|e]; [|discriminate].
  cbn [bind].
  destruct (checked_add active 1) as [active'|e]; [|discriminate].
  cbn [bind]. intros Heq. injection Heq as <- <- <-.
  split; [exact Hvac|]. split.
  - unfold current_channel. cbn [factory sessionContracts participantPairToSession].
    unfold upd2. rewrite (neq_eqb_false wallet peer) by congruence.
    cbn [andb]. rewrite !Z.eqb_refl. cbn [andb]. apply upd_same.
  - cbn [deployed]. rewrite upd_same. eexists. split; reflexivity.
Qed.

Lemma createSession_creates (env : Env) (w w' : World) (peer : address) (r : SessionInfo) :
  createSession wallet env w peer = (Ok r, w') ->
  existed r = false /\
  is_current wallet (chain w') peer (contractAddress r) (timestamp (block env)) /\
  deployed (chain w) (contractAddress r) = None.
Proof.
  unfold createSession, rpc.
  destruct (answered env CallEstimateGas); [|discriminate].
  destruct (createChatSession (chain w) (block env) wallet peer) as [[[a id] c']|e] eqn:Hc;
    [|discriminate].
  destruct (answered env CallSendTransaction); [|discriminate].
  destruct (createChatSession_inv _ _ _ _ _ _ Hc) as (Hvac & Hcur & s & Hdep & Hts).
  destruct (answered env CallGetSessionBetween); [|discriminate].
  unfold getSessionBetween. fold (current_channel wallet c' peer). rewrite Hcur.
  unfold ZeroAddress.
  destruct (Z.eqb_spec a 0) as [Ha|Ha]; cbn [negb bind].
  { rewrite Ha. cbn [Z.eqb]. discriminate. }
  unfold session_at. rewrite Hdep. cbn [bind]. rewrite (neq_eqb_false _ _ Ha).
  intros Heq. injection Heq as <- <-. cbn [existed contractAddress chain].
  split; [reflexivity|]. split; [|exact Hvac].
  split; [exact Ha|]. split; [exact Hcur|]. eauto.
Qed.

Lemma getOrCreateSession_reuses (env : Env) (w : World) (peer channel : address) (t : Z) :
  is_current wallet (chain w) peer channel t ->
  answered env CallGetSessionBetween = true ->
  (answered env CallCreatedAt = true -> now env - t <= ONE_HOUR) ->
  getOrCreateSession wallet env w peer = reuse wallet w peer channel.
Proof.
  intros Hcur Hrpc Hage.
  destruct (getSessionBetween_current wallet (chain w) (block env) peer channel t Hcur)
    as (sid & active & Hget).
  destruct Hcur as (Hnz & _ & s & Hdep & Ht).
  unfold getOrCreateSession, rpc. rewrite Hrpc, Hget.
  rewrite (neq_eqb_false _ _ Hnz). cbn [negb].
  destruct (answered env CallCreatedAt); [|reflexivity].
  unfold session_at. rewrite Hdep. cbn [bind]. rewrite Ht.
  specialize (Hage eq_refl).
  replace (now env - t >? ONE_HOUR) with false
    by (symmetry; rewrite Z.gtb_ltb; apply Z.ltb_ge; exact Hage).
  reflexivity.
Qed.

Lemma getOrCreateSession_renews (env : Env) (w : World) (peer channel : address) (t : Z)
  (old : ChatSession) :
  is_current wallet (chain w) peer channel t ->
  deployed (chain w) channel = Some old ->
  all_answered env ->
  now env - t > ONE_HOUR ->
  accepts_renewal wallet (chain w) (block env) peer old ->
  exists r w',
    getOrCreateSession wallet env w peer = (Ok r, w') /\
    existed r = false /\
    contractAddress r <> channel /\
    is_current wallet (chain w') peer (contractAddress r) (timestamp (block env)).
Proof.
  intros Hcur Hdep Hrpc Hage Hacc.
  destruct (getSessionBetween_current wallet (chain w) (block env) peer channel t Hcur)
    as (sid & active & Hget).
  destruct (createChatSession_accepts wallet (chain w) (block env) peer channel t old
              Hcur Hdep Hacc) as (c' & Hcreate & Hnew).
  destruct (getSessionBetween_current wallet c' (block env) peer _ _ Hnew)
    as (sid' & active' & Hget').
  assert (Hvac : deployed (chain w)
            (create2_address
               (session_id wallet peer (timestamp (block env)) (prevrandao (block env))
                  (totalSessions (factory (chain w)))) wallet peer) = None)
    by (destruct Hacc as (_&_&_&_&_&_&_&_&_&_&Hv&_); exact Hv).
  pose proof Hcur as (Hnz & _ & s & Hdep' & Ht).
  pose proof Hnew as (Hnz' & _).
  assert (Hs : s = old) by congruence. subst s.
  eexists. eexists. split; [|split; [|split]].
  - unfold getOrCreateSession, rpc. rewrite (Hrpc CallGetSessionBetween), Hget.
    rewrite (neq_eqb_false _ _ Hnz). cbn [negb].
    rewrite (Hrpc CallCreatedAt). unfold session_at. rewrite Hdep. cbn [bind]. rewrite Ht.
    replace (now env - t >? ONE_HOUR) with true
      by (symmetry; rewrite Z.gtb_ltb; apply Z.ltb_lt; lia).
    unfold createSession, rpc.
    rewrite (Hrpc CallEstimateGas), (Hrpc CallSendTransaction), Hcreate.
    rewrite (Hrpc CallGetSessionBetween), Hget'.
    rewrite (neq_eqb_false _ _ Hnz'). reflexivity.
  - reflexivity.
  - cbn [contractAddress]. intros Heq. rewrite Heq in Hvac. congruence.
  - exact Hnew.
Qed.

(** C5, as amended.  A session that [createSession] returns has
    [existed = false] and is the pair's current channel.  While the pair's
    current channel is at most one hour old by the local clock, or its
    creation time cannot be read, [getOrCreateSession] returns that channel
    with [existed = true] and leaves the chain as it is, so a second call
    within the hour returns the same address.  When the creation time is
    read, more than an hour has elapsed and the factory accepts a new
    session, it returns a channel with a different address and
    [existed = false], which is then the pair's current channel. *)
Theorem getOrCreateSession_lifecycle :
  (forall env w peer r w',
     createSession wallet env w peer = (Ok r, w') ->
     existed r = false /\
     is_current wallet (chain w') peer (contractAddress r) (timestamp (block env))) /\
  (forall env1 env2 w peer channel t,
     is_current wallet (chain w) peer channel t ->
     answered env1 CallGetSessionBetween = true ->
     answered env2 CallGetSessionBetween = true ->
     (answered env1 CallCreatedAt = true -> now env1 - t <= ONE_HOUR) ->
     (answered env2 CallCreatedAt = true -> now env2 - t <= ONE_HOUR) ->
     exists w1 w2,
       getOrCreateSession wallet env1 w peer
       = (Ok {| contractAddress := channel; existed := true |}, w1) /\
       getOrCreateSession wallet env2 w1 peer
       = (Ok {| contractAddress := channel; existed := true |}, w2) /\
       chain w2 = chain w) /\
  (forall env w peer channel t old,
     is_current wallet (chain w) peer channel t ->
     deployed (chain w) channel = Some old ->
     all_answered env ->
     now env - t > ONE_HOUR ->
     accepts_renewal wallet (chain w) (block env) peer old ->
     exists r w',
       getOrCreateSession wallet env w peer = (Ok r, w') /\
       existed r = false /\
       contractAddress r <> channel /\
       is_current wallet (chain w') peer (contractAddress r) (timestamp (block env))).
Proof.
  split; [|split].
  - intros env w peer r w' Hc.
    destruct (createSession_creates env w w' peer r Hc) as (He & Hcur & _). auto.
  - intros env1 env2 w peer channel t Hcur H1 H2 Ha1 Ha2.
    pose proof (getOrCreateSession_reuses env1 w peer channel t Hcur H1 Ha1) as Hr1.
    set (w1 := snd (reuse wallet w peer channel)).
    assert (Hcur1 : is_current wallet (chain w1) peer channel t) by exact Hcur.
    pose proof (getOrCreateSession_reuses env2 w1 peer channel t Hcur1 H2 Ha2) as Hr2.
    exists w1, (snd (reuse wallet w1 peer channel)).
    rewrite Hr1, Hr2. repeat split.
  - exact getOrCreateSession_renews.
Qed.

(** C10.  [getOrCreateSession] does not look at the ledger's [isActive]
    flag: whenever the pair's channel is nonzero, deployed and at most one
    hour old (or its age cannot be read), it is returned with
    [existed = true], whatever its [sessionActive] flag; when the flag is
    off, that channel rejects every message of a participant with
    "Session closed". *)
Theorem closed_session_is_reused
  (env : Env) (w : World) (peer channel : address) (s : ChatSession) :
  channel <> ZeroAddress ->
  current_channel wallet (chain w) peer = channel ->
  deployed (chain w) channel = Some s ->
  answered env CallGetSessionBetween = true ->
  (answered env CallCreatedAt = true -> now env - createdAt s <= ONE_HOUR) ->
  fst (getOrCreateSession wallet env w peer)
  = Ok {| contractAddress := channel; existed := true |} /\
  (sessionActive s = false ->
   (exists sid, getSessionBetween (chain w) (block env) wallet peer
                = Ok (sid, channel, false)) /\
   forall blk sender cid expiry isMedia messageType,
     onlyParticipants s sender = Ok tt ->
     sendMessage s blk sender cid expiry isMedia messageType = Throw "Session closed").
Proof.
  intros Hnz Hcur Hdep Hrpc Hage.
  assert (Hc : is_current wallet (chain w) peer channel (createdAt s))
    by (split; [exact Hnz | split; [exact Hcur | eauto]]).
  split.
  - rewrite (getOrCreateSession_reuses env w peer channel _ Hc Hrpc Hage). reflexivity.
  - intros Hclosed. split.
    + unfold getSessionBetween. unfold current_channel in Hcur. rewrite Hcur.
      unfold ZeroAddress in Hnz. rewrite (neq_eqb_false _ _ Hnz). cbn [negb]. unfold session_at.
      rewrite Hdep. cbn [bind]. rewrite Hclosed. eauto.
    + intros blk sender cid expiry isMedia messageType Hp.
      unfold sendMessage, sessionMustBeActive. rewrite Hp, Hclosed. reflexivity.
Qed.

End SessionTheorems.

(** ** Sorting and loops *)

Section SortProofs.
Import Conversation.

Lemma insert_sorted_perm {A : Type} (compare : A -> A -> Z) (x : A) (l : list A) :
  Permutation (x :: l) (insert_sorted compare x l).
Proof.
  induction l as [|y r IH]; cbn [insert_sorted]; [reflexivity|].
  destruct (compare x y <=? 0); [reflexivity|].
  transitivity (y :: x :: r); [apply perm_swap | apply perm_skip; exact IH].
Qed.

Lemma Array_sort_perm {A : Type} (compare : A -> A -> Z) (l : list A) :
  Permutation l (Array_sort compare l).
Proof.
  induction l as [|x r IH]; cbn [Array_sort fold_right]; [reflexivity|].
  fold (Array_sort compare r).
  transitivity (x :: Array_sort compare r);
    [apply perm_skip; exact IH | apply insert_sorted_perm].
Qed.

Lemma insert_sorted_sorted (x : Message) (l : list Message) :
  StronglySorted earlier l -> StronglySorted earlier (insert_sorted by_timestamp x l).
Proof.
  induction 1 as [|y r Hr IH Hy]; cbn [insert_sorted].
  - repeat constructor.
  - unfold by_timestamp at 1. destruct (Z.leb_spec (timestamp x - timestamp y) 0) as [Hle|Hgt].
    + constructor; [constructor; assumption|].
      constructor; [unfold earlier; lia|].
      eapply Forall_impl; [|exact Hy]. unfold earlier. cbn beta. intros z Hz. lia.
    + constructor; [exact IH|].
      eapply Permutation_Forall; [apply insert_sorted_perm|].
      constructor; [unfold earlier; lia | exact Hy].
Qed.

Lemma Array_sort_sorted (l : list Message) :
  StronglySorted earlier (Array_sort by_timestamp l).
Proof.
  induction l as [|x r IH]; cbn [Array_sort fold_right]; [constructor|].
  apply insert_sorted_sorted. exact IH.
Qed.

Lemma insert_sorted_stable (t : Z) (x : Message) (l : list Message) :
  filter (at_timestamp t) (insert_sorted by_timestamp x l)
  = filter (at_timestamp t) (x :: l).
Proof.
  induction l as [|y r IH]; cbn [insert_sorted]; [reflexivity|].
  unfold by_timestamp at 1. destruct (Z.leb_spec (timestamp x - timestamp y) 0) as [Hle|Hgt];
    [reflexivity|].
  cbn [filter] in IH |- *. rewrite IH. unfold at_timestamp.
  destruct (Z.eqb_spec (timestamp x) t) as [Hx|Hx];
    destruct (Z.eqb_spec (timestamp y) t) as [Hy|Hy]; try reflexivity.
  lia.
Qed.

Lemma Array_sort_stable (t : Z) (l : list Message) :
  filter (at_timestamp t) (Array_sort by_timestamp l) = filter (at_timestamp t) l.
Proof.
  induction l as [|x r IH]; cbn [Array_sort fold_right]; [reflexivity|].
  fold (Array_sort by_timestamp r). rewrite insert_sorted_stable.
  cbn [filter]. rewrite IH. reflexivity.
Qed.

(** The loop runs while its condition holds: the bound on the rounds is
    never what stops it. *)
Lemma for_range_unfold {S : Type} (start stop step : Z) (body : Z -> S -> S) (s : S) :
  0 < step ->
  for_range start stop step body s
  = if start <=? stop then for_range (start + step) stop step body (body start s) else s.
Proof.
  intros Hstep. unfold for_range.
  destruct (Z.leb_spec start stop) as [Hle|Hgt].
  - replace ((stop - start) / step + 1) with (Z.succ ((stop - (start + step)) / step + 1)).
    + rewrite Z2Nat.inj_succ.
      * cbn [for_loop]. apply Z.leb_le in Hle. rewrite Hle. reflexivity.
      * assert (-1 <= (stop - (start + step)) / step); [|lia].
        apply Z.div_le_lower_bound; lia.
    + replace (stop - start) with ((stop - (start + step)) + 1 * step) by lia.
      rewrite Z.div_add by lia. lia.
  - assert ((stop - start) / step < 0) by (apply Z.div_lt_upper_bound; lia).
    replace (Z.to_nat ((stop - start) / step + 1)) with O by lia. reflexivity.
Qed.

Lemma for_loop_invariant {S : Type} (P : S -> Prop) (body : Z -> S -> S) :
  (forall i s, P s -> P (body i s)) ->
  forall rounds i stop step s, P s -> P (for_loop rounds i stop step body s).
Proof.
  intros Hbody. induction rounds as [|n IH]; intros i stop step s Hs; cbn [for_loop];
    [exact Hs|].
  destruct (i <=? stop); [apply IH, Hbody, Hs | exact Hs].
Qed.

End SortProofs.

(** ** The session scan *)

Section ScanTheorems.
Import Conversation SessionMessages.
Context `{P : Provider}.

(** The retry loop leaves the collected messages as they are. *)
Lemma retry_chunk_adds_nothing (sessionAddress : string) (block toBlock : Z)
  (messages : list Message) :
  retry_chunk sessionAddress block toBlock messages = messages.
Proof.
  unfold retry_chunk, for_range.
  apply (for_loop_invariant (fun s => s = messages)); [|reflexivity].
  intros i s ->. reflexivity.
Qed.

(** A round of the scan only appends. *)
Lemma scan_chunk_keeps_collected (sessionAddress : string) (currentBlock block : Z)
  (messages : list Message) :
  exists added,
    scan_chunk sessionAddress currentBlock block messages = (messages ++ added)%list.
Proof.
  unfold scan_chunk.
  destruct (queryFilter sessionAddress block _) as [events|message].
  - eexists. reflexivity.
  - exists []. rewrite app_nil_r.
    destruct (includes message "too large" || includes message "range");
      [apply retry_chunk_adds_nothing | reflexivity].
Qed.

(** A round appends the events of the chunk's own query when it is
    accepted, and nothing otherwise. *)
Lemma scan_chunk_appends_own_query (sessionAddress : string) (currentBlock block : Z)
  (messages : list Message) :
  scan_chunk sessionAddress currentBlock block messages
  = match queryFilter sessionAddress block (Z.min (block + chunkSize - 1) currentBlock) with
    | Ok events => push_events sessionAddress messages events
    | Throw _ => messages
    end.
Proof.
  unfold scan_chunk.
  destruct (queryFilter sessionAddress block _) as [events|message]; [reflexivity|].
  destruct (includes message "too large" || includes message "range");
    [apply retry_chunk_adds_nothing | reflexivity].
Qed.

(** C6, the behaviour of the code.  When the query of a chunk is rejected,
    whatever the message, the round collects nothing from the chunk's
    range: the retry in 100-block ranges never reaches the provider, so
    the events that those smaller queries would return are lost; what was
    collected before is kept and the scan goes on. *)
Theorem rejected_chunk_collects_nothing
  (sessionAddress : string) (currentBlock block : Z) (messages : list Message)
  (message : string) :
  queryFilter sessionAddress block (Z.min (block + chunkSize - 1) currentBlock)
  = Throw message ->
  scan_chunk sessionAddress currentBlock block messages = messages.
Proof.
  intros Hq. unfold scan_chunk. rewrite Hq.
  destruct (includes message "too large" || includes message "range");
    [apply retry_chunk_adds_nothing | reflexivity].
Qed.

End ScanTheorems.

(** ** Merging and showing the conversation *)

Section ReplayTheorems.
Import Conversation SessionMessages MainMessages Replay.

Lemma fetch_messages_main `{ChatReader} (messageIds : list Z) (messages : list Message) :
  Forall (fun m => source m = "main") messages ->
  Forall (fun m => source m = "main") (fetch_messages messageIds messages).
Proof.
  revert messages. induction messageIds as [|i r IH]; intros messages Hm;
    cbn [fetch_messages]; [exact Hm|].
  destruct (getMessage i) as [data|e]; apply IH; [|exact Hm].
  apply Forall_app. split; [exact Hm | repeat constructor].
Qed.

Lemma scan_chunk_session `{Provider} (sessionAddress : string) (currentBlock block : Z)
  (messages : list Message) :
  Forall (fun m => source m = "session") messages ->
  Forall (fun m => source m = "session")
    (scan_chunk sessionAddress currentBlock block messages).
Proof.
  intros Hm. unfold scan_chunk.
  destruct (queryFilter sessionAddress block _) as [events|message].
  - unfold push_events. apply Forall_app. split; [exact Hm|].
    apply Forall_map. apply Forall_forall. reflexivity.
  - destruct (includes message "too large" || includes message "range");
      [rewrite retry_chunk_adds_nothing|]; exact Hm.
Qed.

Lemma getSessionMessagesWithLimit_session `{Provider} (sessionAddress : string)
  (fromBlock : Z) :
  Forall (fun m => source m = "session")
    (getSessionMessagesWithLimit sessionAddress fromBlock).
Proof.
  unfold getSessionMessagesWithLimit.
  destruct getBlockNumber as [currentBlock|e]; [|constructor].
  eapply Permutation_Forall; [apply Array_sort_perm|].
  unfold for_range.
  apply (for_loop_invariant (Forall (fun m => source m = "session"))); [|constructor].
  intros i s Hs. apply scan_chunk_session. exact Hs.
Qed.

(** C7.  The merged listing is the concatenation of the main-contract
    messages and the session messages, sorted by creation time: it is a
    permutation of the concatenation, ascending, and stable (messages of
    equal creation time keep their order of arrival).  The messages are the
    objects that the two readers built, which carry ['main'] and
    ['session'] as their source.  Main-contract messages created at 5, 1, 3
    and session messages created at 2, 4 are listed as 1, 2, 3, 4, 5 with
    sources main, session, main, session, main. *)
Theorem merge_sorts_by_timestamp :
  (forall standardMessages sessionMessages,
     Permutation (standardMessages ++ sessionMessages)
       (merge standardMessages sessionMessages) /\
     StronglySorted earlier (merge standardMessages sessionMessages) /\
     forall t,
       filter (at_timestamp t) (merge standardMessages sessionMessages)
       = filter (at_timestamp t) (standardMessages ++ sessionMessages)) /\
  (forall (R : ChatReader) messageIds,
     Forall (fun m => source m = "main") (fetch_messages messageIds [])) /\
  (forall (P : Provider) sessionAddress fromBlock,
     Forall (fun m => source m = "session")
       (getSessionMessagesWithLimit sessionAddress fromBlock)) /\
  map (fun m => (timestamp m, source m))
    (merge [main_message 0 (Listing.record_at 5); main_message 1 (Listing.record_at 1);
            main_message 2 (Listing.record_at 3)]
           [session_message "0x5e55" (Listing.event_at 2);
            session_message "0x5e55" (Listing.event_at 4)])
  = [(1, "main"); (2, "session"); (3, "main"); (4, "session"); (5, "main")].
Proof.
  split; [|split; [|split]].
  - intros standardMessages sessionMessages. unfold merge. split; [|split].
    + apply Array_sort_perm.
    + apply Array_sort_sorted.
    + intros t. apply Array_sort_stable.
  - intros R messageIds. apply fetch_messages_main. constructor.
  - intros P sessionAddress fromBlock. apply getSessionMessagesWithLimit_session.
  - reflexivity.
Qed.

Section Showing.
Context `{C : Secp256k1} `{Sh : Sha256} `{Na : Sodium} `{J : Json}.
Variable walletAddress privateKey : string.

Lemma isExpired_true (currentTime : Z) (message : Message) :
  expiry message <> 0 -> 0 <= expiry message -> expiry message < currentTime ->
  isExpired currentTime message = true.
Proof.
  intros Hnz Hpos Hlt. unfold isExpired.
  rewrite (neq_eqb_false _ _ Hnz). cbn [negb andb].
  rewrite !Z.gtb_ltb.
  replace (0 <? expiry message) with true by (symmetry; apply Z.ltb_lt; lia).
  replace (expiry message <? currentTime) with true by (symmetry; apply Z.ltb_lt; lia).
  reflexivity.
Qed.

Lemma isExpired_zero (currentTime : Z) (message : Message) :
  expiry message = 0 -> isExpired currentTime message = false.
Proof. intros Hz. unfold isExpired. rewrite Hz. reflexivity. Qed.

Lemma show_from_decryptions (currentTime : Z) (messages : list Message) :
  forall index out,
    decryptions (show_from walletAddress privateKey currentTime index messages out)
    = (decryptions out
       ++ map (fun m => (cid m, from m))
            (filter (fun m => negb (isExpired currentTime m)) messages))%list.
Proof.
  induction messages as [|m r IH]; intros index out; cbn [show_from filter map].
  - rewrite app_nil_r. reflexivity.
  - rewrite IH. unfold show_message.
    destruct (isExpired currentTime m); cbn [negb decryptions map];
      [reflexivity | rewrite <- app_assoc; reflexivity].
Qed.

(** C8, as amended.  A message whose expiry is nonzero and earlier than the
    current time is shown by two lines, its position with its creation time
    and the notice that the content is hidden; nothing else about it is
    printed, [decryptFromSender] is not called for it and the counters stay
    as they are.  A message whose expiry is 0 is not expired: it is
    decrypted and shown with its content.  Over a whole listing,
    [decryptFromSender] is called exactly for the messages that are not
    expired, in order. *)
Theorem expired_message_is_hidden
  (currentTime : Z) (index : nat) (message : Message) (out : Output) :
  (expiry message <> 0 -> 0 <= expiry message -> expiry message < currentTime ->
   show_message walletAddress privateKey currentTime index message out
   = {| lines := (lines out
                  ++ [ExpiredHeader (index + 1) (timestamp message); ContentHidden])%list;
        decryptions := decryptions out;
        displayedCount := displayedCount out;
        failedCount := failedCount out |}) /\
  (expiry message = 0 ->
   isExpired currentTime message = false /\
   let shown := show_message walletAddress privateKey currentTime index message out in
   decryptions shown = (decryptions out ++ [(cid message, from message)])%list /\
   In (Content (EncryptionService.decryptFromSender (cid message) privateKey (from message)))
      (lines shown)) /\
  (forall messages,
     decryptions (show_from walletAddress privateKey currentTime index messages out)
     = (decryptions out
        ++ map (fun m => (cid m, from m))
             (filter (fun m => negb (isExpired currentTime m)) messages))%list).
Proof.
  split; [|split].
  - intros Hnz Hpos Hlt. unfold show_message.
    rewrite (isExpired_true currentTime message Hnz Hpos Hlt). reflexivity.
  - intros Hz. pose proof (isExpired_zero currentTime message Hz) as He.
    split; [exact He|]. cbv zeta. unfold show_message. rewrite He.
    cbn [decryptions lines]. split; [reflexivity|].
    apply in_or_app. right. right. left. reflexivity.
  - intros messages. apply show_from_decryptions.
Qed.

End Showing.
End ReplayTheorems.

(** ** The empty message *)

Section EmptyMessage.
Import EncryptionService Commands.
Context `{C : Secp256k1} `{!Secp256k1Laws} `{Sh : Sha256} `{!Sha256Laws}
        `{Na : Sodium} `{!SodiumLaws} `{J : Json} `{!JsonLaws}
        `{Sv : SendServices}.

(** C3, as amended.  [encryptForRecipient] has no check for the empty
    plaintext: between identities of the testing table it returns an
    envelope for it, which [decryptFromSender] answers with the
    undecryptable sentinel.  The empty message is refused by the callers:
    [sendCommand] throws before it connects, encrypts or touches the ledger,
    and the command line does not dispatch to the send handler. *)
Theorem empty_message_is_refused_by_callers :
  (forall addrA privA addrB privB nonce,
     List.length nonce = NPUBBYTES ->
     table_identity addrA privA ->
     table_identity addrB privB ->
     exists env,
       encryptForRecipient EmptyString privA addrB nonce = Ok env /\
       decryptFromSender env privB addrA = UNDECRYPTABLE) /\
  (forall to expiry session nonce,
     sendCommand to (Some EmptyString) expiry session nonce
     = (Throw "Recipient address and message are required", [])) /\
  (forall argv,
     arg_message argv = Some EmptyString ->
     main argv <> HandleSend).
Proof.
  split; [|split].
  - intros addrA privA addrB privB nonce Hn HA HB.
    destruct (table_lookup _ _ HA) as (_ & HvA & _).
    destruct (table_lookup _ _ HB) as (_ & HvB & _).
    destruct (valid_private_key_inv _ HvA) as (_ & _ & HsA).
    destruct (valid_private_key_inv _ HvB) as (_ & _ & HsB).
    pose proof (derived_key_table privA addrB privB HvA HB) as HkA.
    pose proof (derived_key_table privB addrA privA HvB HA) as HkB.
    rewrite <- (dh_commutes _ _ HsA HsB) in HkB.
    set (key := sha256 (x_coord (mul (scalar_of privA) (mulG (scalar_of privB))))) in *.
    destruct (aead_encrypt_defined (from_string EmptyString) nonce key Hn (sha256_length _))
      as (c & Hc).
    exists (JSON_stringify (envelope (to_base64 c) (to_base64 nonce))). split.
    + rewrite encryptForRecipient_derived, HkA. cbn [bind]. rewrite Hc. reflexivity.
    + rewrite (decrypt_sealed EmptyString privB addrA nonce c key key Hn Hc HkB).
      destruct (aead_decrypt_encrypt _ _ _ _ Hc) as [-> _].
      rewrite to_string_from_string. reflexivity.
  - intros to expiry session nonce. unfold sendCommand.
    cbn [given String.eqb negb]. rewrite orb_true_r. reflexivity.
  - intros argv Hm. unfold main. rewrite Hm. cbn [given String.eqb negb].
    rewrite andb_false_r.
    destruct (given (arg_replay argv)); [discriminate|].
    destruct (arg_list_wallets argv); [discriminate|].
    destruct (given (arg_delete_wallet argv)); discriminate.
Qed.

End EmptyMessage.

(** ** The encryption properties on concrete parties *)

Section CryptoInstances.
Import EncryptionService Model Parties.

Lemma table_identity1 : table_identity address1 key1.
Proof. exists address1, key1. cbn. auto. Qed.

Lemma table_identity2 : table_identity address2 key2.
Proof.
  exists address2, (strip0x key2). split; [|split; reflexivity].
  right. left. reflexivity.
Qed.

Lemma generateSharedSecret_commutes_witness :
  valid_private_key key1 = true /\ valid_private_key key2 = true /\
  exists pa pb key,
    getPublicKeyFromPrivate key1 = Ok pa /\
    getPublicKeyFromPrivate key2 = Ok pb /\
    generateSharedSecret key1 pb = Ok key /\
    generateSharedSecret key2 pa = Ok key.
Proof.
  split; [vm_compute; reflexivity|]. split; [vm_compute; reflexivity|].
  apply (generateSharedSecret_commutes key1 key2); vm_compute; reflexivity.
Defined.

Lemma roundtrip_table_identities_witness :
  exists env,
    encryptForRecipient "hello" key1 address2 nonce0 = Ok env /\
    decryptFromSender env key2 address1 = "hello".
Proof.
  apply (roundtrip_table_identities "hello" address1 key1 address2 key2 nonce0).
  - discriminate.
  - reflexivity.
  - exact table_identity1.
  - exact table_identity2.
Defined.

(** C1 as stated fails: the holder of private key 1 is a valid keypair, yet
    no envelope is produced for its address. *)
Lemma roundtrip_fails_outside_table :
  valid_private_key key1 = true /\
  valid_private_key outsider_key = true /\
  encryptForRecipient "hello" key1 outsider_address nonce0
  = Throw "Testing private key not found for address: 0x7E5F4552091A69125d5DfCb7b8C2659029395Bdf".
Proof. vm_compute. repeat split. Qed.

Lemma peer_must_be_in_table_witness :
  in_table outsider_address = false /\
  encryptForRecipient "hello" key1 outsider_address nonce0
  = Throw ("Testing private key not found for address: " ++ outsider_address) /\
  (forall env,
     encryptForRecipient "hello" key1 address2 nonce0 = Ok env ->
     decryptFromSender env key2 outsider_address = UNDECRYPTABLE /\
     is_sentinel env (decryptFromSender env key2 outsider_address) /\
     in_table address2 = true).
Proof.
  destruct (@peer_must_be_in_table additive_group padding_hash transparent_sodium flat_json)
    as (_ & Henc & Hdec & Hsent & Hin).
  split; [reflexivity|]. split; [apply Henc; reflexivity|].
  intros env Henv. split; [|split].
  - vm_compute in Henv. injection Henv as <-.
    eapply Hdec; [reflexivity | vm_compute; reflexivity | vm_compute; reflexivity].
  - apply Hsent. reflexivity.
  - eapply Hin. exact Henv.
Defined.

End CryptoInstances.

(** ** The session properties on a concrete history *)

Section SessionInstances.
Import Ledger SessionManager Model Scenario.

Lemma opened_current : is_current alice (chain opened) bob 1001 1000.
Proof.
  split; [discriminate|]. split; [reflexivity|].
  eexists. split; [vm_compute; reflexivity | reflexivity].
Qed.

Lemma getOrCreateSession_lifecycle_witness :
  (existed (match fst (createSession alice (at_time 1000) fresh bob) with
            | Ok r => r
            | Throw _ => {| contractAddress := 0; existed := true |}
            end) = false) /\
  (exists w1 w2,
     getOrCreateSession alice (at_time 1300) opened bob
     = (Ok {| contractAddress := 1001; existed := true |}, w1) /\
     getOrCreateSession alice (at_time_unreadable 4600) w1 bob
     = (Ok {| contractAddress := 1001; existed := true |}, w2) /\
     chain w2 = chain opened) /\
  (exists r w',
     getOrCreateSession alice (at_time 4601) opened bob = (Ok r, w') /\
     existed r = false /\
     contractAddress r <> 1001 /\
     is_current alice (chain w') bob (contractAddress r) 4601).
Proof.
  destruct (getOrCreateSession_lifecycle (E := counting_evm) alice) as (Hc & Hr & Hn).
  split; [|split].
  - destruct (Hc (at_time 1000) fresh bob
                {| contractAddress := 1001; existed := false |}
                (snd (createSession alice (at_time 1000) fresh bob)))
      as [He _]; [vm_compute; reflexivity|].
    reflexivity.
  - apply (Hr (at_time 1300) (at_time_unreadable 4600) opened bob 1001 1000).
    + exact opened_current.
    + reflexivity.
    + reflexivity.
    + intros _. vm_compute. discriminate.
    + intros Hf. discriminate Hf.
  - eapply (Hn (at_time 4601) opened bob 1001 1000).
    + exact opened_current.
    + vm_compute. reflexivity.
    + intros call. reflexivity.
    + vm_compute. reflexivity.
    + unfold accepts_renewal. vm_compute.
      repeat split; try discriminate; try (intros _; discriminate).
      left. discriminate.
Defined.

(** C5 as stated fails.  More than an hour after the channel's creation the
    call still returns the old channel with [existed = true], both when the
    channel's creation time cannot be read and when the caller already has
    the factory's maximum of 100 sessions. *)
Lemma elapsed_session_still_returned :
  fst (getOrCreateSession alice (at_time_unreadable 9000) opened bob)
  = Ok {| contractAddress := 1001; existed := true |} /\
  List.length (userSessions (factory (chain crowded)) alice) = 100%nat /\
  fst (getOrCreateSession alice (at_time 4601) crowded bob)
  = Ok {| contractAddress := 1001; existed := true |}.
Proof. vm_compute. repeat split. Qed.

Lemma closed_session_is_reused_witness :
  fst (getOrCreateSession alice (at_time 1300) closed bob)
  = Ok {| contractAddress := 1001; existed := true |} /\
  (exists sid, getSessionBetween (chain closed) (block (at_time 1300)) alice bob
               = Ok (sid, 1001, false)) /\
  forall s, deployed (chain closed) 1001 = Some s ->
    sendMessage s (block (at_time 1300)) alice "envelope" 0 false "text"
    = Throw "Session closed".
Proof.
  assert (Hdep : deployed (chain closed) 1001
                 = Some {| participant1 := alice; participant2 := bob; messageCount := 0;
                           sessionActive := false; createdAt := 1000;
                           lastActivity := 1000; sessionExpiry := 4600 |})
    by (vm_compute; reflexivity).
  destruct (closed_session_is_reused (E := counting_evm) alice (at_time 1300) closed bob
              1001 _ ltac:(discriminate) eq_refl Hdep eq_refl
              ltac:(intros _; vm_compute; discriminate))
    as [Hreuse Hclosed].
  destruct (Hclosed eq_refl) as [Hflag Hsend].
  split; [exact Hreuse|]. split; [exact Hflag|].
  intros s Hs. rewrite Hdep in Hs. injection Hs as <-. apply Hsend. reflexivity.
Defined.

End SessionInstances.

(** ** The remaining properties on concrete inputs *)

Section ReplayInstances.
Import EncryptionService Conversation SessionMessages MainMessages Replay Commands.
Import Model Parties Listing.

Lemma decryptFromSender_sentinels_witness :
  decryptFromSender "garbage" key2 address1 = CORRUPTED "garbage" /\
  decryptFromSender sealed_hello key2 address1 = "hello" /\
  decryptFromSender sealed_hello key1 address1 = UNDECRYPTABLE /\
  decryptFromSender sealed_hello key1 address1 <> "hello".
Proof.
  split; [|split].
  - destruct (decryptFromSender_sentinels "garbage" key2 address1) as (Hparse & _).
    apply (Hparse "Unexpected token in JSON"). reflexivity.
  - vm_compute. reflexivity.
  - destruct (decryptFromSender_sentinels sealed_hello key1 address1)
      as (_ & _ & _ & _ & _ & Hkey).
    destruct (Hkey "hello" key1 address2 nonce0
                (sha256 (x_coord (mul (scalar_of key1) (mulG (scalar_of key2))))))
      as [Hr Hne].
    + reflexivity.
    + vm_compute. reflexivity.
    + vm_compute. reflexivity.
    + vm_compute. discriminate.
    + split; [exact Hr|]. apply Hne. discriminate.
Defined.

Lemma empty_message_is_refused_by_callers_witness :
  (exists env,
     encryptForRecipient EmptyString key1 address2 nonce0 = Ok env /\
     decryptFromSender env key2 address1 = UNDECRYPTABLE) /\
  sendCommand (Some address2) (Some EmptyString) 0 false nonce0
  = (Throw "Recipient address and message are required", []) /\
  main {| arg_to := Some address2; arg_message := Some EmptyString;
          arg_session := false; arg_expiry := 0; arg_replay := None;
          arg_list_wallets := false; arg_delete_wallet := None |} <> HandleSend.
Proof.
  destruct (@empty_message_is_refused_by_callers
              additive_group additive_group_laws padding_hash padding_hash_laws
              transparent_sodium transparent_sodium_laws flat_json flat_json_laws
              willing_services) as (Henc & Hsend & Hmain).
  split; [|split].
  - apply (Henc address1 key1 address2 key2 nonce0).
    + reflexivity.
    + exact table_identity1.
    + exact table_identity2.
  - apply Hsend.
  - apply Hmain. reflexivity.
Defined.

(** C3 as stated fails: the empty plaintext is encrypted into an envelope. *)
Lemma empty_message_is_encrypted :
  is_ok (encryptForRecipient EmptyString key1 address2 nonce0) = true /\
  (forall e, encryptForRecipient EmptyString key1 address2 nonce0 <> Throw e).
Proof.
  split; [vm_compute; reflexivity|].
  intros e. vm_compute. discriminate.
Qed.

Lemma rejected_chunk_collects_nothing_witness :
  queryFilter "0x5e55" 0 (Z.min (0 + chunkSize - 1) 1200)
  = Throw "query exceeds max block range: too large" /\
  queryFilter "0x5e55" 0 99 = Ok [early_event] /\
  scan_chunk "0x5e55" 1200 0 [] = [] /\
  getSessionMessagesWithLimit "0x5e55" 0 = [session_message "0x5e55" late_event] /\
  scan_spec "0x5e55" 0
  = [session_message "0x5e55" early_event; session_message "0x5e55" late_event].
Proof.
  split; [reflexivity|]. split; [reflexivity|]. split; [|split].
  - apply (rejected_chunk_collects_nothing (P := limited_provider) "0x5e55" 1200 0 []
             "query exceeds max block range: too large").
    reflexivity.
  - vm_compute. reflexivity.
  - vm_compute. reflexivity.
Defined.

Lemma expired_message_is_hidden_witness :
  show_message address1 key1 1000 0 expired_session start
  = {| lines := [ExpiredHeader 1 800; ContentHidden];
       decryptions := []; displayedCount := 0; failedCount := 0 |} /\
  decryptions (show_message address1 key1 1000 0 (main_message 0 (record_at 5)) start)
  = [("envelope", "0x4B3462da947df564eA5d7bd23f5515fbEB093d55")].
Proof.
  destruct (expired_message_is_hidden (C := additive_group) address1 key1 1000 0
              expired_session start) as (Hexp & _ & _).
  destruct (expired_message_is_hidden (C := additive_group) address1 key1 1000 0
              (main_message 0 (record_at 5)) start) as (_ & Hzero & _).
  split.
  - apply Hexp; [discriminate | discriminate | reflexivity].
  - destruct (Hzero eq_refl) as (_ & Hd & _). exact Hd.
Defined.

(** C8 as stated fails: the lines shown for an expired message name
    neither its sender nor its channel.  Two expired messages of different
    senders and channels are shown alike. *)
Lemma expired_rendering_omits_sender_and_channel :
  from expired_main <> from expired_session /\
  source expired_main <> source expired_session /\
  show_message address1 key1 1000 0 expired_main start
  = show_message address1 key1 1000 0 expired_session start /\
  lines (show_message address1 key1 1000 0 expired_session start)
  = [ExpiredHeader 1 800; ContentHidden].
Proof. repeat split; try discriminate; vm_compute; reflexivity. Qed.

End ReplayInstances.

(** * Further properties of the ledger contracts *)

Section LedgerHistoryProofs.
Import Ledger LedgerHistory.
Context `{E : Evm}.

Lemma session_continues_refl (s : ChatSession) : session_continues s s.
Proof. unfold session_continues. repeat split; auto; lia. Qed.

Lemma session_continues_trans (s1 s2 s3 : ChatSession) :
  session_continues s1 s2 -> session_continues s2 s3 -> session_continues s1 s3.
Proof.
  unfold session_continues.
  intros (a1 & a2 & a3 & a4 & a5 & a6) (b1 & b2 & b3 & b4 & b5 & b6).
  repeat split; try congruence; try lia. auto.
Qed.

Lemma set_active_continues (s : ChatSession) :
  session_continues s (set_active s false) /\
  (session_wf s -> session_wf (set_active s false)).
Proof. unfold session_continues, session_wf. cbn. repeat split; auto; try lia; tauto. Qed.

(** What an accepted message did. *)
Lemma sendMessage_inv (s s' : ChatSession) (blk : Block) (sender : address)
  (cid : string) (expiry : Z) (isMedia : bool) (messageType : string) (ev : MessageSent) :
  sendMessage s blk sender cid expiry isMedia messageType = Ok (s', ev) ->
  (sender = participant1 s \/ sender = participant2 s) /\
  sessionActive s = true /\
  timestamp blk < sessionExpiry s /\
  cid <> EmptyString /\ messageType <> EmptyString /\
  (0 < expiry -> timestamp blk < expiry) /\
  s' = {| participant1 := participant1 s; participant2 := participant2 s;
          messageCount := messageCount s + 1; sessionActive := true;
          createdAt := createdAt s; lastActivity := timestamp blk;
          sessionExpiry := sessionExpiry s |} /\
  ev = {| ev_from := sender; ev_cid := cid; ev_timestamp := timestamp blk;
          ev_expiry := expiry; ev_messageIndex := messageCount s;
          ev_isMedia := isMedia; ev_messageType := messageType |}.
Proof.
  unfold sendMessage, onlyParticipants, sessionMustBeActive.
  destruct ((sender =? participant1 s) || (sender =? participant2 s)) eqn:Hp;
    [|discriminate]. cbn [bind].
  destruct (sessionActive s) eqn:Ha; [|discriminate]. cbn [negb].
  destruct (Z.ltb_spec (timestamp blk) (sessionExpiry s)) as [Hlt|]; [|discriminate].
  cbn [negb bind].
  destruct cid as [|c0 cid]; [discriminate|].
  destruct messageType as [|m0 messageType]; [discriminate|].
  cbn [String.length Nat.eqb].
  destruct ((0 <? expiry) && negb (timestamp blk <? expiry)) eqn:He; [discriminate|].
  unfold checked_add. destruct (messageCount s + 1 <=? UINT256_MAX); [|discriminate].
  cbn [bind]. intros Heq. injection Heq as <- <-.
  split.
  { apply orb_true_iff in Hp as [Hp|Hp]; apply Z.eqb_eq in Hp; auto. }
  repeat split; try discriminate; trivial.
  intros Hpos. apply andb_false_iff in He as [He|He].
  - apply Z.ltb_ge in He. lia.
  - apply negb_false_iff, Z.ltb_lt in He. exact He.
Qed.

Lemma sendMessage_continues (s s' : ChatSession) (blk : Block) (sender : address)
  (cid : string) (expiry : Z) (isMedia : bool) (messageType : string) (ev : MessageSent) :
  sendMessage s blk sender cid expiry isMedia messageType = Ok (s', ev) ->
  session_continues s s' /\ (session_wf s -> session_wf s').
Proof.
  intros Hs. destruct (sendMessage_inv _ _ _ _ _ _ _ _ _ Hs)
    as (_ & Ha & _ & _ & _ & _ & -> & _).
  unfold session_continues, session_wf. cbn.
  repeat split; auto; try lia; try tauto. congruence.
Qed.

Lemma closeSession_continues (s s' : ChatSession) (sender : address) :
  closeSession s sender = Ok s' ->
  session_continues s s' /\ (session_wf s -> session_wf s').
Proof.
  unfold closeSession. destruct (onlyParticipants s sender); [|discriminate].
  cbn [bind]. intros Heq. injection Heq as <-. apply set_active_continues.
Qed.

Lemma forceExpireSession_continues (s s' : ChatSession) (blk : Block) :
  forceExpireSession s blk = Ok s' ->
  session_continues s s' /\ (session_wf s -> session_wf s').
Proof.
  unfold forceExpireSession.
  destruct (negb (sessionExpiry s <=? timestamp blk)); [discriminate|].
  destruct (negb (sessionActive s)); [discriminate|].
  intros Heq. injection Heq as <-. apply set_active_continues.
Qed.

(** A transaction that replaces the session at one address by a
    continuation of it keeps the storage well formed. *)
Lemma replace_session_wf (c : Chain) (f : Factory) (a : address) (s s' : ChatSession) :
  chain_wf c ->
  deployed c a = Some s ->
  session_continues s s' -> (session_wf s -> session_wf s') ->
  sessionContracts f = sessionContracts (factory c) ->
  participantPairToSession f = participantPairToSession (factory c) ->
  chain_wf {| factory := f; deployed := upd (deployed c) a (Some s') |}.
Proof.
  intros (Hsym & Hdep & Hwf) Ha Hcont Hkeep Hsc Hpp.
  unfold chain_wf. cbn [factory deployed]. rewrite Hsc, Hpp.
  split; [exact Hsym|]. split.
  - intros id Hid. destruct (Hdep id Hid) as (s0 & Hs0). unfold upd.
    destruct (sessionContracts (factory c) id =? a); eauto.
  - intros b sb. unfold upd. destruct (Z.eqb_spec b a) as [->|Hne].
    + intros Heq. injection Heq as <-. apply Hkeep. eapply Hwf. exact Ha.
    + apply Hwf.
Qed.

Lemma replace_session_continues (c : Chain) (f : Factory) (a : address)
  (s s' : ChatSession) :
  deployed c a = Some s ->
  session_continues s s' ->
  forall b sb, deployed c b = Some sb ->
    exists sb', upd (deployed c) a (Some s') b = Some sb' /\ session_continues sb sb'.
Proof.
  intros Ha Hcont b sb Hb. unfold upd. destruct (Z.eqb_spec b a) as [->|Hne].
  - exists s'. split; [reflexivity|]. congruence.
  - exists sb. split; [exact Hb | apply session_continues_refl].
Qed.

(** The storage that an accepted creation leaves. *)
Lemma createChatSession_shape (c c' : Chain) (blk : Block) (sender participant a : address)
  (id : bytes32) :
  createChatSession c blk sender participant = Ok (a, id, c') ->
  participant <> sender /\
  deployed c a = None /\
  exists new,
    ChatSession_constructor blk sender participant = Ok new /\
    deployed c' = upd (deployed c) a (Some new) /\
    sessionContracts (factory c') = upd (sessionContracts (factory c)) id a /\
    participantPairToSession (factory c')
    = upd2 (upd2 (participantPairToSession (factory c)) sender participant id)
        participant sender id /\
    totalSessions (factory c') = totalSessions (factory c) + 1.
Proof.
  unfold createChatSession.
  destruct (participant =? 0); [discriminate|].
  destruct (Z.eqb_spec participant sender) as [|Hps]; [discriminate|].
  destruct (negb _); [discriminate|].
  destruct (negb _); [discriminate|].
  destruct (check_existing c blk sender participant) as [active|e]; [|discriminate].
  cbn [bind].
  destruct (deployed c (create2_address _ sender participant)) eqn:Hvac; [discriminate|].
  destruct (ChatSession_constructor blk sender participant) as [new|e]; [|discriminate].
  cbn [bind]. unfold checked_add.
  destruct (totalSessions (factory c) + 1 <=? UINT256_MAX); [|discriminate]. cbn [bind].
  destruct (active + 1 <=? UINT256_MAX); [|discriminate]. cbn [bind].
  intros Heq. injection Heq as <- <- <-.
  split; [exact Hps|]. split; [exact Hvac|].
  exists new. cbn [factory deployed sessionContracts participantPairToSession totalSessions].
  repeat split.
Qed.

Lemma ChatSession_constructor_wf (blk : Block) (p1 p2 : address) (s : ChatSession) :
  ChatSession_constructor blk p1 p2 = Ok s ->
  session_wf s /\ createdAt s = timestamp blk /\ sessionActive s = true /\
  messageCount s = 0 /\ participant1 s = p1 /\ participant2 s = p2.
Proof.
  unfold ChatSession_constructor.
  destruct (Z.eqb_spec p1 0) as [|H1]; [discriminate|].
  destruct (Z.eqb_spec p2 0) as [|H2]; [discriminate|]. cbn [negb andb].
  destruct (Z.eqb_spec p1 p2) as [|H12]; [discriminate|].
  unfold checked_add. destruct (timestamp blk + SESSION_DURATION <=? UINT256_MAX);
    [|discriminate].
  cbn [bind]. intros Heq. injection Heq as <-. unfold session_wf. cbn.
  repeat split; auto. lia.
Qed.

Lemma upd2_symmetric (m : Z -> Z -> Z) (s p id : Z) :
  (forall a b, m a b = m b a) ->
  forall a b, upd2 (upd2 m s p id) p s id a b = upd2 (upd2 m s p id) p s id b a.
Proof.
  intros Hm a b. unfold upd2.
  destruct (Z.eqb_spec a p), (Z.eqb_spec b s), (Z.eqb_spec b p), (Z.eqb_spec a s);
    cbn [andb]; subst; try reflexivity; try congruence; apply Hm.
Qed.

Lemma createChatSession_wf (c c' : Chain) (blk : Block) (sender participant a : address)
  (id : bytes32) :
  chain_wf c ->
  createChatSession c blk sender participant = Ok (a, id, c') ->
  chain_wf c'.
Proof.
  intros (Hsym & Hdep & Hwf) Hc.
  destruct (createChatSession_shape _ _ _ _ _ _ _ Hc)
    as (_ & Hvac & new & Hnew & Hd & Hsc & Hpp & _).
  destruct (ChatSession_constructor_wf _ _ _ _ Hnew) as (Hnwf & _).
  unfold chain_wf. rewrite Hd, Hsc, Hpp. split; [|split].
  - apply upd2_symmetric. exact Hsym.
  - intros id'. unfold upd. destruct (Z.eqb_spec id' id) as [->|Hne].
    + intros _. rewrite Z.eqb_refl. eauto.
    + intros Hid. destruct (Hdep id' Hid) as (s0 & Hs0).
      destruct (sessionContracts (factory c) id' =? a); eauto.
  - intros b sb. unfold upd. destruct (Z.eqb_spec b a) as [->|Hne].
    + intros Heq. injection Heq as <-. exact Hnwf.
    + apply Hwf.
Qed.

Lemma cleanupExpiredSessions_keeps (sessionIds : list bytes32) :
  forall (c c' : Chain) (blk : Block),
    cleanupExpiredSessions c blk sessionIds = Ok c' ->
    sessionContracts (factory c') = sessionContracts (factory c) /\
    userSessions (factory c') = userSessions (factory c) /\
    participantPairToSession (factory c') = participantPairToSession (factory c) /\
    totalSessions (factory c') = totalSessions (factory c) /\
    (chain_wf c -> chain_wf c') /\
    (forall b sb, deployed c b = Some sb ->
       exists sb', deployed c' b = Some sb' /\ session_continues sb sb').
Proof.
  induction sessionIds as [|id rest IH]; intros c c' blk; cbn [cleanupExpiredSessions].
  - intros Heq. injection Heq as <-.
    do 4 (split; [reflexivity|]). split; [auto|].
    intros b sb Hb. exists sb. split; [exact Hb | apply session_continues_refl].
  - destruct (negb (sessionContracts (factory c) id =? 0)); [|apply IH].
    destruct (session_at c (sessionContracts (factory c) id)) as [session|e] eqn:Hat;
      [|discriminate]. cbn [bind].
    destruct (isSessionExpired session blk && sessionActive session); [|apply IH].
    destruct (forceExpireSession session blk) as [session'|e] eqn:Hf; [|discriminate].
    cbn [bind].
    destruct (checked_sub (activeSessions (factory c)) 1) as [active|e]; [|discriminate].
    cbn [bind]. intros Hrest.
    destruct (IH _ _ _ Hrest) as (H1 & H2 & H3 & H4 & H5 & H6).
    cbn [factory set_activeSessions sessionContracts userSessions
           participantPairToSession totalSessions deployed] in H1, H2, H3, H4, H6.
    unfold session_at in Hat.
    destruct (deployed c (sessionContracts (factory c) id)) as [s0|] eqn:Hd0;
      [|discriminate]. injection Hat as ->.
    destruct (forceExpireSession_continues _ _ _ Hf) as [Hcont Hkeep].
    do 4 (split; [assumption|]). split.
    + intros Hwf. apply H5.
      eapply replace_session_wf; eauto.
    + intros b sb Hb.
      destruct (replace_session_continues c (factory c) _ _ _ Hd0 Hcont b sb Hb)
        as (sb1 & Hb1 & Hc1).
      destruct (H6 b sb1 Hb1) as (sb2 & Hb2 & Hc2).
      exists sb2. split; [exact Hb2 | eapply session_continues_trans; eauto].
Qed.

(** Every accepted transaction keeps the storage well formed and continues
    every deployed session. *)
Lemma step_keeps (c c' : Chain) (emitted : list (address * MessageSent)) :
  step c emitted c' ->
  (chain_wf c -> chain_wf c') /\
  (forall b sb, deployed c b = Some sb ->
     exists sb', deployed c' b = Some sb' /\ session_continues sb sb').
Proof.
  intros Hstep. destruct Hstep
    as [c blk sender participant a id c' Hc
       |c blk a sender cid expiry isMedia messageType c' ev Hs
       |c a sender c' Hcl
       |c blk a c' Hf
       |c blk sessionIds c' Hcu].
  - split; [intros Hwf; eapply createChatSession_wf; eauto|].
    destruct (createChatSession_shape _ _ _ _ _ _ _ Hc) as (_ & Hvac & new & _ & Hd & _).
    intros b sb Hb. rewrite Hd. unfold upd.
    destruct (Z.eqb_spec b a) as [->|Hne]; [congruence|].
    exists sb. split; [exact Hb | apply session_continues_refl].
  - unfold sendMessageAt, session_at in Hs.
    destruct (deployed c a) as [s|] eqn:Hd; [|discriminate]. cbn [bind] in Hs.
    destruct (sendMessage s blk sender cid expiry isMedia messageType) as [[s' ev']|e] eqn:Hm;
      [|discriminate].
    cbn [bind fst snd] in Hs. injection Hs as <- <-.
    destruct (sendMessage_continues _ _ _ _ _ _ _ _ _ Hm) as [Hcont Hkeep].
    split; [intros Hwf; eapply replace_session_wf; eauto|].
    apply (replace_session_continues c (factory c) a s s' Hd Hcont).
  - unfold closeSessionAt, session_at in Hcl.
    destruct (deployed c a) as [s|] eqn:Hd; [|discriminate]. cbn [bind] in Hcl.
    destruct (closeSession s sender) as [s'|e] eqn:Hm; [|discriminate].
    cbn [bind] in Hcl. injection Hcl as <-.
    destruct (closeSession_continues _ _ _ Hm) as [Hcont Hkeep].
    split; [intros Hwf; eapply replace_session_wf; eauto|].
    apply (replace_session_continues c (factory c) a s s' Hd Hcont).
  - unfold forceExpireSessionAt, session_at in Hf.
    destruct (deployed c a) as [s|] eqn:Hd; [|discriminate]. cbn [bind] in Hf.
    destruct (forceExpireSession s blk) as [s'|e] eqn:Hm; [|discriminate].
    cbn [bind] in Hf. injection Hf as <-.
    destruct (forceExpireSession_continues _ _ _ Hm) as [Hcont Hkeep].
    split; [intros Hwf; eapply replace_session_wf; eauto|].
    apply (replace_session_continues c (factory c) a s s' Hd Hcont).
  - destruct (cleanupExpiredSessions_keeps _ _ _ _ Hcu) as (_ & _ & _ & _ & Hwf & Hcont).
    split; assumption.
Qed.

Lemma evolves_keeps (c c' : Chain) (log : list (address * MessageSent)) :
  evolves c log c' ->
  (chain_wf c -> chain_wf c') /\
  (forall b sb, deployed c b = Some sb ->
     exists sb', deployed c' b = Some sb' /\ session_continues sb sb').
Proof.
  induction 1 as [c|c log c' emitted c'' Hev [IHwf IHc] Hstep].
  - split; [auto|]. intros b sb Hb. exists sb.
    split; [exact Hb | apply session_continues_refl].
  - destruct (step_keeps _ _ _ Hstep) as [Hwf Hc]. split; [auto|].
    intros b sb Hb. destruct (IHc b sb Hb) as (sb1 & Hb1 & Hc1).
    destruct (Hc b sb1 Hb1) as (sb2 & Hb2 & Hc2).
    exists sb2. split; [exact Hb2 | eapply session_continues_trans; eauto].
Qed.

Lemma genesis_wf : chain_wf genesis.
Proof. unfold chain_wf, genesis. cbn. repeat split; try discriminate; congruence. Qed.

Lemma reachable_wf (c : Chain) : reachable c -> chain_wf c.
Proof. intros (log & Hev). apply (evolves_keeps _ _ _ Hev). apply genesis_wf. Qed.

End LedgerHistoryProofs.

Section LedgerHistoryTheorems.
Import Ledger LedgerHistory.
Context `{E : Evm}.

(** X1.  On every chain that accepted transactions lead to, [getSessionBetween]
    answers, and it answers alike for a pair and for the reversed pair. *)
Theorem getSessionBetween_is_symmetric (c : Chain) (blk : Block) (user1 user2 : address) :
  reachable c ->
  exists answer,
    getSessionBetween c blk user1 user2 = Ok answer /\
    getSessionBetween c blk user2 user1 = Ok answer.
Proof.
  intros Hr. destruct (reachable_wf c Hr) as (Hsym & Hdep & _).
  unfold getSessionBetween. rewrite (Hsym user2 user1).
  set (id := participantPairToSession (factory c) user1 user2).
  destruct (Z.eqb_spec (sessionContracts (factory c) id) 0) as [Hz|Hnz]; cbn [negb].
  - eexists. split; reflexivity.
  - destruct (Hdep id Hnz) as (s & Hs). unfold session_at. rewrite Hs. cbn [bind].
    eexists. split; reflexivity.
Qed.

(** X2.  A deployed session's deadline is its creation time plus one hour, and
    no later transaction changes its participants, creation time or
    deadline, lowers its message count or turns its active flag back on. *)
Theorem session_deadline_is_fixed (c c' : Chain) (log : list (address * MessageSent))
  (a : address) (s : ChatSession) :
  reachable c ->
  evolves c log c' ->
  deployed c a = Some s ->
  sessionExpiry s = createdAt s + SESSION_DURATION /\
  exists s',
    deployed c' a = Some s' /\
    participant1 s' = participant1 s /\ participant2 s' = participant2 s /\
    createdAt s' = createdAt s /\ sessionExpiry s' = sessionExpiry s /\
    messageCount s <= messageCount s' /\
    (sessionActive s = false -> sessionActive s' = false).
Proof.
  intros Hr Hev Hd. destruct (reachable_wf c Hr) as (_ & _ & Hwf).
  split; [apply (Hwf a s Hd)|].
  destruct (evolves_keeps _ _ _ Hev) as [_ Hc].
  destruct (Hc a s Hd) as (s' & Hs' & Hcont). exists s'. split; [exact Hs'|exact Hcont].
Qed.

(** X3.  A session that is closed, or whose deadline a block has reached,
    accepts no message in that block at any later state of the chain,
    whoever sends it. *)
Theorem closed_or_expired_session_rejects
  (c c' : Chain) (log : list (address * MessageSent)) (a : address) (s : ChatSession)
  (blk : Block) (sender : address) (cid : string) (expiry : Z) (isMedia : bool)
  (messageType : string) :
  evolves c log c' ->
  deployed c a = Some s ->
  sessionActive s = false \/ sessionExpiry s <= timestamp blk ->
  exists e, sendMessageAt c' blk a sender cid expiry isMedia messageType = Throw e.
Proof.
  intros Hev Hd Hoff.
  destruct (evolves_keeps _ _ _ Hev) as [_ Hc].
  destruct (Hc a s Hd) as (s' & Hs' & (_ & _ & _ & Hexp & _ & Hact)).
  unfold sendMessageAt, session_at. rewrite Hs'. cbn [bind].
  destruct (sendMessage s' blk sender cid expiry isMedia messageType) as [[s2 ev]|e] eqn:Hm;
    [|cbn [bind]; eauto].
  destruct (sendMessage_inv _ _ _ _ _ _ _ _ _ Hm) as (_ & Ha & Ht & _).
  destruct Hoff as [Hoff|Hoff]; [rewrite (Hact Hoff) in Ha; discriminate | lia].
Qed.

Lemma events_of_app (a : address) (l1 l2 : list (address * MessageSent)) :
  events_of a (l1 ++ l2) = (events_of a l1 ++ events_of a l2)%list.
Proof. unfold events_of. rewrite filter_app, map_app. reflexivity. Qed.

Lemma events_of_one (a b : address) (ev : MessageSent) :
  events_of a [(b, ev)] = if b =? a then [ev] else [].
Proof. unfold events_of. cbn [filter fst]. destruct (b =? a); reflexivity. Qed.

Lemma count_from_snoc (start : Z) (n : nat) :
  count_from start (S n) = (count_from start n ++ [start + Z.of_nat n])%list.
Proof.
  revert start. induction n as [|n IH]; intros start.
  - cbn. rewrite Z.add_0_r. reflexivity.
  - change (count_from start (S (S n))) with (start :: count_from (start + 1) (S n)).
    rewrite IH. rewrite (Nat2Z.inj_succ n).
    change (count_from start (S n)) with (start :: count_from (start + 1) n).
    cbn [app]. f_equal. f_equal. f_equal. lia.
Qed.

Lemma log_matches_continued (c c' : Chain) (log : list (address * MessageSent))
  (a : address) :
  log_matches c log a ->
  (forall s, deployed c a = Some s ->
     exists s', deployed c' a = Some s' /\
       participant1 s' = participant1 s /\ participant2 s' = participant2 s /\
       sessionExpiry s' = sessionExpiry s /\ messageCount s' = messageCount s) ->
  (deployed c a = None -> deployed c' a = None) ->
  log_matches c' log a.
Proof.
  unfold log_matches. intros Hm Hsome Hnone.
  destruct (deployed c a) as [s|] eqn:Hd.
  - destruct (Hsome s eq_refl) as (s' & -> & H1 & H2 & H3 & H4).
    rewrite H1, H2, H3, H4. exact Hm.
  - rewrite (Hnone eq_refl). exact Hm.
Qed.

Lemma log_matches_replaced (c : Chain) (f : Factory) (log : list (address * MessageSent))
  (a b : address) (s s' : ChatSession) :
  log_matches c log a ->
  deployed c b = Some s ->
  participant1 s' = participant1 s /\ participant2 s' = participant2 s /\
  sessionExpiry s' = sessionExpiry s /\ messageCount s' = messageCount s ->
  log_matches {| factory := f; deployed := upd (deployed c) b (Some s') |} log a.
Proof.
  intros Hm Hd Hsame. apply (log_matches_continued c _ log a Hm); cbn [deployed].
  - intros s0 Hs0. unfold upd. destruct (Z.eqb_spec a b) as [->|Hne].
    + rewrite Hd in Hs0. injection Hs0 as <-. exists s'. split; [reflexivity | exact Hsame].
    + exists s0. repeat split; trivial.
  - intros Hn. unfold upd. destruct (Z.eqb_spec a b) as [->|Hne]; [congruence | exact Hn].
Qed.

Lemma set_active_same (s : ChatSession) (b : bool) :
  participant1 (set_active s b) = participant1 s /\
  participant2 (set_active s b) = participant2 s /\
  sessionExpiry (set_active s b) = sessionExpiry s /\
  messageCount (set_active s b) = messageCount s.
Proof. repeat split. Qed.

Lemma cleanupExpiredSessions_same (sessionIds : list bytes32) :
  forall (c c' : Chain) (blk : Block) (a : address),
    cleanupExpiredSessions c blk sessionIds = Ok c' ->
    (forall s, deployed c a = Some s ->
       exists s', deployed c' a = Some s' /\
         participant1 s' = participant1 s /\ participant2 s' = participant2 s /\
         sessionExpiry s' = sessionExpiry s /\ messageCount s' = messageCount s) /\
    (deployed c a = None -> deployed c' a = None).
Proof.
  induction sessionIds as [|id rest IH]; intros c c' blk a; cbn [cleanupExpiredSessions].
  - intros Heq. injection Heq as <-. split; [|auto].
    intros s Hs. exists s. repeat split; trivial.
  - destruct (negb (sessionContracts (factory c) id =? 0)); [|apply IH].
    unfold session_at.
    destruct (deployed c (sessionContracts (factory c) id)) as [s0|] eqn:Hd0;
      [|discriminate]. cbn [bind].
    destruct (isSessionExpired s0 blk && sessionActive s0); [|apply IH].
    unfold forceExpireSession.
    destruct (negb (sessionExpiry s0 <=? timestamp blk)); [discriminate|].
    destruct (negb (sessionActive s0)); [discriminate|]. cbn [bind].
    destruct (checked_sub (activeSessions (factory c)) 1) as [active|e]; [|discriminate].
    cbn [bind]. intros Hrest. destruct (IH _ _ _ a Hrest) as [Hs Hn].
    cbn [deployed] in Hs, Hn. unfold upd in Hs, Hn.
    destruct (Z.eqb_spec a (sessionContracts (factory c) id)) as [->|Hne].
    + split; [|congruence]. intros s Hsa. rewrite Hd0 in Hsa. injection Hsa as <-.
      destruct (Hs _ eq_refl) as (s' & Hd' & H1 & H2 & H3 & H4).
      exists s'. repeat split; assumption.
    + split; assumption.
Qed.

(** X4.  The [MessageSent] events of a session, in the order of the history,
    carry the indices 0, 1, 2, ...; their number is the session's message
    count; each was sent by a participant before the deadline. *)
Theorem message_indices_are_consecutive
  (c : Chain) (log : list (address * MessageSent)) (a : address) :
  evolves genesis log c ->
  match deployed c a with
  | Some s =>
      map ev_messageIndex (events_of a log)
      = count_from 0 (List.length (events_of a log)) /\
      messageCount s = Z.of_nat (List.length (events_of a log)) /\
      Forall (fun ev =>
                (ev_from ev = participant1 s \/ ev_from ev = participant2 s) /\
                ev_timestamp ev < sessionExpiry s)
             (events_of a log)
  | None => events_of a log = []
  end.
Proof.
  intros Hev. change (log_matches c log a).
  remember genesis as c0 eqn:Hc0.
  induction Hev as [c|c log c' emitted c'' Hev IH Hstep].
  - subst c. reflexivity.
  - specialize (IH Hc0).
    destruct Hstep
      as [c' blk sender participant b id c'' Hc
         |c' blk b sender cid expiry isMedia messageType c'' ev Hs
         |c' b sender c'' Hcl
         |c' blk b c'' Hf
         |c' blk sessionIds c'' Hcu].
    + rewrite app_nil_r.
      destruct (createChatSession_shape _ _ _ _ _ _ _ Hc) as (_ & Hvac & new & Hnew & Hd & _).
      destruct (Z.eqb_spec a b) as [->|Hne].
      * unfold log_matches in IH |- *. rewrite Hvac in IH. rewrite Hd, upd_same, IH.
        destruct (ChatSession_constructor_wf _ _ _ _ Hnew) as (_ & _ & _ & Hcount & _).
        rewrite Hcount. repeat split. constructor.
      * apply (log_matches_continued c' c'' log a IH).
        -- intros s Hs. exists s. rewrite Hd, (upd_other _ _ _ _ Hne).
           repeat split; trivial.
        -- intros Hn. rewrite Hd, (upd_other _ _ _ _ Hne). exact Hn.
    + unfold sendMessageAt, session_at in Hs.
      destruct (deployed c' b) as [s|] eqn:Hd; [|discriminate]. cbn [bind] in Hs.
      destruct (sendMessage s blk sender cid expiry isMedia messageType) as [[s' ev']|e]
        eqn:Hm; [|discriminate].
      cbn [bind fst snd] in Hs. injection Hs as <- <-.
      destruct (sendMessage_inv _ _ _ _ _ _ _ _ _ Hm)
        as (Hp & _ & Ht & _ & _ & _ & Hs' & Hev').
      destruct (Z.eqb_spec a b) as [->|Hne].
      * unfold log_matches in IH |- *. rewrite Hd in IH. cbn [deployed].
        rewrite upd_same. destruct IH as (Hidx & Hcnt & Hall).
        rewrite events_of_app, events_of_one, Z.eqb_refl.
        rewrite map_app, length_app. cbn [map List.length].
        rewrite Nat.add_1_r, count_from_snoc, Hidx.
        subst s' ev'. cbn [ev_messageIndex messageCount participant1 participant2
                          sessionExpiry ev_from ev_timestamp].
        rewrite Hcnt. split; [reflexivity|]. split; [lia|].
        apply Forall_app. split; [exact Hall|].
        constructor; [split; [exact Hp | exact Ht] | constructor].
      * assert (Hlog : events_of a (log ++ [(b, ev')]) = events_of a log).
        { rewrite events_of_app, events_of_one.
          rewrite (neq_eqb_false b a) by congruence. apply app_nil_r. }
        unfold log_matches. rewrite Hlog. cbn [deployed].
        rewrite (upd_other _ _ _ _ Hne). exact IH.
    + rewrite app_nil_r.
      unfold closeSessionAt, session_at in Hcl.
      destruct (deployed c' b) as [s|] eqn:Hd; [|discriminate]. cbn [bind] in Hcl.
      unfold closeSession in Hcl. destruct (onlyParticipants s sender); [|discriminate].
      cbn [bind] in Hcl. injection Hcl as <-.
      apply (log_matches_replaced c' _ log a b s _ IH Hd). apply set_active_same.
    + rewrite app_nil_r.
      unfold forceExpireSessionAt, session_at in Hf.
      destruct (deployed c' b) as [s|] eqn:Hd; [|discriminate]. cbn [bind] in Hf.
      unfold forceExpireSession in Hf.
      destruct (negb (sessionExpiry s <=? timestamp blk)); [discriminate|].
      destruct (negb (sessionActive s)); [discriminate|].
      cbn [bind] in Hf. injection Hf as <-.
      apply (log_matches_replaced c' _ log a b s _ IH Hd). apply set_active_same.
    + rewrite app_nil_r.
      destruct (cleanupExpiredSessions_same _ _ _ _ a Hcu) as [Hs Hn].
      apply (log_matches_continued c' c'' log a IH); assumption.
Qed.

End LedgerHistoryTheorems.

Section LedgerViewTheorems.
Import Ledger LedgerHistory.
Context `{E : Evm}.

(** X5.  The three views of a session's liveness agree: the [isActive] flag of
    [getSessionBetween], the [active] field of [getSessionInfo] and the
    [sessionMustBeActive] guard of [sendMessage]; the remaining time is
    positive exactly until the deadline. *)
Theorem liveness_views_agree (c : Chain) (blk : Block) (user1 user2 : address)
  (id : bytes32) (a : address) (active : bool) :
  getSessionBetween c blk user1 user2 = Ok (id, a, active) ->
  a <> ZeroAddress ->
  exists s view remaining,
    deployed c a = Some s /\
    getSessionInfo s blk = Ok view /\
    getRemainingTime s blk = Ok remaining /\
    view_active view = active /\
    view_remaining view = remaining /\
    (active = true <-> sessionMustBeActive s blk = Ok tt) /\
    (0 < remaining <-> isSessionExpired s blk = false).
Proof.
  unfold getSessionBetween. intros Hget Hnz.
  destruct (Z.eqb_spec (sessionContracts (factory c)
              (participantPairToSession (factory c) user1 user2)) 0) as [Hz|Hz];
    cbn [negb] in Hget.
  - injection Hget as _ Ha _. unfold ZeroAddress in Hnz. congruence.
  - unfold session_at in Hget.
    destruct (deployed c _) as [s|] eqn:Hd; [|discriminate]. cbn [bind] in Hget.
    injection Hget as _ Ha Hact. subst a. exists s.
    unfold getSessionInfo, getRemainingTime, sessionMustBeActive, isSessionExpired,
      checked_sub in *.
    destruct (Z.ltb_spec (timestamp blk) (sessionExpiry s)) as [Hlt|Hge].
    + assert (H1 : (sessionExpiry s <=? timestamp blk) = false) by (apply Z.leb_gt; lia).
      assert (H2 : (timestamp blk <=? sessionExpiry s) = true) by (apply Z.leb_le; lia).
      rewrite H1 in *. rewrite H2. cbn [bind negb] in *.
      eexists. eexists.
      split; [exact Hd|]. split; [reflexivity|]. split; [reflexivity|].
      cbn [view_active view_remaining]. subst active.
      destruct (sessionActive s); cbn [negb andb];
        repeat split; try reflexivity; try discriminate; try lia.
    + assert (H1 : (sessionExpiry s <=? timestamp blk) = true) by (apply Z.leb_le; lia).
      rewrite H1 in *. cbn [bind negb] in *.
      eexists. eexists.
      split; [exact Hd|]. split; [reflexivity|]. split; [reflexivity|].
      cbn [view_active view_remaining]. subst active.
      destruct (sessionActive s); cbn [negb andb];
        repeat split; try reflexivity; try discriminate; try lia.
Qed.

Lemma array_set_ok (array : list bytes32) (index : nat) (value : bytes32) :
  (index < List.length array)%nat ->
  array_set array index value
  = Ok (firstn index array ++ value :: skipn (S index) array)%list.
Proof.
  revert index. induction array as [|x r IH]; intros index Hlt; [cbn in Hlt; lia|].
  destruct index as [|i]; [reflexivity|].
  cbn [array_set]. rewrite IH by (cbn in Hlt; lia). reflexivity.
Qed.

Lemma is_active_of (c : Chain) (blk : Block) (id : bytes32) (b : bool) :
  counts_as_active c blk id = Ok b -> is_active c blk id = b.
Proof. unfold is_active. intros ->. reflexivity. Qed.

Lemma count_active_filter (c : Chain) (blk : Block) (ids : list bytes32) :
  Forall (fun id => exists b, counts_as_active c blk id = Ok b) ids ->
  forall n, count_active c blk ids n
            = Ok (n + List.length (filter (is_active c blk) ids))%nat.
Proof.
  induction 1 as [|id rest (b & Hb) _ IH]; intros n; cbn [count_active filter].
  - rewrite Nat.add_0_r. reflexivity.
  - rewrite (is_active_of _ _ _ _ Hb), Hb. cbn [bind]. rewrite IH.
    destruct b; cbn [List.length]; f_equal; lia.
Qed.

Lemma fill_active_filter (c : Chain) (blk : Block) (ids : list bytes32) :
  Forall (fun id => exists b, counts_as_active c blk id = Ok b) ids ->
  forall array index,
    List.length array = (index + List.length (filter (is_active c blk) ids))%nat ->
    fill_active c blk ids array index
    = Ok (firstn index array ++ filter (is_active c blk) ids)%list.
Proof.
  induction 1 as [|id rest (b & Hb) _ IH]; intros array index Hlen;
    cbn [fill_active filter] in *.
  - rewrite Nat.add_0_r in Hlen. rewrite <- Hlen, firstn_all, app_nil_r. reflexivity.
  - rewrite (is_active_of _ _ _ _ Hb) in Hlen |- *. rewrite Hb. cbn [bind].
    destruct b; [|apply IH; exact Hlen].
    cbn [List.length] in Hlen.
    rewrite array_set_ok by lia. cbn [bind]. rewrite IH.
    + f_equal. rewrite firstn_app, length_firstn.
      replace (Nat.min index (List.length array)) with index by lia.
      replace (S index - index)%nat with 1%nat by lia.
      rewrite firstn_firstn. replace (Nat.min (S index) index) with index by lia.
      cbn [firstn]. rewrite <- app_assoc. reflexivity.
    + rewrite length_app, length_firstn. cbn [List.length]. rewrite length_skipn. lia.
Qed.

Lemma counts_as_active_answers (c : Chain) (blk : Block) (id : bytes32) :
  chain_wf c -> exists b, counts_as_active c blk id = Ok b.
Proof.
  intros (_ & Hdep & _). unfold counts_as_active.
  destruct (Z.eqb_spec (sessionContracts (factory c) id) 0) as [Hz|Hnz]; cbn [negb];
    [eauto|].
  destruct (Hdep id Hnz) as (s & Hs). unfold session_at. rewrite Hs. cbn [bind]. eauto.
Qed.

(** X6.  On a reachable chain [getActiveUserSessions] returns, in order, exactly
    the user's session identifiers whose session is flagged active and not
    past its deadline: the counting loop sizes the array so that the filling
    loop never writes out of bounds and leaves no slot unfilled. *)
Theorem getActiveUserSessions_filters (c : Chain) (blk : Block) (user : address) :
  reachable c ->
  getActiveUserSessions c blk user
  = Ok (filter (is_active c blk) (userSessions (factory c) user)).
Proof.
  intros Hr. pose proof (reachable_wf c Hr) as Hwf.
  assert (Hall : Forall (fun id => exists b, counts_as_active c blk id = Ok b)
                   (userSessions (factory c) user))
    by (apply Forall_forall; intros id _; apply counts_as_active_answers; exact Hwf).
  unfold getActiveUserSessions. rewrite (count_active_filter c blk _ Hall). cbn [bind].
  rewrite (fill_active_filter c blk _ Hall); [reflexivity|].
  rewrite repeat_length. reflexivity.
Qed.

Lemma cleanup_later_inactive (sessionIds : list bytes32) :
  forall (c c' : Chain) (blk : Block) (a : address) (s : ChatSession),
    cleanupExpiredSessions c blk sessionIds = Ok c' ->
    deployed c a = Some s ->
    exists s', deployed c' a = Some s' /\ sessionExpiry s' = sessionExpiry s /\
               (sessionActive s = false -> sessionActive s' = false).
Proof.
  intros c c' blk a s Hc Hd.
  destruct (cleanupExpiredSessions_keeps _ _ _ _ Hc) as (_ & _ & _ & _ & _ & Hcont).
  destruct (Hcont a s Hd) as (s' & Hs' & (_ & _ & _ & He & _ & Ha)). eauto.
Qed.

(** X7.  After an accepted [cleanupExpiredSessions], no session recorded for a
    listed identifier is both past its deadline and flagged active; the
    factory's mappings and [totalSessions] are as before. *)
Theorem cleanup_deactivates_expired (sessionIds : list bytes32) :
  forall (c c' : Chain) (blk : Block),
    cleanupExpiredSessions c blk sessionIds = Ok c' ->
    sessionContracts (factory c') = sessionContracts (factory c) /\
    participantPairToSession (factory c') = participantPairToSession (factory c) /\
    totalSessions (factory c') = totalSessions (factory c) /\
    forall id, In id sessionIds ->
      sessionContracts (factory c) id <> 0 ->
      exists s', deployed c' (sessionContracts (factory c) id) = Some s' /\
                 (isSessionExpired s' blk = true -> sessionActive s' = false).
Proof.
  intros c c' blk Hc.
  destruct (cleanupExpiredSessions_keeps _ _ _ _ Hc) as (H1 & _ & H3 & H4 & _ & _).
  do 3 (split; [assumption|]). clear H1 H3 H4.
  revert c c' Hc. induction sessionIds as [|id0 rest IH]; intros c c' Hc id Hin Hnz;
    [contradiction|].
  cbn [cleanupExpiredSessions] in Hc.
  destruct (Z.eqb_spec (sessionContracts (factory c) id0) 0) as [Hz0|Hnz0];
    cbn [negb] in Hc.
  { destruct Hin as [->|Hin]; [contradiction | eapply IH; eauto]. }
  unfold session_at in Hc.
  destruct (deployed c (sessionContracts (factory c) id0)) as [s0|] eqn:Hd0;
    [|discriminate]. cbn [bind] in Hc.
  destruct (isSessionExpired s0 blk && sessionActive s0) eqn:Hcond.
  - unfold forceExpireSession in Hc.
    destruct (negb (sessionExpiry s0 <=? timestamp blk)); [discriminate|].
    destruct (negb (sessionActive s0)); [discriminate|]. cbn [bind] in Hc.
    destruct (checked_sub (activeSessions (factory c)) 1) as [active|e]; [|discriminate].
    cbn [bind] in Hc.
    destruct Hin as [->|Hin].
    + set (c1 := {| factory := set_activeSessions (factory c) active;
                    deployed := upd (deployed c) (sessionContracts (factory c) id)
                                  (Some (set_active s0 false)) |}) in *.
      assert (Hd1 : deployed c1 (sessionContracts (factory c) id)
                    = Some (set_active s0 false)) by (apply upd_same).
      destruct (cleanup_later_inactive _ _ _ _ _ _ Hc Hd1) as (s' & Hs' & _ & Ha).
      exists s'. split; [exact Hs'|]. intros _. apply Ha. reflexivity.
    + apply (IH _ _ Hc id Hin). exact Hnz.
  - destruct Hin as [->|Hin]; [|eapply IH; eauto].
    destruct (cleanup_later_inactive _ _ _ _ _ _ Hc Hd0) as (s' & Hs' & He & Ha).
    exists s'. split; [exact Hs'|]. unfold isSessionExpired in *. rewrite He.
    intros Hexp. rewrite Hexp in Hcond. cbn [andb] in Hcond. apply Ha. exact Hcond.
Qed.

(** X8.  When the factory counts no active session while the pair's previous
    session is past its deadline and still flagged active, the creation of
    a new session for the pair reverts on the counter. *)
Theorem renewal_reverts_on_empty_counter
  (c : Chain) (blk : Block) (sender participant : address) (old : ChatSession) :
  participant <> 0 -> participant <> sender ->
  Z.of_nat (List.length (userSessions (factory c) sender)) < MAX_SESSIONS_PER_USER ->
  sessionContracts (factory c)
    (session_id sender participant (timestamp blk) (prevrandao blk)
       (totalSessions (factory c))) = 0 ->
  participantPairToSession (factory c) sender participant <> 0 ->
  sessionContracts (factory c) (participantPairToSession (factory c) sender participant) <> 0 ->
  deployed c (sessionContracts (factory c)
                (participantPairToSession (factory c) sender participant)) = Some old ->
  sessionActive old = true ->
  sessionExpiry old <= timestamp blk ->
  activeSessions (factory c) = 0 ->
  createChatSession c blk sender participant = Throw "panic: arithmetic underflow".
Proof.
  intros Hp Hps Hmax Hfresh Hid Hrec Hdep Hact Hexp Hzero.
  unfold createChatSession.
  rewrite (neq_eqb_false _ _ Hp), (neq_eqb_false _ _ Hps).
  apply Z.ltb_lt in Hmax. rewrite Hmax. cbn [negb]. rewrite Hfresh. cbn [Z.eqb negb].
  unfold check_existing.
  rewrite (neq_eqb_false _ _ Hid), (neq_eqb_false _ _ Hrec). cbn [negb].
  unfold session_at. rewrite Hdep. cbn [bind]. unfold isSessionExpired.
  apply Z.leb_le in Hexp. rewrite Hexp, Hact. cbn [negb andb].
  unfold checked_sub. rewrite Hzero. reflexivity.
Qed.

End LedgerViewTheorems.

Section LedgerGrowth.
Import Ledger LedgerHistory.
Context `{E : Evm}.

Lemma createChatSession_lists (c c' : Chain) (blk : Block) (sender participant a : address)
  (id : bytes32) :
  createChatSession c blk sender participant = Ok (a, id, c') ->
  sessionContracts (factory c) id = 0 /\
  forall user,
    userSessions (factory c') user
    = (userSessions (factory c) user
       ++ (if (user =? sender) || (user =? participant) then [id] else []))%list.
Proof.
  unfold createChatSession.
  destruct (participant =? 0); [discriminate|].
  destruct (Z.eqb_spec participant sender) as [|Hps]; [discriminate|].
  destruct (negb _); [discriminate|].
  destruct (Z.eqb_spec (sessionContracts (factory c)
              (session_id sender participant (timestamp blk) (prevrandao blk)
                 (totalSessions (factory c)))) 0) as [Hfree|]; [|discriminate].
  cbn [negb].
  destruct (check_existing c blk sender participant) as [active|e]; [|discriminate].
  cbn [bind].
  destruct (deployed c (create2_address _ sender participant)); [discriminate|].
  destruct (ChatSession_constructor blk sender participant) as [new|e]; [|discriminate].
  cbn [bind]. unfold checked_add.
  destruct (totalSessions (factory c) + 1 <=? UINT256_MAX); [|discriminate]. cbn [bind].
  destruct (active + 1 <=? UINT256_MAX); [|discriminate]. cbn [bind].
  intros Heq. injection Heq as <- <- <-.
  split; [exact Hfree|]. intros user. cbn [factory userSessions]. unfold upd.
  destruct (Z.eqb_spec user participant) as [->|Hup].
  - rewrite (neq_eqb_false _ _ Hps). rewrite orb_true_r. reflexivity.
  - destruct (Z.eqb_spec user sender) as [->|]; cbn [orb];
      [reflexivity | rewrite app_nil_r; reflexivity].
Qed.

Lemma step_grows (c c' : Chain) (emitted : list (address * MessageSent)) :
  step c emitted c' ->
  (forall user, exists more,
     userSessions (factory c') user = (userSessions (factory c) user ++ more)%list) /\
  (forall id, sessionContracts (factory c) id <> 0 ->
     sessionContracts (factory c') id = sessionContracts (factory c) id).
Proof.
  intros Hstep. destruct Hstep
    as [c blk sender participant a id c' Hc
       |c blk a sender cid expiry isMedia messageType c' ev Hs
       |c a sender c' Hcl
       |c blk a c' Hf
       |c blk sessionIds c' Hcu].
  - destruct (createChatSession_lists _ _ _ _ _ _ _ Hc) as [Hfree Hl].
    destruct (createChatSession_shape _ _ _ _ _ _ _ Hc)
      as (_ & _ & new & _ & _ & Hsc & _).
    split; [intros user; rewrite Hl; eauto|].
    intros i Hi. rewrite Hsc. unfold upd.
    destruct (Z.eqb_spec i id) as [->|]; [congruence | reflexivity].
  - unfold sendMessageAt in Hs. destruct (session_at c a); [|discriminate].
    cbn [bind] in Hs. destruct (sendMessage _ _ _ _ _ _ _); [|discriminate].
    cbn [bind] in Hs. injection Hs as <- _. cbn [factory].
    split; [intros user; exists []; rewrite app_nil_r|]; reflexivity.
  - unfold closeSessionAt in Hcl. destruct (session_at c a); [|discriminate].
    cbn [bind] in Hcl. destruct (closeSession _ _); [|discriminate].
    cbn [bind] in Hcl. injection Hcl as <-. cbn [factory].
    split; [intros user; exists []; rewrite app_nil_r|]; reflexivity.
  - unfold forceExpireSessionAt in Hf. destruct (session_at c a); [|discriminate].
    cbn [bind] in Hf. destruct (forceExpireSession _ _); [|discriminate].
    cbn [bind] in Hf. injection Hf as <-. cbn [factory].
    split; [intros user; exists []; rewrite app_nil_r|]; reflexivity.
  - destruct (cleanupExpiredSessions_keeps _ _ _ _ Hcu) as (Hsc & Hus & _).
    rewrite Hsc, Hus. split; [intros user; exists []; rewrite app_nil_r|]; reflexivity.
Qed.

Lemma evolves_grows (c c' : Chain) (log : list (address * MessageSent)) :
  evolves c log c' ->
  (forall user, exists more,
     userSessions (factory c') user = (userSessions (factory c) user ++ more)%list) /\
  (forall id, sessionContracts (factory c) id <> 0 ->
     sessionContracts (factory c') id = sessionContracts (factory c) id).
Proof.
  induction 1 as [c|c log c' emitted c'' Hev [IHu IHs] Hstep].
  - split; [intros user; exists []; rewrite app_nil_r|]; reflexivity.
  - destruct (step_grows _ _ _ Hstep) as [Hu Hs]. split.
    + intros user. destruct (IHu user) as (m1 & H1). destruct (Hu user) as (m2 & H2).
      exists (m1 ++ m2)%list. rewrite H2, H1, app_assoc. reflexivity.
    + intros id Hid. rewrite Hs; [apply IHs; exact Hid|]. rewrite IHs; assumption.
Qed.

(** X9.  The factory's records only grow: over any sequence of accepted
    transactions a user's session list keeps its entries and gains new ones
    at the end, and a recorded session identifier keeps its contract.
    Nothing removes a session from a user's list, so a user who once has
    the maximum of 100 sessions, expired or not, can never open a session
    again: every later [createChatSession] of theirs, with a valid peer,
    reverts with the limit's message. *)
Theorem session_limit_is_permanent
  (c c' : Chain) (log : list (address * MessageSent)) (user : address) :
  evolves c log c' ->
  (exists more, getUserSessions c' user = (getUserSessions c user ++ more)%list) /\
  (forall id, getSessionContract c id <> ZeroAddress ->
     getSessionContract c' id = getSessionContract c id) /\
  (MAX_SESSIONS_PER_USER <= Z.of_nat (List.length (getUserSessions c user)) ->
   forall blk participant,
     participant <> ZeroAddress -> participant <> user ->
     createChatSession c' blk user participant = Throw "Maximum sessions reached").
Proof.
  intros Hev. destruct (evolves_grows _ _ _ Hev) as [Hu Hs].
  unfold getUserSessions, getSessionContract, ZeroAddress.
  split; [apply Hu|]. split; [exact Hs|].
  intros Hmax blk participant Hp Hpu. unfold createChatSession.
  rewrite (neq_eqb_false _ _ Hp), (neq_eqb_false _ _ Hpu).
  destruct (Hu user) as (more & ->). rewrite length_app, Nat2Z.inj_add.
  replace (_ <? MAX_SESSIONS_PER_USER) with false; [reflexivity|].
  symmetry. apply Z.ltb_ge. lia.
Qed.

End LedgerGrowth.

Section LedgerExclusion.
Import Ledger LedgerHistory.
Context `{E : Evm}.

Lemma createChatSession_refusal (c : Chain) (blk : Block) (sender participant : address) :
  createChatSession c blk sender participant = Throw "Active session exists" ->
  check_existing c blk sender participant = Throw "Active session exists".
Proof.
  unfold createChatSession.
  destruct (participant =? 0); [discriminate|].
  destruct (participant =? sender); [discriminate|].
  destruct (negb _); [discriminate|].
  destruct (negb _); [discriminate|].
  destruct (check_existing c blk sender participant) as [active|e]; cbn [bind];
    [|intros [= ->]; reflexivity].
  destruct (deployed c _); [discriminate|].
  unfold ChatSession_constructor, checked_add.
  repeat (match goal with
          | |- context [if ?b then _ else _] => destruct b
          end; cbn [bind]); discriminate.
Qed.

(** X10.  The factory refuses a new session for a pair with the message that an
    active session exists exactly when [getSessionBetween] reports the
    pair's session, under a nonzero identifier, as active in that block:
    the view and the transaction decide liveness alike. *)
Theorem active_session_blocks_creation
  (c : Chain) (blk : Block) (sender participant : address) :
  participant <> ZeroAddress ->
  participant <> sender ->
  Z.of_nat (List.length (userSessions (factory c) sender)) < MAX_SESSIONS_PER_USER ->
  sessionContracts (factory c)
    (session_id sender participant (timestamp blk) (prevrandao blk)
       (totalSessions (factory c))) = 0 ->
  (createChatSession c blk sender participant = Throw "Active session exists" <->
   exists id a,
     getSessionBetween c blk sender participant = Ok (id, a, true) /\ id <> 0).
Proof.
  intros Hp Hps Hmax Hfree. unfold ZeroAddress in Hp.
  assert (Hcheck : check_existing c blk sender participant = Throw "Active session exists"
                   <-> exists id a,
                       getSessionBetween c blk sender participant = Ok (id, a, true) /\
                       id <> 0).
  { unfold check_existing, getSessionBetween.
    set (id := participantPairToSession (factory c) sender participant).
    destruct (Z.eqb_spec id 0) as [Hz|Hnz]; cbn [negb].
    { split; [discriminate|]. intros (i & a & Hget & Hi). exfalso.
      destruct (negb (sessionContracts (factory c) id =? 0));
        [destruct (session_at c _); [|discriminate]; cbn [bind] in Hget|];
        injection Hget as <- _ _; contradiction. }
    destruct (Z.eqb_spec (sessionContracts (factory c) id) 0) as [Hcz|Hcnz]; cbn [negb].
    { split; [discriminate | intros (i & a & Hget & Hi); discriminate Hget]. }
    unfold session_at.
    destruct (deployed c (sessionContracts (factory c) id)) as [s|]; cbn [bind].
    2:{ split; [discriminate | intros (i & a & Hget & _); discriminate]. }
    destruct (sessionActive s && negb (isSessionExpired s blk)) eqn:Hlive.
    - split; [intros _; exists id, (sessionContracts (factory c) id); split;
              [reflexivity | exact Hnz] | reflexivity].
    - split; [|intros (i & a & Hget & _); discriminate].
      unfold checked_sub.
      destruct (isSessionExpired s blk && sessionActive s);
        [destruct (1 <=? activeSessions (factory c))|]; discriminate. }
  rewrite <- Hcheck. split; [apply createChatSession_refusal|].
  intros Hc. unfold createChatSession.
  rewrite (neq_eqb_false _ _ Hp), (neq_eqb_false _ _ Hps).
  apply Z.ltb_lt in Hmax. rewrite Hmax, Hfree. cbn [negb Z.eqb]. rewrite Hc. reflexivity.
Qed.

End LedgerExclusion.

Section LiveSessionKept.
Import Ledger LedgerHistory SessionManager.
Context `{E : Evm}.
Variable wallet : address.



End LiveSessionKept.

(** ** The main contract over its histories *)

Section ChatContractProofs.
Import Ledger LedgerHistory ChatContract.
Context `{K : Keccak}.

Lemma count_from_bounds (n : nat) :
  forall start id, In id (count_from start n) -> start <= id < start + Z.of_nat n.
Proof.
  induction n as [|n IH]; intros start id Hin; [contradiction|].
  rewrite Nat2Z.inj_succ. destruct Hin as [<-|Hin]; [lia|].
  apply IH in Hin. lia.
Qed.

Lemma ids_where_snoc (keep : Z -> bool) (n : Z) :
  0 <= n ->
  ids_where keep (n + 1) = (ids_where keep n ++ (if keep n then [n] else []))%list.
Proof.
  intros Hn. unfold ids_where.
  replace (Z.to_nat (n + 1)) with (S (Z.to_nat n)) by lia.
  rewrite count_from_snoc, filter_app. cbn [filter].
  replace (0 + Z.of_nat (Z.to_nat n)) with n by lia. reflexivity.
Qed.

Lemma ids_where_ext (keep keep' : Z -> bool) (n : Z) :
  (forall id, 0 <= id < n -> keep id = keep' id) ->
  ids_where keep n = ids_where keep' n.
Proof.
  intros Hext. unfold ids_where. apply filter_ext_in. intros id Hin.
  apply count_from_bounds in Hin. apply Hext. lia.
Qed.

Lemma ids_where_In (keep : Z -> bool) (n id : Z) :
  In id (ids_where keep n) <-> 0 <= id < n /\ keep id = true.
Proof.
  unfold ids_where. rewrite filter_In. split.
  - intros [Hin Hk]. apply count_from_bounds in Hin. split; [lia | exact Hk].
  - intros [Hb Hk]. split; [|exact Hk].
    replace id with (0 + Z.of_nat (Z.to_nat id)) by lia.
    assert (Hlt : (Z.to_nat id < Z.to_nat n)%nat) by lia.
    revert Hlt. generalize (Z.to_nat id) as i, (Z.to_nat n) as k, 0.
    intros i k. revert i. induction k as [|k IH]; intros i start Hlt; [lia|].
    destruct i as [|i]; [left; cbn; lia|].
    right. replace (start + Z.of_nat (S i)) with ((start + 1) + Z.of_nat i) by lia.
    apply IH. lia.
Qed.

(** What an accepted [sendMessage] does. *)
Lemma chat_sendMessage_inv (st st' : Storage) (blk : Block) (sender to : address)
  (cid : string) (expiry : Z) (isMedia : bool) (messageType : string) (id : Z)
  (ev : MessageSentEvent) :
  sendMessage st blk sender to cid expiry isMedia messageType = Ok (id, st', ev) ->
  to <> 0 /\ to <> sender /\ cid <> EmptyString /\ messageType <> EmptyString /\
  (expiry <= 0 \/ timestamp blk < expiry <= timestamp blk + YEAR) /\
  id = messageCounter st /\
  messageCounter st' = messageCounter st + 1 /\
  messages st' = upd (messages st) (messageCounter st)
                   {| msg_from := sender; msg_to := to; msg_cid := cid;
                      msg_timestamp := timestamp blk; msg_expiry := expiry;
                      msg_isMedia := isMedia; msg_messageType := messageType;
                      msg_conversationHash := generateConversationHash sender to |} /\
  (forall user,
     userMessages st' user
     = (userMessages st user
        ++ (if (sender =? user) || (to =? user) then [messageCounter st] else []))%list) /\
  (forall h,
     conversationMessages st' h
     = (conversationMessages st h
        ++ (if generateConversationHash sender to =? h
            then [messageCounter st] else []))%list) /\
  totalMessages (stats st') = totalMessages (stats st) + 1 /\
  ev = {| sent_from := sender; sent_to := to; sent_cid := cid;
          sent_timestamp := timestamp blk; sent_expiry := expiry;
          sent_messageId := messageCounter st;
          sent_conversationHash := generateConversationHash sender to |}.
Proof.
  unfold sendMessage.
  destruct (Z.eqb_spec to 0) as [|Hto]; [discriminate|].
  destruct (Z.eqb_spec to sender) as [|Hts]; [discriminate|].
  destruct cid as [|c0 cid']; [discriminate|].
  destruct messageType as [|t0 ty']; [discriminate|].
  cbn [String.length Nat.eqb].
  set (cid := String c0 cid'). set (messageType := String t0 ty').
  assert (Hexp : forall k : result (Z * Storage * MessageSentEvent),
             (_ <- (if 0 <? expiry then
                      if negb (timestamp blk <? expiry) then Throw "Expiry must be in future"
                      else
                        limit <- checked_add (timestamp blk) YEAR ;;
                        if negb (expiry <=? limit) then Throw "Expiry too far" else Ok tt
                    else Ok tt) ;; k) = Ok (id, st', ev) ->
             (expiry <= 0 \/ timestamp blk < expiry <= timestamp blk + YEAR) /\
             k = Ok (id, st', ev)).
  { intros k. destruct (Z.ltb_spec 0 expiry) as [Hpos|Hnp]; [|intros Hk; split; [lia|exact Hk]].
    destruct (Z.ltb_spec (timestamp blk) expiry) as [Hfut|]; [|discriminate].
    cbn [negb]. unfold checked_add.
    destruct (timestamp blk + YEAR <=? UINT256_MAX); [|discriminate]. cbn [bind].
    destruct (Z.leb_spec expiry (timestamp blk + YEAR)) as [Hle|]; [|discriminate].
    cbn [negb bind]. intros Hk. split; [right; lia | exact Hk]. }
  intros Hsend. apply Hexp in Hsend. destruct Hsend as [Hwin Hsend].
  unfold checked_add in Hsend.
  destruct (messageCounter st + 1 <=? UINT256_MAX); [|discriminate]. cbn [bind] in Hsend.
  destruct (totalMessages (stats st) + 1 <=? UINT128_MAX); [|discriminate].
  cbn [bind] in Hsend. injection Hsend as <- <- <-.
  cbn [messageCounter messages userMessages conversationMessages stats totalMessages].
  repeat (split; [first [assumption | discriminate | reflexivity]|]).
  split; [|split; [|split; reflexivity]].
  - intros user. unfold upd.
    destruct (Z.eqb_spec user to) as [->|Hut].
    + rewrite (neq_eqb_false _ _ Hts). rewrite Z.eqb_refl, orb_true_r.
      destruct (Z.eqb_spec sender to) as [Heq|_]; [congruence|]. reflexivity.
    + destruct (Z.eqb_spec user sender) as [->|Hus].
      * rewrite Z.eqb_refl. reflexivity.
      * replace (sender =? user) with false by (symmetry; apply Z.eqb_neq; congruence).
        replace (to =? user) with false by (symmetry; apply Z.eqb_neq; congruence).
        cbn [orb]. rewrite app_nil_r. reflexivity.
  - intros h. unfold upd. rewrite (Z.eqb_sym h).
    destruct (Z.eqb_spec (generateConversationHash sender to) h) as [->|_];
      [reflexivity | rewrite app_nil_r; reflexivity].
Qed.

Lemma chat_sendMessage_wf (st st' : Storage) (blk : Block) (sender to : address)
  (cid : string) (expiry : Z) (isMedia : bool) (messageType : string) (id : Z)
  (ev : MessageSentEvent) :
  0 <= expiry ->
  sendMessage st blk sender to cid expiry isMedia messageType = Ok (id, st', ev) ->
  storage_wf st -> storage_wf st'.
Proof.
  intros Hexp Hsend (Hc & Ht & Hm & Hu & Hh).
  destruct (chat_sendMessage_inv _ _ _ _ _ _ _ _ _ _ _ Hsend)
    as (Hto & Hts & Hcid & Hty & Hwin & _ & Hc' & Hm' & Hu' & Hh' & Ht' & _).
  assert (Hold : forall i, 0 <= i < messageCounter st -> messages st' i = messages st i).
  { intros i Hi. rewrite Hm'. unfold upd.
    destruct (Z.eqb_spec i (messageCounter st)); [lia | reflexivity]. }
  assert (Hnew : messages st' (messageCounter st)
                 = {| msg_from := sender; msg_to := to; msg_cid := cid;
                      msg_timestamp := timestamp blk; msg_expiry := expiry;
                      msg_isMedia := isMedia; msg_messageType := messageType;
                      msg_conversationHash := generateConversationHash sender to |}).
  { rewrite Hm'. unfold upd. rewrite Z.eqb_refl. reflexivity. }
  unfold storage_wf. rewrite Hc', Ht'.
  split; [lia|]. split; [lia|]. split; [|split].
  - intros i Hi. destruct (Z.eq_dec i (messageCounter st)) as [->|Hne].
    + rewrite Hnew. unfold message_wf.
      cbn [msg_from msg_to msg_cid msg_timestamp msg_expiry msg_messageType
           msg_conversationHash].
      repeat (split; [first [assumption | reflexivity]|]).
      destruct Hwin as [Hz|Hw]; [left; lia | right; exact Hw].
    + rewrite Hold by lia. apply Hm. lia.
  - intros user. rewrite Hu', Hu, (ids_where_snoc _ _ Hc), Hnew.
    cbn [msg_from msg_to]. f_equal. apply ids_where_ext. intros i Hi.
    rewrite (Hold i Hi). reflexivity.
  - intros h. rewrite Hh', Hh, (ids_where_snoc _ _ Hc), Hnew.
    cbn [msg_conversationHash]. f_equal. apply ids_where_ext. intros i Hi.
    rewrite (Hold i Hi). reflexivity.
Qed.

Lemma deployment_wf : storage_wf deployment.
Proof.
  unfold storage_wf, deployment. cbn. repeat split; try lia; try reflexivity.
Qed.

Lemma reachable_storage_wf (st : Storage) : reachable st -> storage_wf st.
Proof.
  unfold reachable. intros Hev. remember deployment as st0 eqn:H0.
  induction Hev as [st|st st' st'' Hev IH Hstep].
  - subst st. apply deployment_wf.
  - destruct Hstep as [st' blk sender to cid expiry isMedia messageType id st'' ev Hexp Hs].
    eapply chat_sendMessage_wf; eauto.
Qed.

(** Later states keep every stored message. *)
Lemma evolves_keeps_messages (st st' : Storage) :
  evolves st st' ->
  messageCounter st <= messageCounter st' /\
  forall id, id < messageCounter st -> messages st' id = messages st id.
Proof.
  induction 1 as [st|st st' st'' Hev [Hle IH] Hstep]; [split; [lia | reflexivity]|].
  destruct Hstep as [st' blk sender to cid expiry isMedia messageType id st'' ev Hexp Hs].
  destruct (chat_sendMessage_inv _ _ _ _ _ _ _ _ _ _ _ Hs)
    as (_ & _ & _ & _ & _ & _ & Hc' & Hm' & _).
  split; [lia|]. intros i Hi. rewrite Hm'. unfold upd.
  destruct (Z.eqb_spec i (messageCounter st')); [lia | apply IH; exact Hi].
Qed.

Lemma getMessage_inv (st : Storage) (id : Z) (m : MessageData) :
  getMessage st id = Ok m -> id < messageCounter st /\ m = messages st id.
Proof.
  unfold getMessage. destruct (Z.ltb_spec id (messageCounter st)); [|discriminate].
  cbn [negb]. intros [= <-]. split; [assumption | reflexivity].
Qed.

Lemma getMessage_stored (st : Storage) (id : Z) :
  id < messageCounter st -> getMessage st id = Ok (messages st id).
Proof.
  intros Hlt. unfold getMessage. apply Z.ltb_lt in Hlt. rewrite Hlt. reflexivity.
Qed.

Lemma generateConversationHash_sym (user1 user2 : address) :
  generateConversationHash user1 user2 = generateConversationHash user2 user1.
Proof.
  unfold generateConversationHash.
  destruct (Z.gtb_spec user1 user2), (Z.gtb_spec user2 user1); try reflexivity; try lia.
  replace user2 with user1 by lia. reflexivity.
Qed.

Lemma firstn_succ_nth {A : Type} (l : list A) (i : nat) (x : A) :
  nth_error l i = Some x -> firstn (S i) l = (firstn i l ++ [x])%list.
Proof.
  revert i. induction l as [|y r IH]; intros [|i] Hn; try discriminate.
  - injection Hn as ->. reflexivity.
  - cbn [firstn app]. f_equal. apply IH. exact Hn.
Qed.

Lemma copy_recent_ok (allMessages : list Z) (rounds : nat) :
  forall (i : nat) (recentIds : list Z),
    (i + rounds <= List.length allMessages)%nat ->
    List.length recentIds = (i + rounds)%nat ->
    firstn i recentIds = firstn i (rev allMessages) ->
    copy_recent allMessages (List.length allMessages) rounds i recentIds
    = Ok (firstn (i + rounds) (rev allMessages)).
Proof.
  induction rounds as [|rounds IH]; intros i recentIds Hle Hlen Hpre; cbn [copy_recent].
  - rewrite Nat.add_0_r in *. rewrite <- Hpre, <- Hlen, firstn_all. reflexivity.
  - replace (Nat.ltb (List.length allMessages) 1) with false
      by (symmetry; apply Nat.ltb_ge; lia).
    replace (Nat.ltb (List.length allMessages - 1) i) with false
      by (symmetry; apply Nat.ltb_ge; lia).
    assert (Hnth : nth_error (rev allMessages) i
                   = nth_error allMessages (List.length allMessages - 1 - i)).
    { rewrite nth_error_rev.
      replace (Nat.ltb i (List.length allMessages)) with true
        by (symmetry; apply Nat.ltb_lt; lia).
      f_equal. lia. }
    unfold array_get. rewrite <- Hnth.
    destruct (nth_error (rev allMessages) i) as [value|] eqn:Hv.
    2:{ apply nth_error_None in Hv. rewrite length_rev in Hv. lia. }
    cbn [bind]. rewrite array_set_ok by (unfold bytes32; lia). cbn [bind].
    rewrite IH.
    + f_equal. f_equal. lia.
    + lia.
    + rewrite length_app, length_firstn. cbn [List.length]. rewrite length_skipn.
      unfold bytes32 in *. lia.
    + rewrite (firstn_succ_nth _ _ _ Hv), <- Hpre. unfold bytes32 in *.
      rewrite firstn_app, length_firstn.
      replace (Nat.min i (List.length recentIds)) with i by lia.
      replace (S i - i)%nat with 1%nat by lia.
      rewrite firstn_firstn. replace (Nat.min (S i) i) with i by lia. reflexivity.
Qed.

End ChatContractProofs.

Section ChatContractTheorems.
Import Ledger LedgerHistory ChatContract.
Context `{K : Keccak}.

(** X12.  A stored message is permanent: whatever [getMessage] returns for an
    identifier, it returns at every later state of the contract, also after
    the message's expiry; the contract has no operation that removes or
    rewrites a message. *)
Theorem stored_message_is_permanent (st st' : Storage) (id : Z) (m : MessageData) :
  evolves st st' ->
  getMessage st id = Ok m ->
  getMessage st' id = Ok m.
Proof.
  intros Hev Hget. destruct (getMessage_inv _ _ _ Hget) as [Hlt ->].
  destruct (evolves_keeps_messages _ _ Hev) as [Hle Hkeep].
  rewrite getMessage_stored by lia. rewrite Hkeep by exact Hlt. reflexivity.
Qed.

(** X13.  An accepted [sendMessage] returns the identifier under which
    [getMessage] then returns the message as sent, and that identifier is
    the last entry of both parties' message lists and of the conversation
    list that either party computes. *)
Theorem sendMessage_then_read (st st' : Storage) (blk : Block) (sender to : address)
  (cid : string) (expiry : Z) (isMedia : bool) (messageType : string) (id : Z)
  (ev : MessageSentEvent) :
  sendMessage st blk sender to cid expiry isMedia messageType = Ok (id, st', ev) ->
  getMessage st' id
  = Ok {| msg_from := sender; msg_to := to; msg_cid := cid;
          msg_timestamp := timestamp blk; msg_expiry := expiry;
          msg_isMedia := isMedia; msg_messageType := messageType;
          msg_conversationHash := getConversationHash sender to |} /\
  getUserMessages st' sender = (getUserMessages st sender ++ [id])%list /\
  getUserMessages st' to = (getUserMessages st to ++ [id])%list /\
  getConversationMessages st' (getConversationHash sender to)
  = (getConversationMessages st (getConversationHash sender to) ++ [id])%list /\
  getConversationMessages st' (getConversationHash to sender)
  = (getConversationMessages st (getConversationHash to sender) ++ [id])%list /\
  sent_messageId ev = id.
Proof.
  intros Hsend.
  destruct (chat_sendMessage_inv _ _ _ _ _ _ _ _ _ _ _ Hsend)
    as (_ & _ & _ & _ & _ & -> & Hc' & Hm' & Hu' & Hh' & _ & ->).
  unfold getUserMessages, getConversationMessages, getConversationHash.
  rewrite <- (generateConversationHash_sym sender to).
  rewrite getMessage_stored by lia.
  rewrite Hm', !Hu', Hh'. unfold upd. rewrite !Z.eqb_refl.
  rewrite orb_true_r. cbn [orb]. repeat split; reflexivity.
Qed.

(** X14.  On every state reached from deployment, the list that
    [getConversationMessages] returns for a hash holds, in ascending order
    and once each, exactly the identifiers of the stored messages that carry
    that hash, and [getUserMessages] likewise those that the user sent or
    received.  Both parties compute the same hash, and every message between
    them, in either direction, is in its list. *)
Theorem conversation_index_is_exact (st : Storage) (h : bytes32) (a b : address) :
  reachable st ->
  getConversationMessages st h
  = ids_where (fun id => msg_conversationHash (messages st id) =? h) (messageCounter st) /\
  getUserMessages st a
  = ids_where (fun id => (msg_from (messages st id) =? a) || (msg_to (messages st id) =? a))
      (messageCounter st) /\
  getConversationHash a b = getConversationHash b a /\
  (forall id m,
     0 <= id -> getMessage st id = Ok m ->
     (msg_from m = a /\ msg_to m = b) \/ (msg_from m = b /\ msg_to m = a) ->
     In id (getConversationMessages st (getConversationHash a b))).
Proof.
  intros Hr. destruct (reachable_storage_wf st Hr) as (Hc & _ & Hm & Hu & Hh).
  unfold getConversationMessages, getUserMessages, getConversationHash.
  split; [apply Hh|]. split; [apply Hu|]. split; [apply generateConversationHash_sym|].
  intros id m Hid Hget Hpair. destruct (getMessage_inv _ _ _ Hget) as [Hlt ->].
  rewrite Hh. apply ids_where_In. split; [lia|].
  destruct (Hm id (conj Hid Hlt)) as (_ & _ & _ & _ & Hhash & _).
  apply Z.eqb_eq. rewrite Hhash.
  destruct Hpair as [[-> ->]|[-> ->]];
    [reflexivity | apply generateConversationHash_sym].
Qed.

(** X15.  On every state reached from deployment, each identifier in a
    conversation list or a user list can be fetched with [getMessage], and
    the fetched message has a nonzero recipient other than its sender, a
    non-empty content reference and type, the conversation hash of its two
    parties, and an expiry that is 0 or later than its timestamp by at most
    365 days; in particular it is not expired in the block that stored it. *)
Theorem listed_messages_are_wellformed (st : Storage) (h : bytes32) (user : address)
  (id : Z) :
  reachable st ->
  In id (getConversationMessages st h) \/ In id (getUserMessages st user) ->
  exists m,
    getMessage st id = Ok m /\
    msg_to m <> 0 /\ msg_to m <> msg_from m /\
    msg_cid m <> EmptyString /\ msg_messageType m <> EmptyString /\
    msg_conversationHash m = getConversationHash (msg_from m) (msg_to m) /\
    (msg_expiry m = 0 \/ msg_timestamp m < msg_expiry m <= msg_timestamp m + YEAR) /\
    isExpired st {| timestamp := msg_timestamp m; prevrandao := 0 |} id = Ok false.
Proof.
  intros Hr Hin. destruct (reachable_storage_wf st Hr) as (Hc & _ & Hm & Hu & Hh).
  assert (Hb : 0 <= id < messageCounter st).
  { unfold getConversationMessages, getUserMessages in Hin. rewrite Hh, Hu in Hin.
    destruct Hin as [Hin|Hin]; apply ids_where_In in Hin; tauto. }
  exists (messages st id). rewrite getMessage_stored by lia.
  destruct (Hm id Hb) as (H1 & H2 & H3 & H4 & H5 & _ & H6).
  do 7 (split; [first [reflexivity | assumption]|]).
  unfold isExpired. replace (id <? messageCounter st) with true
    by (symmetry; apply Z.ltb_lt; lia).
  cbn [negb timestamp].
  destruct (Z.eqb_spec (msg_expiry (messages st id)) 0); [reflexivity|].
  f_equal. rewrite Z.gtb_ltb. apply Z.ltb_ge. lia.
Qed.

(** X16.  On every state reached from deployment both components of [getStats]
    are the number of messages stored so far: the component named
    [totalUsers] is the message counter, and [getMessage] succeeds exactly
    below it. *)
Theorem getStats_counts_messages_twice (st : Storage) :
  reachable st ->
  getStats st = (messageCounter st, messageCounter st) /\
  0 <= messageCounter st /\
  forall id, (exists m, getMessage st id = Ok m) <-> id < messageCounter st.
Proof.
  intros Hr. destruct (reachable_storage_wf st Hr) as (Hc & Ht & _).
  unfold getStats. rewrite Ht. split; [reflexivity|]. split; [exact Hc|].
  intros id. split.
  - intros (m & Hget). apply (getMessage_inv _ _ _ Hget).
  - intros Hlt. eexists. apply getMessage_stored. exact Hlt.
Qed.

End ChatContractTheorems.

Section ChatContractViews.
Import Ledger LedgerHistory ChatContract.

(** X17.  [getRecentMessages] never reverts and returns the user's last 50
    message identifiers (all of them when there are fewer), newest first. *)
Theorem getRecentMessages_newest_first (st : Storage) (user : address) :
  getRecentMessages st user = Ok (firstn 50 (rev (getUserMessages st user))).
Proof.
  unfold getRecentMessages, getUserMessages.
  set (allMessages := userMessages st user).
  destruct (Nat.eqb_spec (List.length allMessages) 0) as [Hz|Hnz].
  - destruct allMessages; [reflexivity | discriminate].
  - destruct (Nat.ltb_spec 50 (List.length allMessages)) as [Hlt|Hge].
    + rewrite (copy_recent_ok allMessages 50 0); [reflexivity | lia | | reflexivity].
      apply repeat_length.
    + rewrite (copy_recent_ok allMessages (List.length allMessages) 0);
        [| lia | apply repeat_length | reflexivity].
      cbn [Nat.add]. f_equal.
      rewrite <- (length_rev allMessages), firstn_all. symmetry. apply firstn_all2.
      rewrite length_rev. lia.
Qed.

End ChatContractViews.

Section ExpiryTheorems.
Import Ledger ChatContract.
Context `{K : Keccak}.

(** X18.  The three expiry checks agree on every stored message: for a block
    time taken as the current time, the contract's [isExpired], the replay
    loop's test on the fetched message and [isMessageExpired] of the privacy
    manager give the same verdict, which is false for expiry 0. *)
Theorem expiry_checks_agree (st : Storage) (blk : Block) (id : Z) (m : MessageData)
  (message : Conversation.Message) :
  reachable st ->
  0 <= id ->
  getMessage st id = Ok m ->
  Conversation.expiry message = msg_expiry m ->
  isExpired st blk id = Ok (Replay.isExpired (timestamp blk) message) /\
  PrivacyManager.isMessageExpired (timestamp blk) (msg_timestamp m) (msg_expiry m)
  = Replay.isExpired (timestamp blk) message /\
  (msg_expiry m = 0 -> Replay.isExpired (timestamp blk) message = false).
Proof.
  intros Hr Hid Hget Hexp. destruct (reachable_storage_wf st Hr) as (_ & _ & Hm & _).
  destruct (getMessage_inv _ _ _ Hget) as [Hlt ->].
  destruct (Hm id (conj Hid Hlt)) as (_ & _ & _ & _ & _ & Hnn & _).
  unfold isExpired, PrivacyManager.isMessageExpired, Replay.isExpired.
  replace (id <? messageCounter st) with true by (symmetry; apply Z.ltb_lt; lia).
  rewrite Hexp. cbn [negb].
  destruct (Z.eqb_spec (msg_expiry (messages st id)) 0) as [Hz|Hnz].
  - cbn [negb andb]. repeat split.
  - assert (Hpos : (msg_expiry (messages st id) >? 0) = true)
      by (rewrite Z.gtb_ltb; apply Z.ltb_lt; lia).
    rewrite Hpos. cbn [negb andb]. repeat split. intros Hz. contradiction.
Qed.

End ExpiryTheorems.

(** ** The session scan over an answering provider *)

Section ScanWindowTheorems.
Import Conversation SessionMessages ScanWindow.
Context `{P : Provider}.

Lemma filter_split_perm {A : Type} (p q r : A -> bool) (l : list A) :
  (forall x, r x = p x || q x) ->
  (forall x, p x && q x = false) ->
  Permutation (filter r l) (filter p l ++ filter q l).
Proof.
  intros Hr Hd. induction l as [|x l IH]; cbn [filter]; [constructor|].
  rewrite Hr. specialize (Hd x).
  destruct (p x), (q x); cbn [orb app]; try discriminate.
  - apply perm_skip. exact IH.
  - apply Permutation_cons_app. exact IH.
  - exact IH.
Qed.

Lemma filter_empty_range (lo hi : Z) (logs : list EventLog) :
  hi < lo -> filter (in_blocks lo hi) logs = [].
Proof.
  intros Hlt. induction logs as [|e r IH]; [reflexivity|]. cbn [filter].
  unfold in_blocks at 1.
  destruct (Z.leb_spec lo (log_blockNumber e)), (Z.leb_spec (log_blockNumber e) hi);
    cbn [andb]; try exact IH. lia.
Qed.

(** The rounds from [block] on collect the events of the blocks from
    [block] to the current one. *)
Lemma scan_rounds_collect (sessionAddress : string) (currentBlock : Z)
  (logs : list EventLog) :
  (forall lo hi, lo <= hi -> hi - lo < chunkSize ->
     queryFilter sessionAddress lo hi = Ok (filter (in_blocks lo hi) logs)) ->
  forall (n : nat) (block : Z) (messages : list Message),
    currentBlock - block < Z.of_nat n * chunkSize ->
    Permutation
      (for_range block currentBlock chunkSize (scan_chunk sessionAddress currentBlock)
         messages)
      (messages ++ map (session_message sessionAddress)
                     (filter (in_blocks block currentBlock) logs)).
Proof.
  intros Hq. unfold chunkSize in *.
  induction n as [|n IH]; intros block messages Hn.
  - rewrite for_range_unfold by lia.
    replace (block <=? currentBlock) with false by (symmetry; apply Z.leb_gt; lia).
    rewrite filter_empty_range by lia. rewrite app_nil_r. reflexivity.
  - rewrite for_range_unfold by lia.
    destruct (Z.leb_spec block currentBlock) as [Hle|Hgt].
    2:{ rewrite filter_empty_range by lia. rewrite app_nil_r. reflexivity. }
    rewrite scan_chunk_appends_own_query. unfold chunkSize.
    set (toBlock := Z.min (block + 500 - 1) currentBlock).
    rewrite Hq by (unfold toBlock; lia).
    unfold push_events.
    etransitivity; [apply IH; lia|].
    rewrite <- app_assoc. apply Permutation_app_head.
    rewrite <- map_app. apply Permutation_map. symmetry.
    destruct (Z.le_gt_cases (block + 500) currentBlock) as [Hmore|Hlast].
    + replace toBlock with (block + 499) by (unfold toBlock; lia).
      apply filter_split_perm; intros e; unfold in_blocks;
        destruct (Z.leb_spec block (log_blockNumber e)),
                 (Z.leb_spec (log_blockNumber e) currentBlock),
                 (Z.leb_spec (log_blockNumber e) (block + 499)),
                 (Z.leb_spec (block + 500) (log_blockNumber e));
        cbn [andb orb]; try reflexivity; lia.
    + replace toBlock with currentBlock by (unfold toBlock; lia).
      rewrite (filter_empty_range (block + 500)) by lia. rewrite app_nil_r. reflexivity.
Qed.

(** X19.  When the provider answers the height and every query that spans at
    most 500 blocks from the session's logs, the scan returns exactly the
    messages of the events emitted in the blocks from
    [max(currentBlock - 10000, fromBlock)] to [currentBlock], each once, in
    ascending order of their timestamps: no event of the window is missed
    or repeated at a chunk border, and no event before the window is
    returned. *)
Theorem scan_returns_the_window (sessionAddress : string) (fromBlock currentBlock : Z)
  (logs : list EventLog) :
  getBlockNumber = Ok currentBlock ->
  (forall lo hi, lo <= hi -> hi - lo < chunkSize ->
     queryFilter sessionAddress lo hi = Ok (filter (in_blocks lo hi) logs)) ->
  Permutation
    (getSessionMessagesWithLimit sessionAddress fromBlock)
    (map (session_message sessionAddress)
       (filter (in_blocks (Z.max (currentBlock - maxBlocksToScan) fromBlock) currentBlock)
          logs)) /\
  StronglySorted earlier (getSessionMessagesWithLimit sessionAddress fromBlock).
Proof.
  intros Hh Hq. unfold getSessionMessagesWithLimit. rewrite Hh.
  split; [|apply Array_sort_sorted].
  etransitivity; [symmetry; apply Array_sort_perm|].
  set (start := Z.max (currentBlock - maxBlocksToScan) fromBlock).
  apply (scan_rounds_collect sessionAddress currentBlock logs Hq
           (Z.to_nat (currentBlock - start + 1)) start []).
  unfold chunkSize. destruct (Z.le_gt_cases start currentBlock); lia.
Qed.

End ScanWindowTheorems.

(** ** Sending through the blockchain service *)

Section SendTheorems.
Import BlockchainService.
Context `{N : Rpc}.

Lemma checkSufficientBalance_inv (estimatedGas : Z) :
  (forall call gasLimit,
     ~ In (SendTransaction call gasLimit) (snd (checkSufficientBalance estimatedGas))) /\
  (forall ok, fst (checkSufficientBalance estimatedGas) = Done ok ->
     snd (checkSufficientBalance estimatedGas) = [GetBalance; GetFeeData] /\
     exists balance price,
       getBalance = Done balance /\ getFeeData = Done (Some price) /\
       with_margin estimatedGas * price <= balance).
Proof.
  unfold checkSufficientBalance, perform, and_then, ret, throw.
  destruct getBalance as [balance|e]; cbn.
  2:{ split; [intros call g [Hf|[]]; discriminate | intros ok Hf; discriminate]. }
  destruct getFeeData as [[price|]|e]; cbn.
  - destruct (Z.ltb_spec balance (with_margin estimatedGas * price)); cbn.
    + split; [intros call g [Hf|[Hf|[Hf|[]]]]; discriminate | intros ok Hf; discriminate].
    + split; [intros call g [Hf|[Hf|[]]]; discriminate|].
      intros ok _. split; [reflexivity|]. exists balance, price. repeat split. lia.
  - split; [intros call g [Hf|[Hf|[]]]; discriminate | intros ok Hf; discriminate].
  - split; [intros call g [Hf|[Hf|[]]]; discriminate | intros ok Hf; discriminate].
Qed.

Lemma send_failed_inv {A : Type} (shownGas : Z) (error : JsError) :
  (forall call gasLimit,
     ~ In (SendTransaction call gasLimit) (snd (send_failed (A := A) shownGas error))) /\
  (forall a, fst (send_failed (A := A) shownGas error) <> Done a).
Proof.
  unfold send_failed, perform, and_then, throw.
  destruct (_ || _); cbn; [|split; [intros call g [] | intros a; discriminate]].
  destruct getBalance as [balance|e]; cbn.
  - split; [intros call g [Hf|[Hf|[]]]; discriminate | intros a; discriminate].
  - split; [intros call g [Hf|[]]; discriminate | intros a; discriminate].
Qed.

(** The body shared by both send functions: the estimate, the balance
    check, the transaction and its receipt. *)
Lemma attempt_inv {A : Type} (call : Call) (refusal : string)
  (build : TransactionReceipt -> A) (shownGas : Z) :
  let run :=
    try_catch
      (gasEstimate <~ perform (EstimateGas call) (estimateGas call) ;;
       _ <~ checkSufficientBalance gasEstimate ;;
       tx <~ perform (SendTransaction call (with_margin gasEstimate))
               (sendTransaction call (with_margin gasEstimate)) ;;
       receipt <~ perform (Wait tx) (wait tx) ;;
       if receipt_status receipt =? 0 then throw (Error refusal)
       else ret (build receipt))
      (send_failed shownGas) in
  (forall submitted gasLimit,
     In (SendTransaction submitted gasLimit) (snd run) ->
     submitted = call /\
     exists gasEstimate balance price,
       estimateGas call = Done gasEstimate /\
       gasLimit = with_margin gasEstimate /\
       getBalance = Done balance /\ getFeeData = Done (Some price) /\
       gasLimit * price <= balance) /\
  (forall result,
     fst run = Done result ->
     exists gasEstimate tx receipt,
       snd run = [EstimateGas call; GetBalance; GetFeeData;
                  SendTransaction call (with_margin gasEstimate); Wait tx] /\
       sendTransaction call (with_margin gasEstimate) = Done tx /\
       wait tx = Done receipt /\
       receipt_status receipt <> 0 /\
       result = build receipt).
Proof.
  cbv zeta. unfold try_catch, and_then, perform, ret, throw.
  destruct (estimateGas call) as [g|e] eqn:Hg.
  2:{ destruct (send_failed_inv (A := A) shownGas e) as [Hno Hnd].
      destruct (send_failed shownGas e) as [o more]. cbn [fst snd app] in *.
      split.
      - intros s gl [Hf|Hin]; [discriminate | exfalso; exact (Hno s gl Hin)].
      - intros r ->. exfalso. exact (Hnd r eq_refl). }
  destruct (checkSufficientBalance_inv g) as [Hcno Hcok].
  destruct (checkSufficientBalance g) as [[ok|e] checked]; cbn [fst snd] in *.
  2:{ destruct (send_failed_inv (A := A) shownGas e) as [Hno Hnd].
      destruct (send_failed shownGas e) as [o more]. cbn [fst snd app] in *.
      split.
      - intros s gl [Hf|Hin]; [discriminate|]. apply in_app_or in Hin.
        destruct Hin as [Hin|Hin];
          [exfalso; exact (Hcno s gl Hin) | exfalso; exact (Hno s gl Hin)].
      - intros r ->. exfalso. exact (Hnd r eq_refl). }
  destruct (Hcok ok eq_refl) as (-> & balance & price & Hb & Hp & Hle).
  assert (Hchecked : exists gasEstimate balance price,
             Done g = Done gasEstimate /\
             with_margin g = with_margin gasEstimate /\
             getBalance = Done balance /\ getFeeData = Done (Some price) /\
             with_margin g * price <= balance)
    by (exists g, balance, price; repeat split; assumption).
  destruct (sendTransaction call (with_margin g)) as [tx|e] eqn:Htx; cbn [fst snd app].
  2:{ destruct (send_failed_inv (A := A) shownGas e) as [Hno Hnd].
      destruct (send_failed shownGas e) as [o more]. cbn [fst snd app] in *.
      split.
      - intros s gl [Hf|[Hf|[Hf|[Hf|Hin]]]]; try discriminate.
        + injection Hf as <- <-. split; [reflexivity | exact Hchecked].
        + exfalso; exact (Hno s gl Hin).
      - intros r ->. exfalso. exact (Hnd r eq_refl). }
  destruct (wait tx) as [receipt|e] eqn:Hw; cbn [fst snd app].
  2:{ destruct (send_failed_inv (A := A) shownGas e) as [Hno Hnd].
      destruct (send_failed shownGas e) as [o more]. cbn [fst snd app] in *.
      split.
      - intros s gl [Hf|[Hf|[Hf|[Hf|[Hf|Hin]]]]]; try discriminate.
        + injection Hf as <- <-. split; [reflexivity | exact Hchecked].
        + exfalso; exact (Hno s gl Hin).
      - intros r ->. exfalso. exact (Hnd r eq_refl). }
  destruct (Z.eqb_spec (receipt_status receipt) 0) as [Hz|Hnz]; cbn [fst snd app].
  - destruct (send_failed_inv (A := A) shownGas (Error refusal)) as [Hno Hnd].
    destruct (send_failed shownGas (Error refusal)) as [o more].
    cbn [fst snd app] in *.
    split.
    + intros s gl [Hf|[Hf|[Hf|[Hf|[Hf|Hin]]]]]; try discriminate.
      * injection Hf as <- <-. split; [reflexivity | exact Hchecked].
      * exfalso; exact (Hno s gl Hin).
    + intros r ->. exfalso. exact (Hnd r eq_refl).
  - split.
    + intros s gl [Hf|[Hf|[Hf|[Hf|[Hf|[]]]]]]; try discriminate.
      injection Hf as <- <-. split; [reflexivity | exact Hchecked].
    + intros r [= <-]. exists g, tx, receipt. repeat split; assumption.
Qed.

(** X20.  Both send functions submit a transaction only after its gas estimate
    succeeded (so the call would not revert on the state the provider saw)
    and the wallet's balance was read and covers the gas limit they pass,
    120% of the estimate, at the quoted gas price.  When they return, they
    made exactly the five calls estimate, balance, fee data, transaction
    and wait, the receipt's status is not 0 and the result carries the
    receipt's hash. *)
Theorem transaction_is_submitted_after_checks
  (sessionAddress to cid messageType : string) (expiry : Z) (isMedia : bool) :
  let sessionCall := SessionSendMessage sessionAddress cid expiry isMedia messageType in
  let chatCall := ChatSendMessage to cid expiry false messageType in
  let sessionRun := sendSessionMessage sessionAddress cid expiry isMedia messageType in
  let chatRun := sendMessageWithMedia to cid expiry messageType in
  (forall submitted gasLimit,
     In (SendTransaction submitted gasLimit) (snd sessionRun) /\ submitted = sessionCall \/
     In (SendTransaction submitted gasLimit) (snd chatRun) /\ submitted = chatCall ->
     exists gasEstimate balance price,
       estimateGas submitted = Done gasEstimate /\
       gasLimit = with_margin gasEstimate /\
       getBalance = Done balance /\ getFeeData = Done (Some price) /\
       gasLimit * price <= balance) /\
  (forall submitted gasLimit,
     In (SendTransaction submitted gasLimit) (snd sessionRun) -> submitted = sessionCall) /\
  (forall submitted gasLimit,
     In (SendTransaction submitted gasLimit) (snd chatRun) -> submitted = chatCall) /\
  (forall result,
     fst sessionRun = Done result ->
     exists gasEstimate tx receipt,
       snd sessionRun = [EstimateGas sessionCall; GetBalance; GetFeeData;
                         SendTransaction sessionCall (with_margin gasEstimate); Wait tx] /\
       wait tx = Done receipt /\ receipt_status receipt <> 0 /\
       transactionHash result = receipt_hash receipt /\
       sent_sessionAddress result = Some sessionAddress) /\
  (forall result,
     fst chatRun = Done result ->
     exists gasEstimate tx receipt,
       snd chatRun = [EstimateGas chatCall; GetBalance; GetFeeData;
                      SendTransaction chatCall (with_margin gasEstimate); Wait tx] /\
       wait tx = Done receipt /\ receipt_status receipt <> 0 /\
       transactionHash result = receipt_hash receipt /\
       sent_messageId result = find_messageId (receipt_logs receipt)).
Proof.
  cbv zeta.
  pose proof (attempt_inv
                (SessionSendMessage sessionAddress cid expiry isMedia messageType)
                "Session transaction failed"
                (fun receipt =>
                   {| transactionHash := receipt_hash receipt;
                      gasUsed := Conversation.Z_toString (receipt_gasUsed receipt);
                      sent_messageId := None;
                      sent_sessionAddress := Some sessionAddress;
                      sent_blockNumber := receipt_blockNumber receipt |}) 50000)
    as [Hs1 Hs2].
  pose proof (attempt_inv
                (ChatSendMessage to cid expiry false messageType)
                "Transaction failed"
                (fun receipt =>
                   {| transactionHash := receipt_hash receipt;
                      gasUsed := Conversation.Z_toString (receipt_gasUsed receipt);
                      sent_messageId := find_messageId (receipt_logs receipt);
                      sent_sessionAddress := None;
                      sent_blockNumber := receipt_blockNumber receipt |}) 400000)
    as [Hc1 Hc2].
  fold (sendSessionMessage sessionAddress cid expiry isMedia messageType) in Hs1, Hs2.
  fold (sendMessageWithMedia to cid expiry messageType) in Hc1, Hc2.
  split; [|split; [|split; [|split]]].
  - intros s gl [[Hin ->]|[Hin ->]].
    + destruct (Hs1 _ _ Hin) as [_ Hex]. exact Hex.
    + destruct (Hc1 _ _ Hin) as [_ Hex]. exact Hex.
  - intros s gl Hin. apply (Hs1 _ _ Hin).
  - intros s gl Hin. apply (Hc1 _ _ Hin).
  - intros r Hr. destruct (Hs2 r Hr) as (g & tx & receipt & Ht & _ & Hw & Hst & ->).
    exists g, tx, receipt. repeat split; assumption.
  - intros r Hr. destruct (Hc2 r Hr) as (g & tx & receipt & Ht & _ & Hw & Hst & ->).
    exists g, tx, receipt. repeat split; assumption.
Qed.

End SendTheorems.

(** ** The replay listing *)

Section OwnMessages.
Import EncryptionService Conversation Replay.
Context `{C : Secp256k1} `{!Secp256k1Laws} `{Sh : Sha256} `{!Sha256Laws}
        `{Na : Sodium} `{!SodiumLaws} `{J : Json} `{!JsonLaws}.

(** X21.  The replay opens every message with the wallet's key and the key of
    the message's sender.  For a message that the wallet's owner sent, the
    sender is the owner, so the key derived is that of the owner with
    themselves and not the key that sealed the message for the peer: when
    the two keys differ, the owner's own message is listed under the label
    You with the undecryptable sentinel as its content. *)
Theorem own_message_is_unreadable_in_replay
  (m addrA privA addrB privB : string) (nonce : list byte) :
  List.length nonce = NPUBBYTES ->
  table_identity addrA privA ->
  table_identity addrB privB ->
  derived_key privA addrA <> derived_key privA addrB ->
  exists env,
    encryptForRecipient m privA addrB nonce = Ok env /\
    decryptFromSender env privA addrA = UNDECRYPTABLE /\
    forall currentTime index message out,
      cid message = env ->
      from message = addrA ->
      isExpired currentTime message = false ->
      exists expiryLines,
        lines (show_message addrA privA currentTime index message out)
        = (lines out
           ++ [MessageHeader (index + 1) (String.eqb (source message) "session") "You"
                 (timestamp message);
               Content UNDECRYPTABLE]
           ++ expiryLines)%list.
Proof.
  intros Hn HA HB Hne.
  destruct (table_lookup _ _ HA) as (_ & HvA & _).
  pose proof (derived_key_table privA addrB privB HvA HB) as HkB.
  set (key := sha256 (x_coord (mul (scalar_of privA) (mulG (scalar_of privB))))) in *.
  destruct (aead_encrypt_defined (from_string m) nonce key Hn (sha256_length _))
    as (c & Hc).
  assert (Henc : encryptForRecipient m privA addrB nonce
                 = Ok (JSON_stringify (envelope (to_base64 c) (to_base64 nonce)))).
  { rewrite encryptForRecipient_derived, HkB. cbn [bind]. rewrite Hc. reflexivity. }
  assert (Hdec : decryptFromSender (JSON_stringify (envelope (to_base64 c) (to_base64 nonce)))
                   privA addrA = UNDECRYPTABLE).
  { apply (mismatched_key_undecryptable m privA addrB _ privA addrA nonce key Hn Henc HkB).
    rewrite <- HkB. exact Hne. }
  eexists. split; [exact Henc|]. split; [exact Hdec|].
  intros currentTime index message out Hcid Hfrom Hexp.
  unfold show_message. rewrite Hexp, Hcid, Hfrom, Hdec, String.eqb_refl.
  cbn [lines]. eexists. reflexivity.
Qed.

End OwnMessages.

Section ListingTheorems.
Import Conversation MainMessages Replay ReplayListing.
Context `{C : Secp256k1} `{Sh : Sha256} `{Na : Sodium} `{J : Json}.
Variable walletAddress privateKey : string.

Lemma positions_app (a b : list Line) :
  positions (a ++ b) = (positions a ++ positions b)%list.
Proof. unfold positions. apply flat_map_app. Qed.

Lemma show_message_counts (currentTime : Z) (index : nat) (message : Message)
  (out : Output) :
  let shown := show_message walletAddress privateKey currentTime index message out in
  positions (lines shown) = (positions (lines out) ++ [index + 1])%nat%list /\
  displayedCount shown
  = (displayedCount out + if current currentTime message then 1 else 0)%nat /\
  failedCount shown = failedCount out.
Proof.
  unfold show_message, current. destruct (isExpired currentTime message); cbn [negb lines
    displayedCount failedCount].
  - rewrite positions_app. cbn. rewrite Nat.add_0_r. repeat split.
  - rewrite positions_app. unfold positions at 2. cbn [flat_map header_position app].
    destruct (expiry message >? 0); [destruct (expiry message - currentTime >? 0)|];
      cbn [flat_map header_position app]; repeat split.
Qed.

Lemma show_from_counts (currentTime : Z) (messages : list Message) :
  forall index out,
    let shown := show_from walletAddress privateKey currentTime index messages out in
    positions (lines shown)
    = (positions (lines out) ++ seq (index + 1) (List.length messages))%list /\
    displayedCount shown
    = (displayedCount out + List.length (filter (current currentTime) messages))%nat /\
    failedCount shown = failedCount out.
Proof.
  induction messages as [|m r IH]; intros index out; cbn [show_from filter List.length seq].
  - rewrite app_nil_r, Nat.add_0_r. repeat split.
  - destruct (IH (index + 1)%nat
                (show_message walletAddress privateKey currentTime index m out))
      as (Hp & Hd & Hf).
    destruct (show_message_counts currentTime index m out) as (Hp1 & Hd1 & Hf1).
    cbv zeta in *. rewrite Hp, Hd, Hf, Hp1, Hd1, Hf1. rewrite <- app_assoc.
    replace (S (index + 1)) with (index + 1 + 1)%nat by lia.
    split; [reflexivity|]. split; [|reflexivity].
    destruct (current currentTime m); cbn [List.length]; lia.
Qed.

(** X22.  The listing numbers the messages 1, 2, ..., one header each and in
    order, whether shown or hidden as expired.  The count of displayed
    messages in the summary is the number of messages that are not expired,
    including those whose content is shown as a sentinel, and the count of
    failed messages is 0. *)
Theorem replay_numbers_every_message (currentTime : Z) (messages : list Message) :
  let shown := show_from walletAddress privateKey currentTime 0 messages start in
  positions (lines shown) = seq 1 (List.length messages) /\
  displayedCount shown = List.length (filter (current currentTime) messages) /\
  failedCount shown = 0%nat.
Proof.
  destruct (show_from_counts currentTime messages 0%nat start) as (Hp & Hd & Hf).
  cbv zeta in *. rewrite Hp, Hd, Hf. repeat split.
Qed.

End ListingTheorems.

Section FetchTheorems.
Import Conversation MainMessages ReplayListing.
Context `{R : ChatReader}.

Lemma fetch_messages_flat_map (messageIds : list Z) (messages : list Message) :
  fetch_messages messageIds messages = (messages ++ flat_map fetched messageIds)%list.
Proof.
  revert messages. induction messageIds as [|i r IH]; intros messages;
    cbn [fetch_messages flat_map]; [rewrite app_nil_r; reflexivity|].
  unfold fetched at 1. destruct (getMessage i) as [d|e]; rewrite IH;
    [rewrite <- app_assoc|]; reflexivity.
Qed.

(** X23.  [getConversationMessages] returns, in the order of the identifiers
    that the contract lists for the conversation, one message for each
    identifier whose record can be fetched, and silently leaves out the
    others; when every record can be fetched, the identifiers of the
    returned messages are the listed identifiers. *)
Theorem getConversationMessages_skips_unreadable
  (walletAddress otherAddress conversationHash : string) (messageIds : list Z) :
  generateConversationHash walletAddress otherAddress = Ok conversationHash ->
  getConversationMessageIds conversationHash = Ok messageIds ->
  getConversationMessages walletAddress otherAddress = Ok (flat_map fetched messageIds) /\
  ((forall messageId, In messageId messageIds -> exists d, getMessage messageId = Ok d) ->
   map messageId (flat_map fetched messageIds) = map Z_toString messageIds) /\
  (forall messageId e, getMessage messageId = Throw e -> fetched messageId = []).
Proof.
  intros Hh Hids. unfold getConversationMessages. rewrite Hh. cbn [bind]. rewrite Hids.
  cbn [bind]. rewrite fetch_messages_flat_map. split; [reflexivity|]. split.
  - intros Hall. clear Hids. induction messageIds as [|i r IH]; [reflexivity|].
    cbn [flat_map map]. destruct (Hall i (or_introl eq_refl)) as (d & Hd).
    unfold fetched at 1. rewrite Hd. cbn [app map main_message messageId].
    f_equal. apply IH. intros j Hj. apply Hall. right. exact Hj.
  - intros i e He. unfold fetched. rewrite He. reflexivity.
Qed.

End FetchTheorems.

(** ** The command line *)

Section CommandLineTheorems.
Import Commands.

(** X24.  A command line that passes the parser's check names exactly one of the
    three commands, and [main] runs the handler of that command: the send
    handler exactly when both [--to] and [--message] are given (its expiry
    is then not negative), the replay handler exactly when [--replay] is
    given, and otherwise a wallet handler, listing taking precedence over
    deletion.  The check never fails with the error that asks for
    [--message]: a command line with [--to] alone is answered with the
    request to specify a command. *)
Theorem accepted_command_line_runs_one_handler (argv : Argv) :
  (check argv = Ok tt ->
   main argv <> NoHandler /\
   (main argv = HandleSend <->
    given (arg_to argv) && given (arg_message argv) = true) /\
   (main argv = HandleSend ->
    0 <= arg_expiry argv /\ given (arg_replay argv) = false /\
    arg_list_wallets argv = false /\ given (arg_delete_wallet argv) = false) /\
   (main argv = HandleReplay <-> given (arg_replay argv) = true) /\
   (main argv = HandleListWallets <-> arg_list_wallets argv = true) /\
   (main argv = HandleDeleteWallet <->
    arg_list_wallets argv = false /\ given (arg_delete_wallet argv) = true)) /\
  check argv <> Throw "--message is required when using --to" /\
  (given (arg_message argv) = false -> given (arg_replay argv) = false ->
   arg_list_wallets argv = false -> given (arg_delete_wallet argv) = false ->
   check argv = Throw "Please specify a command. Use --help for available options.").
Proof.
  unfold check, main, count_true.
  destruct (given (arg_to argv)), (given (arg_message argv)), (given (arg_replay argv)),
    (arg_list_wallets argv), (given (arg_delete_wallet argv));
    cbn [andb orb negb filter List.length Nat.eqb Nat.ltb Nat.leb];
    try (destruct (Z.ltb_spec (arg_expiry argv) 0));
    (split; [|split]); try discriminate; try (intros; discriminate);
    try reflexivity;
    try (intros _; repeat split; try discriminate; try reflexivity; try lia;
         try (intros; discriminate); try (intros [? ?]; discriminate)).
Qed.

End CommandLineTheorems.

(** ** Encodings of the peer's public key *)

Section KeyEncodingTheorems.
Import EncryptionService.
Context `{C : Secp256k1} `{Sh : Sha256}.

Lemma strip0x_hex_prefix (s : string) : strip0x ("0x" ++ s) = s.
Proof. reflexivity. Qed.

(** X25.  [generateSharedSecret] takes the peer's uncompressed public key in four
    spellings with the same result: the 128 digits of the two coordinates,
    the same after [04], and either of them after [0x]; so it accepts the
    [publicKey] of a wallet's signing key as it is.  Any other length of the
    key, once a valid private key is set, is refused with the length in the
    message. *)
Theorem generateSharedSecret_accepts_four_spellings (privateKeyHex body : string) :
  String.length body = 128%nat ->
  startsWith body "0x" = false ->
  generateSharedSecret privateKeyHex ("04" ++ body)
  = generateSharedSecret privateKeyHex body /\
  generateSharedSecret privateKeyHex ("0x" ++ body)
  = generateSharedSecret privateKeyHex body /\
  generateSharedSecret privateKeyHex ("0x04" ++ body)
  = generateSharedSecret privateKeyHex body /\
  (forall other,
     valid_scalar (be_to_Z (Buffer_from_hex (strip0x privateKeyHex))) = true ->
     String.length (strip0x other) <> 128%nat ->
     String.length (strip0x other) <> 130%nat ->
     generateSharedSecret privateKeyHex other
     = Throw ("Invalid public key format. Length: "
              ++ decimal (String.length (strip0x other)))).
Proof.
  intros Hlen Hx.
  assert (Hb : strip0x body = body) by (unfold strip0x; rewrite Hx; reflexivity).
  assert (H4 : strip0x ("04" ++ body) = "04" ++ body) by reflexivity.
  assert (Hl4 : String.length ("04" ++ body) = 130%nat)
    by (cbn [append String.length]; rewrite Hlen; reflexivity).
  assert (Hs4 : startsWith ("04" ++ body) "04" = true) by reflexivity.
  unfold generateSharedSecret.
  change (strip0x ("0x04" ++ body)) with ("04" ++ body).
  change (strip0x ("0x" ++ body)) with body.
  rewrite Hb, H4, Hl4, Hlen, Hs4.
  cbn [Nat.eqb andb].
  split; [reflexivity|]. split; [reflexivity|]. split; [reflexivity|].
  intros other Hv H128 H130.
  unfold ECDH_setPrivateKey. rewrite Hv. cbn [bind].
  apply Nat.eqb_neq in H128, H130. rewrite H128, H130. reflexivity.
Qed.

End KeyEncodingTheorems.

(** ** The logger *)

Section LoggerTheorems.
Import Logger.

Lemma level_number_cases (name : string) (n : Z) :
  level_number name = Some n -> 0 <= n <= 3.
Proof.
  unfold level_number, logLevels. cbn [assoc].
  repeat match goal with
         | |- context [String.eqb name ?s] => destruct (String.eqb name s)
         end; intros [= <-]; lia.
Qed.

Lemma log_keeps_level (level message : string) (st : State) :
  logLevel (log level message st) = logLevel st.
Proof. unfold log. destruct (negb _); reflexivity. Qed.

Lemma call_keeps_known_level (c : Call) (st : State) :
  hasOwnLevel (logLevel st) = true -> hasOwnLevel (logLevel (call c st)) = true.
Proof.
  intros Hk. destruct c as [m|m|m|m|level]; cbn [call];
    try (unfold debug, info, warn, error; rewrite log_keeps_level; exact Hk).
  unfold setLogLevel. destruct (hasOwnLevel level) eqn:Hl;
    unfold info, warn; rewrite log_keeps_level; [exact Hl | exact Hk].
Qed.

Lemma call_stays_silent (c : Call) (st : State) :
  hasOwnLevel (logLevel st) = false -> sets_level c = false ->
  call c st = st.
Proof.
  intros Hu Hs.
  assert (Hno : forall level, shouldLog (logLevel st) level = false).
  { intros level. unfold shouldLog. unfold hasOwnLevel in Hu.
    destruct (level_number level); [|reflexivity].
    destruct (level_number (logLevel st)); [discriminate | reflexivity]. }
  destruct c as [m|m|m|m|level]; cbn [call sets_level] in *;
    try (unfold debug, info, warn, error, log; rewrite Hno; reflexivity).
  unfold setLogLevel. rewrite Hs. unfold warn, log. rewrite Hno. reflexivity.
Qed.

(** X26.  A logger built with one of the four level names keeps a level among
    them through every sequence of calls, and then writes every error
    message.  A logger built with any other name, such as a misspelt
    [LOG_LEVEL], writes nothing at all, errors included, and does not
    report the invalid level either, until [setLogLevel] is called with one
    of the four names. *)
Theorem logger_level_decides_silence (initial : string) (calls : list Call)
  (message : string) :
  (hasOwnLevel initial = true ->
   let st := after calls (constructor initial) in
   hasOwnLevel (getLogLevel st) = true /\
   written (error message st) = (written st ++ [("error", message)])%list) /\
  (hasOwnLevel initial = false ->
   forallb (fun c => negb (sets_level c)) calls = true ->
   after calls (constructor initial) = constructor initial /\
   written (error message (after calls (constructor initial))) = []).
Proof.
  split.
  - intros Hk. cbv zeta.
    assert (Hinv : forall st, hasOwnLevel (logLevel st) = true ->
                              hasOwnLevel (logLevel (after calls st)) = true).
    { unfold after. induction calls as [|c r IH]; intros st Hst; [exact Hst|].
      cbn [fold_left]. apply IH. apply call_keeps_known_level. exact Hst. }
    specialize (Hinv (constructor initial) Hk). split; [exact Hinv|].
    unfold error, log, shouldLog. unfold getLogLevel, hasOwnLevel in Hinv.
    change (level_number "error") with (Some 3).
    destruct (level_number (logLevel (after calls (constructor initial)))) as [n|] eqn:Hn;
      [|discriminate].
    apply level_number_cases in Hn.
    replace (3 >=? n) with true by (symmetry; apply Z.geb_le; lia). reflexivity.
  - intros Hu Hcalls.
    assert (Hinv : forall st, hasOwnLevel (logLevel st) = false -> after calls st = st).
    { unfold after. induction calls as [|c r IH]; intros st Hst; [reflexivity|].
      cbn [fold_left forallb] in *. apply andb_prop in Hcalls. destruct Hcalls as [Hc Hr].
      rewrite call_stays_silent;
        [apply IH; assumption | exact Hst | destruct (sets_level c); [discriminate|reflexivity]]. }
    rewrite (Hinv (constructor initial) Hu). split; [reflexivity|].
    change (error message (constructor initial))
      with (call (CallError message) (constructor initial)).
    rewrite (call_stays_silent (CallError message) (constructor initial) Hu eq_refl).
    reflexivity.
Qed.

End LoggerTheorems.

(** ** The factory's properties on concrete histories *)

Section LedgerInstances.
Import Ledger LedgerHistory Model Timeline.

Lemma opened_evolves : evolves genesis [] opened.
Proof.
  apply (evolves_step genesis [] genesis [] opened (evolves_refl _)).
  apply (step_create genesis (at_block 1000) alice bob 1001 1 opened). reflexivity.
Qed.

Lemma answered_evolves : evolves genesis talk answered.
Proof.
  apply (evolves_step genesis [(1001, text_event alice "hello" 1010 0)] greeted
           [(1001, text_event bob "hi" 1020 1)] answered).
  - apply (evolves_step genesis [] opened
             [(1001, text_event alice "hello" 1010 0)] greeted opened_evolves).
    apply (step_send opened (at_block 1010) 1001 alice "hello" 0 false "text").
    reflexivity.
  - apply (step_send greeted (at_block 1020) 1001 bob "hi" 0 false "text"). reflexivity.
Qed.

Lemma shut_evolves : evolves opened talk shut.
Proof.
  apply (evolves_step opened talk answered [] shut).
  - apply (evolves_step opened [(1001, text_event alice "hello" 1010 0)] greeted
             [(1001, text_event bob "hi" 1020 1)] answered).
    + apply (evolves_step opened [] opened
               [(1001, text_event alice "hello" 1010 0)] greeted (evolves_refl _)).
      apply (step_send opened (at_block 1010) 1001 alice "hello" 0 false "text").
      reflexivity.
    + apply (step_send greeted (at_block 1020) 1001 bob "hi" 0 false "text"). reflexivity.
  - apply (step_close answered 1001 bob). reflexivity.
Qed.

Lemma renewed_evolves : evolves genesis [] renewed.
Proof.
  apply (evolves_step genesis [] opened [] renewed opened_evolves).
  apply (step_create opened (at_block 5000) alice bob 1002 2 renewed). reflexivity.
Qed.

Lemma swept_evolves : evolves genesis [] swept.
Proof.
  apply (evolves_step genesis [] renewed [] swept renewed_evolves).
  apply (step_cleanup renewed (at_block 5000) [1] swept). reflexivity.
Qed.

Lemma getSessionBetween_is_symmetric_witness :
  exists answer,
    getSessionBetween opened (at_block 1300) alice bob = Ok answer /\
    getSessionBetween opened (at_block 1300) bob alice = Ok answer.
Proof.
  apply (getSessionBetween_is_symmetric (E := counting_evm) opened (at_block 1300) alice bob).
  exists []. exact opened_evolves.
Defined.

Lemma session_deadline_is_fixed_witness :
  sessionExpiry first_session = createdAt first_session + SESSION_DURATION /\
  exists s',
    deployed shut 1001 = Some s' /\
    participant1 s' = participant1 first_session /\
    participant2 s' = participant2 first_session /\
    createdAt s' = createdAt first_session /\
    sessionExpiry s' = sessionExpiry first_session /\
    messageCount first_session <= messageCount s' /\
    (sessionActive first_session = false -> sessionActive s' = false).
Proof.
  apply (session_deadline_is_fixed (E := counting_evm) opened shut talk 1001 first_session).
  - exists []. exact opened_evolves.
  - exact shut_evolves.
  - reflexivity.
Defined.

Lemma closed_or_expired_session_rejects_witness :
  exists e, sendMessageAt shut (at_block 4600) 1001 alice "late" 0 false "text" = Throw e.
Proof.
  apply (closed_or_expired_session_rejects (E := counting_evm) opened shut talk 1001
           first_session (at_block 4600) alice "late" 0 false "text").
  - exact shut_evolves.
  - reflexivity.
  - right. cbn. lia.
Defined.

Lemma message_indices_are_consecutive_witness :
  match deployed answered 1001 with
  | Some s =>
      map ev_messageIndex (events_of 1001 talk)
      = count_from 0 (List.length (events_of 1001 talk)) /\
      messageCount s = Z.of_nat (List.length (events_of 1001 talk)) /\
      Forall (fun ev =>
                (ev_from ev = participant1 s \/ ev_from ev = participant2 s) /\
                ev_timestamp ev < sessionExpiry s)
             (events_of 1001 talk)
  | None => events_of 1001 talk = []
  end.
Proof.
  apply (message_indices_are_consecutive (E := counting_evm) answered talk 1001).
  exact answered_evolves.
Defined.

Lemma liveness_views_agree_witness :
  exists s view remaining,
    deployed opened 1001 = Some s /\
    getSessionInfo s (at_block 1300) = Ok view /\
    getRemainingTime s (at_block 1300) = Ok remaining /\
    view_active view = true /\
    view_remaining view = remaining /\
    (true = true <-> sessionMustBeActive s (at_block 1300) = Ok tt) /\
    (0 < remaining <-> isSessionExpired s (at_block 1300) = false).
Proof.
  apply (liveness_views_agree opened (at_block 1300) alice bob 1 1001 true).
  - reflexivity.
  - discriminate.
Defined.

Lemma getActiveUserSessions_filters_witness :
  getActiveUserSessions swept (at_block 5000) alice
  = Ok (filter (is_active swept (at_block 5000)) (userSessions (factory swept) alice)) /\
  userSessions (factory swept) alice = [1; 2] /\
  filter (is_active swept (at_block 5000)) (userSessions (factory swept) alice) = [2].
Proof.
  split; [|split; reflexivity].
  apply (getActiveUserSessions_filters (E := counting_evm) swept (at_block 5000) alice).
  exists []. exact swept_evolves.
Defined.

Lemma cleanup_deactivates_expired_witness :
  sessionContracts (factory swept) = sessionContracts (factory renewed) /\
  participantPairToSession (factory swept) = participantPairToSession (factory renewed) /\
  totalSessions (factory swept) = totalSessions (factory renewed) /\
  forall id, In id [1] ->
    sessionContracts (factory renewed) id <> 0 ->
    exists s', deployed swept (sessionContracts (factory renewed) id) = Some s' /\
               (isSessionExpired s' (at_block 5000) = true -> sessionActive s' = false).
Proof.
  apply (cleanup_deactivates_expired [1] renewed swept (at_block 5000)). reflexivity.
Defined.

Lemma renewal_reverts_on_empty_counter_witness :
  createChatSession swept (at_block 9000) alice bob = Throw "panic: arithmetic underflow".
Proof.
  apply (renewal_reverts_on_empty_counter (E := counting_evm) swept (at_block 9000) alice bob
           second_session).
  - discriminate.
  - discriminate.
  - vm_compute. reflexivity.
  - reflexivity.
  - discriminate.
  - discriminate.
  - reflexivity.
  - reflexivity.
  - cbn. lia.
  - reflexivity.
Defined.

End LedgerInstances.

Section LedgerLimitInstance.
Import Ledger LedgerHistory Model Timeline.

Lemma crowded_later_evolves : evolves crowded [] crowded_later.
Proof.
  apply (evolves_step crowded [] crowded [] crowded_later (evolves_refl _)).
  apply (step_close crowded 1001 bob). vm_compute. reflexivity.
Qed.

Lemma session_limit_is_permanent_witness :
  (exists more,
     getUserSessions crowded_later alice = (getUserSessions crowded alice ++ more)%list) /\
  (forall id, getSessionContract crowded id <> ZeroAddress ->
     getSessionContract crowded_later id = getSessionContract crowded id) /\
  createChatSession crowded_later (at_block 9000) alice 500
  = Throw "Maximum sessions reached".
Proof.
  destruct (session_limit_is_permanent (E := counting_evm) crowded crowded_later []
              alice crowded_later_evolves)
    as (Hgrow & Hkeep & Hlimit).
  split; [exact Hgrow|]. split; [exact Hkeep|].
  apply Hlimit; [vm_compute; discriminate | discriminate | discriminate].
Defined.

End LedgerLimitInstance.

Section LedgerExclusionInstance.
Import Ledger LedgerHistory Model Timeline.

Lemma active_session_blocks_creation_witness :
  createChatSession opened (at_block 1300) alice bob = Throw "Active session exists" <->
  exists id a, getSessionBetween opened (at_block 1300) alice bob = Ok (id, a, true) /\ id <> 0.
Proof.
  apply (active_session_blocks_creation (E := counting_evm) opened (at_block 1300) alice bob).
  - discriminate.
  - discriminate.
  - vm_compute. reflexivity.
  - reflexivity.
Defined.

End LedgerExclusionInstance.

Section LiveSessionInstance.
Import Ledger LedgerHistory SessionManager Model.


End LiveSessionInstance.

(** ** The main contract's properties on a concrete history *)

Section ChatContractInstances.
Import Ledger ChatContract Mailbox.

Lemma first_letter_step : step deployment first_letter.
Proof.
  apply (step_send deployment (Timeline.at_block 1000) alice bob "hello" 0 false "text"
           0 first_letter
           {| sent_from := alice; sent_to := bob; sent_cid := "hello";
              sent_timestamp := 1000; sent_expiry := 0; sent_messageId := 0;
              sent_conversationHash := getConversationHash alice bob |});
    [lia | reflexivity].
Qed.

Lemma second_letter_step : step first_letter second_letter.
Proof.
  apply (step_send first_letter (Timeline.at_block 1010) bob alice "hi" 2000 false "text"
           1 second_letter
           {| sent_from := bob; sent_to := alice; sent_cid := "hi";
              sent_timestamp := 1010; sent_expiry := 2000; sent_messageId := 1;
              sent_conversationHash := getConversationHash alice bob |});
    [lia | reflexivity].
Qed.

Lemma third_letter_step : step second_letter third_letter.
Proof.
  apply (step_send second_letter (Timeline.at_block 1020) alice carol "news" 0 false "text"
           2 third_letter
           {| sent_from := alice; sent_to := carol; sent_cid := "news";
              sent_timestamp := 1020; sent_expiry := 0; sent_messageId := 2;
              sent_conversationHash := getConversationHash alice carol |});
    [lia | reflexivity].
Qed.

Lemma third_letter_reachable : reachable third_letter.
Proof.
  unfold reachable.
  apply (evolves_step _ second_letter); [|exact third_letter_step].
  apply (evolves_step _ first_letter); [|exact second_letter_step].
  apply (evolves_step _ deployment); [apply evolves_refl | exact first_letter_step].
Qed.

Lemma stored_message_is_permanent_witness :
  getMessage first_letter 0 = Ok hello /\ getMessage third_letter 0 = Ok hello.
Proof.
  split; [reflexivity|].
  apply (stored_message_is_permanent (K := packed_pair) first_letter third_letter 0 hello).
  - apply (evolves_step _ second_letter); [|exact third_letter_step].
    apply (evolves_step _ first_letter); [apply evolves_refl | exact second_letter_step].
  - reflexivity.
Defined.

Lemma sendMessage_then_read_witness :
  getMessage second_letter 1 = Ok hi /\
  getUserMessages second_letter bob = (getUserMessages first_letter bob ++ [1])%list /\
  getUserMessages second_letter alice = (getUserMessages first_letter alice ++ [1])%list /\
  getConversationMessages second_letter (getConversationHash bob alice)
  = (getConversationMessages first_letter (getConversationHash bob alice) ++ [1])%list /\
  getConversationMessages second_letter (getConversationHash alice bob)
  = (getConversationMessages first_letter (getConversationHash alice bob) ++ [1])%list /\
  getConversationMessages second_letter (getConversationHash alice bob) = [0; 1].
Proof.
  destruct (sendMessage_then_read (K := packed_pair) first_letter second_letter
              (Timeline.at_block 1010) bob alice "hi" 2000 false "text" 1
              {| sent_from := bob; sent_to := alice; sent_cid := "hi";
                 sent_timestamp := 1010; sent_expiry := 2000; sent_messageId := 1;
                 sent_conversationHash := getConversationHash alice bob |}
              eq_refl)
    as (H1 & H2 & H3 & H4 & H5 & _).
  split; [exact H1|]. split; [exact H2|]. split; [exact H3|]. split; [exact H4|].
  split; [exact H5 | reflexivity].
Defined.

Lemma conversation_index_is_exact_witness :
  getConversationMessages third_letter (getConversationHash alice bob)
  = ids_where (fun id => msg_conversationHash (messages third_letter id)
                         =? getConversationHash alice bob)
      (messageCounter third_letter) /\
  getUserMessages third_letter alice
  = ids_where (fun id => (msg_from (messages third_letter id) =? alice)
                         || (msg_to (messages third_letter id) =? alice))
      (messageCounter third_letter) /\
  getConversationHash alice bob = getConversationHash bob alice /\
  (forall id m,
     0 <= id -> getMessage third_letter id = Ok m ->
     (msg_from m = alice /\ msg_to m = bob) \/ (msg_from m = bob /\ msg_to m = alice) ->
     In id (getConversationMessages third_letter (getConversationHash alice bob))) /\
  getConversationMessages third_letter (getConversationHash alice bob) = [0; 1] /\
  getUserMessages third_letter alice = [0; 1; 2].
Proof.
  destruct (conversation_index_is_exact (K := packed_pair) third_letter
              (getConversationHash alice bob) alice bob third_letter_reachable)
    as (H1 & H2 & H3 & H4).
  split; [exact H1|]. split; [exact H2|]. split; [exact H3|]. split; [exact H4|].
  split; reflexivity.
Defined.

Lemma listed_messages_are_wellformed_witness :
  exists m,
    getMessage third_letter 1 = Ok m /\
    msg_to m <> 0 /\ msg_to m <> msg_from m /\
    msg_cid m <> EmptyString /\ msg_messageType m <> EmptyString /\
    msg_conversationHash m = getConversationHash (msg_from m) (msg_to m) /\
    (msg_expiry m = 0 \/ msg_timestamp m < msg_expiry m <= msg_timestamp m + YEAR) /\
    isExpired third_letter {| timestamp := msg_timestamp m; prevrandao := 0 |} 1 = Ok false.
Proof.
  apply (listed_messages_are_wellformed (K := packed_pair) third_letter
           (getConversationHash alice bob) alice 1 third_letter_reachable).
  left. right. left. reflexivity.
Defined.

Lemma getStats_counts_messages_twice_witness :
  getStats third_letter = (messageCounter third_letter, messageCounter third_letter) /\
  0 <= messageCounter third_letter /\
  (forall id, (exists m, getMessage third_letter id = Ok m) <-> id < messageCounter third_letter) /\
  messageCounter third_letter = 3.
Proof.
  destruct (getStats_counts_messages_twice (K := packed_pair) third_letter
              third_letter_reachable) as (H1 & H2 & H3).
  split; [exact H1|]. split; [exact H2|]. split; [exact H3 | reflexivity].
Defined.

Lemma expiry_checks_agree_witness :
  isExpired third_letter (Timeline.at_block 2001) 1
  = Ok (Replay.isExpired 2001 hi_fetched) /\
  PrivacyManager.isMessageExpired 2001 1010 2000
  = Replay.isExpired 2001 hi_fetched /\
  Replay.isExpired 2001 hi_fetched
  = true.
Proof.
  destruct (expiry_checks_agree (K := packed_pair) third_letter (Timeline.at_block 2001) 1 hi
              hi_fetched
              third_letter_reachable ltac:(lia) eq_refl eq_refl)
    as (H1 & H2 & _).
  split; [exact H1|]. split; [exact H2 | reflexivity].
Defined.

End ChatContractInstances.

(** ** The readers, the listing and the service on concrete inputs *)

Section ReaderInstances.
Import Conversation SessionMessages MainMessages Replay ReplayListing ScanWindow.
Import EncryptionService Commands BlockchainService Model Parties Desk.

Lemma shelf_provider_answers (lo hi : Z) :
  lo <= hi -> hi - lo < chunkSize ->
  queryFilter (Provider := shelf_provider) "0x5e55" lo hi
  = Ok (filter (in_blocks lo hi) shelf).
Proof.
  unfold chunkSize. intros Hle Hlt. cbn [queryFilter shelf_provider archive].
  destruct (Z.gtb_spec (hi - lo + 1) 500); [lia | reflexivity].
Qed.

Lemma scan_returns_the_window_witness :
  Permutation
    (getSessionMessagesWithLimit (H := shelf_provider) "0x5e55" 0)
    (map (session_message "0x5e55")
       (filter (in_blocks (Z.max (12000 - maxBlocksToScan) 0) 12000) shelf)) /\
  StronglySorted earlier (getSessionMessagesWithLimit (H := shelf_provider) "0x5e55" 0) /\
  map timestamp (getSessionMessagesWithLimit (H := shelf_provider) "0x5e55" 0)
  = [30; 40; 50].
Proof.
  destruct (scan_returns_the_window (P := shelf_provider) "0x5e55" 0 12000 shelf eq_refl
              shelf_provider_answers) as [Hperm Hsorted].
  split; [exact Hperm|]. split; [exact Hsorted|]. vm_compute. reflexivity.
Defined.

Lemma own_message_is_unreadable_in_replay_witness :
  exists env,
    encryptForRecipient "hello" key1 address2 nonce0 = Ok env /\
    decryptFromSender env key1 address1 = UNDECRYPTABLE /\
    forall currentTime index message out,
      cid message = env ->
      from message = address1 ->
      isExpired currentTime message = false ->
      exists expiryLines,
        lines (show_message address1 key1 currentTime index message out)
        = (lines out
           ++ [MessageHeader (index + 1) (String.eqb (source message) "session") "You"
                 (timestamp message);
               Content UNDECRYPTABLE]
           ++ expiryLines)%list.
Proof.
  apply (own_message_is_unreadable_in_replay (C := additive_group) "hello"
           address1 key1 address2 key2 nonce0).
  - reflexivity.
  - exact table_identity1.
  - exact table_identity2.
  - vm_compute. discriminate.
Defined.

Lemma getConversationMessages_skips_unreadable_witness :
  getConversationMessages (H := patchy_reader) address1 address2
  = Ok (flat_map (fetched (H := patchy_reader)) [0; 1; 2]) /\
  map messageId (flat_map (fetched (H := patchy_reader)) [0; 1; 2]) = ["0"; "2"]%string /\
  fetched (H := patchy_reader) 1 = [].
Proof.
  destruct (getConversationMessages_skips_unreadable (R := patchy_reader)
              address1 address2 "0xc0" [0; 1; 2] eq_refl eq_refl) as (Hall & _ & Hskip).
  split; [exact Hall|]. split; [vm_compute; reflexivity|].
  apply (Hskip 1 "Message not found"). reflexivity.
Defined.

Lemma accepted_command_line_runs_one_handler_witness :
  main send_line = HandleSend /\ 0 <= arg_expiry send_line /\
  check send_line <> Throw "--message is required when using --to".
Proof.
  destruct (accepted_command_line_runs_one_handler send_line) as (Hok & Hdead & _).
  destruct (Hok eq_refl) as (_ & Hsend & Hexp & _).
  assert (Hm : main send_line = HandleSend) by (apply Hsend; reflexivity).
  split; [exact Hm|]. split; [apply (Hexp Hm) | exact Hdead].
Defined.

Lemma generateSharedSecret_accepts_four_spellings_witness :
  generateSharedSecret key1 ("04" ++ peer_public_key)
  = generateSharedSecret key1 peer_public_key /\
  generateSharedSecret key1 ("0x04" ++ peer_public_key)
  = generateSharedSecret key1 peer_public_key /\
  generateSharedSecret key1 "0x1234"
  = Throw "Invalid public key format. Length: 4".
Proof.
  destruct (generateSharedSecret_accepts_four_spellings (C := additive_group) key1
              peer_public_key) as (H1 & _ & H3 & Hother).
  - vm_compute. reflexivity.
  - vm_compute. reflexivity.
  - split; [exact H1|]. split; [exact H3|].
    apply (Hother "0x1234"); [vm_compute; reflexivity | discriminate | discriminate].
Defined.

Lemma transaction_is_submitted_after_checks_witness :
  (exists gasEstimate balance price,
     estimateGas (Rpc := teller 2000000)
       (SessionSendMessage "0x5e55" "envelope" 0 false "text") = Done gasEstimate /\
     60000 = with_margin gasEstimate /\
     getBalance (Rpc := teller 2000000) = Done balance /\
     getFeeData (Rpc := teller 2000000) = Done (Some price) /\
     60000 * price <= balance) /\
  snd (sendSessionMessage (H := teller 2000000) "0xc105ed" "envelope" 0 false "text")
  = [EstimateGas (SessionSendMessage "0xc105ed" "envelope" 0 false "text")] /\
  snd (sendMessageWithMedia (H := teller 1000) address2 "envelope" 0 "text")
  = [EstimateGas (ChatSendMessage address2 "envelope" 0 false "text"); GetBalance;
     GetFeeData; DisplayFundingInstructions 108000 "1000"].
Proof.
  destruct (transaction_is_submitted_after_checks (N := teller 2000000)
              "0x5e55" address2 "envelope" "text" 0 false) as (Hchecked & _).
  split; [|split; vm_compute; reflexivity].
  apply (Hchecked (SessionSendMessage "0x5e55" "envelope" 0 false "text") 60000).
  left. split; [|reflexivity]. vm_compute. tauto.
Defined.

Lemma logger_level_decides_silence_witness :
  Logger.written (Logger.error "boom"
             (Logger.after [Logger.CallSetLogLevel "loud"; Logger.CallSetLogLevel "error"]
                (Logger.constructor "debug")))
  = [("warn", "Invalid log level: loud. Available: debug, info, warn, error");
     ("error", "boom")]%string /\
  Logger.written (Logger.error "boom"
             (Logger.after [Logger.CallWarn "careful"; Logger.CallSetLogLevel "loud"]
                (Logger.constructor "verbose")))
  = [].
Proof.
  destruct (logger_level_decides_silence "debug"
              [Logger.CallSetLogLevel "loud"; Logger.CallSetLogLevel "error"] "boom")
    as [Hknown _].
  destruct (logger_level_decides_silence "verbose"
              [Logger.CallWarn "careful"; Logger.CallSetLogLevel "loud"] "boom")
    as [_ Hunknown].
  split.
  - destruct (Hknown eq_refl) as [_ Hw]. rewrite Hw. reflexivity.
  - destruct (Hunknown eq_refl eq_refl) as [_ Hw]. exact Hw.
Defined.

End ReaderInstances.
